(** * AccessGuru: scoring, enrichment and overlay, a shallow embedding

    The development follows the three source files of the extension:

    - [frontend/popup.js]       weighted score, static fallback, report;
    - [frontend/api-service.js] remote enrichment with per-call fallback;
    - [overlay.js]              highlights, side panel, accordion, teardown.

    The score is modelled twice.  In the modules [Popup] and [Spec] the
    numbers of JavaScript are real numbers and the arithmetic is exact:
    [Math.exp] and [Math.log2] are the real exponential and the real binary
    logarithm, and [NaN] and the infinities are left out (they cannot come
    out of a JSON payload, the only way a number enters the program); the
    bounds and the order properties of the score are proved there.  In the
    module [Double] the numbers are IEEE 754 binary64 numbers and every
    operation is rounded, as in the engine; the formula of the score and
    its values on concrete findings are proved there.  The two models give
    the same integer unless the exact value before rounding lies within a
    rounding error of a half.

    Objects are records whose optional fields are [option]s; a field that
    the code reads without knowing its type is a [JsVal]. *)

From Stdlib Require Import Reals Lra Lia ZArith List Ascii String Bool Arith.
From Stdlib Require Floats.
Import ListNotations.

Set Warnings "-inexact-float".

Open Scope R_scope.

(** Decides the comparisons of a table lookup on concrete reals. *)
Ltac table := repeat (destruct Req_dec_T as [?E | ?E]; try lra).

(* ================================================================== *)
(** ** JavaScript values *)

Inductive JsVal : Type :=
| JUndefined
| JNull
| JBool (b : bool)
| JNum (x : R)
| JStr (s : string)
| JObj.

(** [a ?? b] *)
Definition nullish (a b : JsVal) : JsVal :=
  match a with
  | JUndefined | JNull => b
  | _ => a
  end.

(** [Math.round]: the integer nearest to [x], ties towards +infinity. *)
Definition Math_round (x : R) : Z := Zfloor (x + / 2).

(** [Math.log2] *)
Definition Math_log2 (x : R) : R := ln x / ln 2.

(* ================================================================== *)
(** ** Data model: findings as axe-core reports them and as the popup
       enriches them *)

Record AxeNode : Type := {
  target : option (list string);
  html : string
}.

Record Prediction : Type := {
  predicted_score : JsVal;
  p_score : JsVal;
  prediction_probability : JsVal;
  p_confidence : JsVal;
  probabilities : JsVal;
  originalImpact : string
}.

Inductive Explanation : Type :=
| TemplateExplanation (what : string) (who : list string) (why : string) (how : list string)
| LLMExplanation (whatsWrong whoThisAffects whyItMatters whatToFix howToFix : JsVal).

Record Feature : Type := {
  feature : string;
  shap_value : R
}.

Record Reason : Type := {
  r_feature : JsVal;   (* a string, or the inherited property [nameMap] yields *)
  direction : string;
  contribution : R
}.

Record Shap : Type := {
  sh_values : JsVal;
  topFeatures : list Feature;
  reasons : list Reason
}.

Record SeverityExplanation : Type := {
  se_explanation : JsVal;
  keyFactors : JsVal;
  confidenceNote : JsVal
}.

Record MLAnalysis : Type := {
  prediction : option Prediction;
  explanation : option Explanation;
  severity : option SeverityExplanation;
  shap : option Shap
}.

Record Violation : Type := {
  id : string;
  impact : string;
  help : string;
  description : string;
  nodes : option (list AxeNode);
  mlAnalysis : option MLAnalysis
}.

(* ================================================================== *)
(** ** Runtime: indexed map and [Promise.all] *)

(** [xs.map((x, i) => f(i, x))], indices counted from [i0]. *)
Fixpoint mapi_from {A B : Type} (f : nat -> A -> B) (i0 : nat) (xs : list A) : list B :=
  match xs with
  | [] => []
  | x :: xs' => f i0 x :: mapi_from f (S i0) xs'
  end.

Definition mapi {A B : Type} (f : nat -> A -> B) (xs : list A) : list B :=
  mapi_from f 0 xs.

(** [values[index] = x] on an array that already has a slot [index]. *)
Fixpoint set_slot {A : Type} (values : list A) (index : nat) (x : A) : list A :=
  match values, index with
  | [], _ => []
  | _ :: vs, O => x :: vs
  | v :: vs, S i => v :: set_slot vs i x
  end.

Fixpoint all_filled {A : Type} (values : list (option A)) : option (list A) :=
  match values with
  | [] => Some []
  | None :: _ => None
  | Some x :: vs => match all_filled vs with
                    | Some xs => Some (x :: xs)
                    | None => None
                    end
  end.

(** The slots after the settlements of [completion], started from [values]:
    each settlement stores the value of its promise in the slot of its own
    index. *)
Definition settle {A : Type} (results : list A) (completion : list nat) (values : list (option A))
  : list (option A) :=
  fold_left
    (fun values index =>
       match nth_error results index with
       | Some x => set_slot values index (Some x)
       | None => values
       end)
    completion values.

(** [Promise.all] over promises that never reject (ECMA-262, 27.2.4.1): the
    promise of index [i] fulfils with [results[i]]; [completion] lists the
    indices in the order in which the promises settle.  The combined
    promise fulfils with the array once every slot is filled, and stays
    pending ([None]) when some promise never settles. *)
Definition Promise_all {A : Type} (results : list A) (completion : list nat) : option (list A) :=
  all_filled (settle results completion (repeat None (List.length results))).

(** A slot is either still empty or holds the result of its own index. *)
Definition slots_agree {A : Type} (results : list A) (values : list (option A)) : Prop :=
  List.length values = List.length results /\
  forall i, nth_error values i = Some None \/ nth_error values i = option_map Some (nth_error results i).

(** [s.replace(/_/g, ' ')] *)
Fixpoint replace_underscores (s : string) : string :=
  match s with
  | EmptyString => EmptyString
  | String c s' =>
      String (if Ascii.eqb c "_"%char then " "%char else c) (replace_underscores s')
  end.

(** [s.includes(key)] *)
Definition includes (s key : string) : bool :=
  match String.index 0 key s with
  | Some _ => true
  | None => false
  end.

(** The double quote, for the texts of the source that contain it. *)
Definition dquote : string := String (ascii_of_nat 34) EmptyString.

(** The properties that every object literal inherits from
    [Object.prototype]: a lookup [table[key]] with one of these names does
    not yield [undefined] but the inherited function (for [__proto__], the
    prototype itself), which is truthy and has none of the properties of
    the entries of the table. *)
Definition objectPrototypeKeys : list string :=
  ["constructor"; "__defineGetter__"; "__defineSetter__"; "hasOwnProperty";
   "__lookupGetter__"; "__lookupSetter__"; "isPrototypeOf"; "propertyIsEnumerable";
   "toString"; "valueOf"; "__proto__"; "toLocaleString"]%string.

Definition inherited (key : string) : bool :=
  existsb (String.eqb key) objectPrototypeKeys.

(* ================================================================== *)
(** ** api-service.js: remote enrichment *)

Module Api.

(** How a [fetch] followed by [response.json()] ends. *)
Inductive FetchOutcome (A : Type) : Type :=
| Rejected                 (* network error: [fetch] throws *)
| NotOk                    (* [!response.ok] *)
| Malformed                (* the body is not the JSON the caller reads *)
| Json (data : A).

Arguments Rejected {A}.
Arguments NotOk {A}.
Arguments Malformed {A}.
Arguments Json {A} data.

(** How the [fetch] of a health endpoint ends. *)
Inductive HealthFetch : Type :=
| HealthRejected
| HealthResponse (ok : bool).

Record PredictionPart : Type := {
  d_predicted_score : JsVal;
  d_prediction_probability : JsVal;
  all_probabilities : JsVal
}.

Record ExplanationPart : Type := {
  shap_values : JsVal;
  top_features : option (list Feature);   (* [None]: absent, or not an array of features *)
  base_value : JsVal
}.

(** The body of [/predict-with-shap]; a missing part makes the caller throw. *)
Record PredictData : Type := {
  d_prediction : option PredictionPart;
  d_explanation : option ExplanationPart
}.

Record LLMData : Type := {
  d_1_whats_wrong : JsVal;
  d_2_who_this_affects : JsVal;
  d_3_why_it_matters : JsVal;
  d_4_what_to_fix : JsVal;
  d_5_how_to_fix : JsVal
}.

Record SeverityData : Type := {
  severity_explanation : JsVal;
  key_factors : JsVal;
  confidence_note : JsVal
}.

(** What the three services answer to the calls made for one finding. *)
Record CallOutcomes : Type := {
  predictResponse : FetchOutcome PredictData;
  llmResponse : FetchOutcome LLMData;
  severityResponse : FetchOutcome SeverityData
}.

Record MLPrediction : Type := {
  predictedScore : JsVal;
  confidence : JsVal;
  allProbabilities : JsVal;
  shapValues : JsVal;
  ml_topFeatures : option (list Feature);
  baseValue : JsVal
}.

(** The object under [mlEnhanced] of what [enhanceViolation] returns. *)
Record MlEnhanced : Type := {
  e_prediction : Prediction;
  e_shap : Shap;
  e_explanation : Explanation;
  e_severity : option SeverityExplanation
}.

(** [try { ... } catch { return null }] around the prediction call. *)
Definition getPredictionWithShap (response : FetchOutcome PredictData) : option MLPrediction :=
  match response with
  | Json data =>
      match d_prediction data, d_explanation data with
      | Some p, Some e =>
          Some {| predictedScore := d_predicted_score p;
                  confidence := d_prediction_probability p;
                  allProbabilities := all_probabilities p;
                  shapValues := shap_values e;
                  ml_topFeatures := top_features e;
                  baseValue := base_value e |}
      | _, _ => None
      end
  | _ => None
  end.

Definition getLLMExplanation (response : FetchOutcome LLMData) : option Explanation :=
  match response with
  | Json data =>
      Some (LLMExplanation (d_1_whats_wrong data) (d_2_who_this_affects data)
                           (d_3_why_it_matters data) (d_4_what_to_fix data)
                           (d_5_how_to_fix data))
  | _ => None
  end.

(** [_formatProbabilities] runs [Object.entries] before the request is sent:
    on [undefined] or [null] it throws, and the [catch] returns [null]. *)
Definition getSeverityExplanation (mlPrediction : MLPrediction)
           (response : FetchOutcome SeverityData) : option SeverityExplanation :=
  match ml_topFeatures mlPrediction, allProbabilities mlPrediction with
  | None, _ => None
  | _, JUndefined => None
  | _, JNull => None
  | Some _, _ =>
      match response with
      | Json data =>
          Some {| se_explanation := severity_explanation data;
                  keyFactors := key_factors data;
                  confidenceNote := confidence_note data |}
      | _ => None
      end
  end.

(** [impactMap[impact] || 3]: for the name of an inherited property the
    lookup finds the inherited function, which is truthy. *)
Definition _mapImpactToScore (i : string) : JsVal :=
  if (i =? "critical")%string then JNum 5
  else if (i =? "serious")%string then JNum 4
  else if (i =? "moderate")%string then JNum 3
  else if (i =? "minor")%string then JNum 2
  else if inherited i then JObj
  else JNum 3.

(** [s || d] on strings: the empty string is falsy. *)
Definition str_or (s d : string) : string :=
  if (s =? "")%string then d else s.

Definition _createFallbackExplanation (violation : Violation) : Explanation :=
  LLMExplanation
    (JStr (str_or (description violation) "Accessibility issue detected"))
    (JStr "Users with disabilities")
    (JStr "This violates WCAG accessibility guidelines")
    (JStr (str_or (help violation) "Fix the reported issue"))
    (JStr "Review WCAG documentation for guidance").

Definition _createFallbackEnhancement (violation : Violation) : MlEnhanced :=
  {| e_prediction :=
       {| predicted_score := JUndefined;
          p_score := _mapImpactToScore (impact violation);
          prediction_probability := JUndefined;
          p_confidence := JNum 0.5;
          probabilities := JObj;
          originalImpact := impact violation |};
     e_shap := {| sh_values := JObj; topFeatures := []; reasons := [] |};
     e_explanation := _createFallbackExplanation violation;
     e_severity := None |}.

(** [nameMap[featureName] || featureName.replace(/_/g, ' ')]: for a name
    that every object inherits, the lookup yields the inherited property,
    an object, and that is what is returned. *)
Definition _humanizeFeatureName (featureName : string) : JsVal :=
  if (featureName =? "contrast_ratio")%string then JStr "Color contrast ratio"
  else if (featureName =? "has_alt_attr")%string then JStr "Presence of alt attribute"
  else if (featureName =? "font_size")%string then JStr "Font size"
  else if (featureName =? "tag_enc")%string then JStr "HTML element type"
  else if (featureName =? "num_images")%string then JStr "Number of images"
  else if (featureName =? "has_aria_label")%string then JStr "ARIA label present"
  else if (featureName =? "word_count")%string then JStr "Text length"
  else if (featureName =? "is_button_or_link")%string then JStr "Interactive element type"
  else if inherited featureName then JObj
  else JStr (replace_underscores featureName).

Definition _convertShapToReasons (topFeatures : list Feature) : list Reason :=
  map (fun f =>
         {| r_feature := _humanizeFeatureName (feature f);
            direction := if Rlt_dec 0 (shap_value f) then "increases" else "decreases";
            contribution := Rabs (shap_value f) |})
      (firstn 5 topFeatures).

(** [enhanceViolation]: the outer [try]/[catch] turns the one exception the
    body can raise ([topFeatures] is not an array) into the fallback. *)
Definition enhanceViolation (net : CallOutcomes) (violation : Violation) : MlEnhanced :=
  match getPredictionWithShap (predictResponse net) with
  | None => _createFallbackEnhancement violation
  | Some mlPrediction =>
      match ml_topFeatures mlPrediction with
      | None => _createFallbackEnhancement violation
      | Some tf =>
          let shapReasons := _convertShapToReasons tf in
          let llmExplanation := getLLMExplanation (llmResponse net) in
          let severityExplanation :=
            getSeverityExplanation mlPrediction (severityResponse net) in
          {| e_prediction :=
               {| predicted_score := JUndefined;
                  p_score := predictedScore mlPrediction;
                  prediction_probability := JUndefined;
                  p_confidence := confidence mlPrediction;
                  probabilities := allProbabilities mlPrediction;
                  originalImpact := impact violation |};
             e_shap := {| sh_values := shapValues mlPrediction;
                          topFeatures := tf;
                          reasons := shapReasons |};
             e_explanation := match llmExplanation with
                              | Some e => e
                              | None => _createFallbackExplanation violation
                              end;
             e_severity := severityExplanation |}
      end
  end.

Record Health : Type := {
  mlApi : bool;
  llmApi : bool
}.

Definition checkHealth (mlResponse llmResponse : HealthFetch) : Health :=
  {| mlApi := match mlResponse with HealthResponse ok => ok | HealthRejected => false end;
     llmApi := match llmResponse with HealthResponse ok => ok | HealthRejected => false end |}.

End Api.

(* ================================================================== *)
(** ** popup.js: weighted score and helpers *)

Module Popup.

(** [mapImpactToScore]: [map[impact] || 3]; for the name of an inherited
    property the lookup finds the inherited function, which is truthy. *)
Definition mapImpactToScore (i : string) : JsVal :=
  if (i =? "critical")%string then JNum 5
  else if (i =? "serious")%string then JNum 4
  else if (i =? "moderate")%string then JNum 3
  else if (i =? "minor")%string then JNum 2
  else if inherited i then JObj
  else JNum 3.

(** [v.mlAnalysis?.prediction?.f] for a field [f] of the prediction. *)
Definition predictionField (f : Prediction -> JsVal) (v : Violation) : JsVal :=
  match mlAnalysis v with
  | Some a => match prediction a with
              | Some p => f p
              | None => JUndefined
              end
  | None => JUndefined
  end.

Definition getPredictedSeverityScore (v : Violation) : JsVal :=
  let mlScore := nullish (predictionField predicted_score v) (predictionField p_score v) in
  match mlScore with
  | JNum x => JNum x
  | _ => mapImpactToScore (impact v)
  end.

Definition getPredictionConfidence (v : Violation) : R :=
  let conf := nullish (predictionField prediction_probability v)
                      (predictionField p_confidence v) in
  match conf with
  | JNum c => Rmax 0 (Rmin 1 c)
  | _ => 0.75
  end.

(** [map[score2to5] ?? 5] with [map = { 2: 2, 3: 5, 4: 10, 5: 18 }].  The
    argument is what [getPredictedSeverityScore] returns: a number, or the
    function that [mapImpactToScore] found, whose text is no key of the
    table. *)
Definition severityWeight (score2to5 : JsVal) : R :=
  match score2to5 with
  | JNum x =>
      if Req_dec_T x 2 then 2
      else if Req_dec_T x 3 then 5
      else if Req_dec_T x 4 then 10
      else if Req_dec_T x 5 then 18
      else 5
  | _ => 5
  end.

(** [Math.min(Math.max(n || 1, 1), 20)] *)
Definition capped (n : R) : R := Rmin (Rmax (if Req_dec_T n 0 then 1 else n) 1) 20.

Definition instanceMultiplier (n : R) : R :=
  let capped := capped n in
  1 + (Math_log2 capped / 3).

Definition confidenceMultiplier (c : R) : R := 0.6 + 0.4 * c.

(** [v.nodes?.length || 1] *)
Definition nodeCountOr1 (v : Violation) : R :=
  match nodes v with
  | Some l => if (List.length l =? 0)%nat then 1 else INR (List.length l)
  | None => 1
  end.

(** The body of the [for] loop: the penalty [p] of one finding. *)
Definition penalty (v : Violation) : R :=
  let s := getPredictedSeverityScore v in
  let c := getPredictionConfidence v in
  let n := nodeCountOr1 v in
  severityWeight s * instanceMultiplier n * confidenceMultiplier c.

(** The loop itself: [totalPenalty += p], from 0, in list order. *)
Definition totalPenalty (enhancedViolations : list Violation) : R :=
  fold_left (fun acc v => acc + penalty v) enhancedViolations 0.

(** The value before clamping and rounding, in exact arithmetic: it is
    never 0, where the [Math.exp] of the engine underflows to 0 for a large
    total (see [Double.Math_exp]). *)
Definition rawScore (enhancedViolations : list Violation) : R :=
  100 * exp (- totalPenalty enhancedViolations / 65).

(** The score in exact arithmetic.  It is the integer the popup shows
    unless [rawScore] lies within a rounding error of a half; the score in
    the arithmetic of the engine is [Double.computeAccessibilityScore0to100]. *)
Definition computeAccessibilityScore0to100 (enhancedViolations : list Violation) : Z :=
  Math_round (Rmax 0 (Rmin 100 (rawScore enhancedViolations))).

(** [{ 2: 15, 3: 35, 4: 60, 5: 85 }[s] ?? 35] *)
Definition estimateUserImpactFromSeverity (v : Violation) : R :=
  let s := getPredictedSeverityScore v in
  match s with
  | JNum x =>
      if Req_dec_T x 2 then 15
      else if Req_dec_T x 3 then 35
      else if Req_dec_T x 4 then 60
      else if Req_dec_T x 5 then 85
      else 35
  | _ => 35
  end.

(** [MLModels._mapImpactToScore]: [impactMap[impact] || 3], with the
    inherited function for the name of an inherited property. *)
Definition _mapImpactToScore (i : string) : JsVal :=
  if (i =? "critical")%string then JNum 5
  else if (i =? "serious")%string then JNum 4
  else if (i =? "moderate")%string then JNum 3
  else if (i =? "minor")%string then JNum 2
  else if inherited i then JObj
  else JNum 3.

(** [MLModels.generateExplanation]: the first template whose key occurs in
    the rule id, in the order the templates are written. *)
Definition generateExplanation (violation : Violation) : Explanation :=
  if includes (id violation) "image-alt" then
    TemplateExplanation
      "Images are missing descriptive alternative text"
      ["Blind users using screen readers"; "Users with images disabled"]%string
      "Screen readers cannot convey image content without alt text"
      [("Add descriptive alt=" ++ dquote ++ dquote ++ " attributes to images")%string;
       "Describe the purpose and content of the image"%string]
  else if includes (id violation) "color-contrast" then
    TemplateExplanation
      "Text does not have sufficient contrast against its background"
      ["Low vision users"; "Color blind users"; "Users viewing in bright sunlight"]%string
      "Insufficient contrast makes text difficult or impossible to read"
      ["Increase contrast ratio to at least 4.5:1";
       "Use darker text or lighter backgrounds"]%string
  else if includes (id violation) "link-name" then
    TemplateExplanation
      "Links lack descriptive text"
      ["Screen reader users"; "Keyboard navigation users"]%string
      ("Generic link text like " ++ dquote ++ "click here" ++ dquote
       ++ " doesn't provide context")%string
      ["Use descriptive link text that explains the destination"%string;
       ("Avoid generic phrases like " ++ dquote ++ "click here" ++ dquote ++ " or "
        ++ dquote ++ "read more" ++ dquote)%string]
  else
    TemplateExplanation
      (description violation)
      ["Users with disabilities"]%string
      "This violates WCAG accessibility guidelines"
      ["Review WCAG documentation"; "Fix the reported issue"]%string.

(** The static fallback. *)
Definition getStaticMLAnalysis (violation : Violation) : MLAnalysis :=
  {| prediction :=
       Some {| predicted_score := JUndefined;
               p_score := _mapImpactToScore (impact violation);
               prediction_probability := JUndefined;
               p_confidence := JNum 0.75;
               probabilities := JUndefined;
               originalImpact := impact violation |};
     explanation := Some (generateExplanation violation);
     severity := None;
     shap := Some {| sh_values := JUndefined; topFeatures := []; reasons := [] |} |}.

(** [enhanced.mlAnalysis = a] on the copy [{ ...violation }]. *)
Definition withMlAnalysis (violation : Violation) (a : MLAnalysis) : Violation :=
  {| id := id violation;
     impact := impact violation;
     help := help violation;
     description := description violation;
     nodes := nodes violation;
     mlAnalysis := Some a |}.

(** The analysis the popup keeps of what the API service returned. *)
Definition mlAnalysisOf (mlData : Api.MlEnhanced) : MLAnalysis :=
  {| prediction := Some (Api.e_prediction mlData);
     explanation := Some (Api.e_explanation mlData);
     severity := Api.e_severity mlData;
     shap := Some (Api.e_shap mlData) |}.

(** The callback of [violations.map] in [enhanceWithML]; [enhanceViolation]
    returns on every path, so the [catch] of the callback is never entered. *)
Definition enhanceOne (useML : bool) (calls : nat -> Api.CallOutcomes)
           (index : nat) (violation : Violation) : Violation :=
  if useML
  then withMlAnalysis violation (mlAnalysisOf (Api.enhanceViolation (calls index) violation))
  else withMlAnalysis violation (getStaticMLAnalysis violation).

Record AxeResults : Type := {
  ar_violations : option (list Violation);
  ar_url : string
}.

Record Report : Type := {
  r_violations : list Violation;
  r_score : Z;
  totalViolations : nat;
  criticalCount : nat;
  seriousCount : nat;
  moderateCount : nat;
  avgImpact : Z;
  r_url : string;
  timestamp : string;
  usingMLAPI : bool
}.

Definition countImpact (i : string) (violations : list Violation) : nat :=
  List.length (filter (fun v => (impact v =? i)%string) violations).

(** Everything the services, the scheduler and the clock decide during one
    run of [enhanceWithML]. *)
Record World : Type := {
  mlHealth : Api.HealthFetch;
  llmHealth : Api.HealthFetch;
  calls : nat -> Api.CallOutcomes;   (* by index of the finding in the batch *)
  completion : list nat;             (* order in which the requests finish *)
  now : string                       (* [new Date().toISOString()] *)
}.


(** Lines 395-418: the report, from the raw and the enhanced findings. *)
Definition buildReport (violations enhancedViolations : list Violation)
           (url ts : string) (useML : bool) : Report :=
  let totalViolations := List.length violations in
  let score := computeAccessibilityScore0to100 enhancedViolations in
  let totalImpact :=
    fold_left (fun sum v => sum + estimateUserImpactFromSeverity v) enhancedViolations 0 in
  let avgImpact :=
    if (0 <? totalViolations)%nat
    then Math_round (totalImpact / INR totalViolations)
    else 0%Z in
  {| r_violations := enhancedViolations;
     r_score := score;
     totalViolations := totalViolations;
     criticalCount := countImpact "critical" violations;
     seriousCount := countImpact "serious" violations;
     moderateCount := countImpact "moderate" violations;
     avgImpact := avgImpact;
     r_url := url;
     timestamp := ts;
     usingMLAPI := useML |}.

(** [enhanceWithML]; [None] when [Promise.all] never fulfils. *)
Definition enhanceWithML (w : World) (axeResults : AxeResults) : option Report :=
  let violations := match ar_violations axeResults with Some vs => vs | None => [] end in
  let apiHealth := Api.checkHealth (mlHealth w) (llmHealth w) in
  let useML := Api.mlApi apiHealth in
  match Promise_all (mapi (enhanceOne useML (calls w)) violations) (completion w) with
  | Some enhancedViolations =>
      Some (buildReport violations enhancedViolations (ar_url axeResults) (now w) useML)
  | None => None
  end.

(** *** Presentation of the results *)

(** The text [displayResults] writes under the score. *)
Definition scoreInterpretation (score : Z) : string :=
  if (80 <=? score)%Z then "Good - Minor issues to address"
  else if (60 <=? score)%Z then "Fair - Several improvements needed"
  else if (40 <=? score)%Z then "Poor - Significant accessibility barriers"
  else "Critical - Major accessibility issues".

(** What [displayResults] puts into the five counters and the
    interpretation line of the popup. *)
Record Display : Type := {
  overallScore : Z;
  shownTotal : nat;
  shownCritical : nat;
  shownSerious : nat;
  shownModerate : nat;
  shownInterpretation : string
}.

Definition displayResults (results : Report) : Display :=
  {| overallScore := r_score results;
     shownTotal := totalViolations results;
     shownCritical := criticalCount results;
     shownSerious := seriousCount results;
     shownModerate := moderateCount results;
     shownInterpretation := scoreInterpretation (r_score results) |}.

(** *** [MLModels.predictImpact] *)

(** [s.toLowerCase()] on the letters A to Z. *)
Definition lowerChar (c : ascii) : ascii :=
  let n := nat_of_ascii c in
  if ((65 <=? n) && (n <=? 90))%nat then ascii_of_nat (n + 32) else c.

Fixpoint toLowerCase (s : string) : string :=
  match s with
  | EmptyString => EmptyString
  | String c s' => String (lowerChar c) (toLowerCase s')
  end.

Record ImpactPrediction : Type := {
  percentage : option nat;                 (* [None]: [NaN] *)
  affectedGroups : option (list string);   (* [None]: [undefined] *)
  ip_confidence : R
}.

(** [impactMap[violation.impact] || impactMap['moderate']]: an entry of
    the table, or, for a name that every object inherits, the inherited
    property, which has neither [percentage] nor [groups]. *)
Inductive BaseImpact : Type :=
| ImpactEntry (percentage : nat) (groups : list string)
| InheritedProperty.

Definition baseImpact (i : string) : BaseImpact :=
  if (i =? "critical")%string
  then ImpactEntry 45 ["Blind users"; "Screen reader users"]%string
  else if (i =? "serious")%string
       then ImpactEntry 35 ["Low vision users"; "Keyboard-only users"]%string
  else if (i =? "moderate")%string
       then ImpactEntry 20 ["Color blind users"; "Motor impaired users"]%string
  else if (i =? "minor")%string
       then ImpactEntry 10 ["Users in bright sunlight"; "Older adults"]%string
  else if inherited i then InheritedProperty
  else ImpactEntry 20 ["Color blind users"; "Motor impaired users"]%string.

(** [violation.description && violation.description.toLowerCase().includes(word)] *)
Definition descriptionMentions (violation : Violation) (word : string) : bool :=
  negb (description violation =? "")%string
  && includes (toLowerCase (description violation)) word.

(** The two adjustments: [adjustedPercentage += 10] and [+= 15]. *)
Definition adjustment (violation : Violation) : nat :=
  ((if descriptionMentions violation "button" then 10 else 0)
   + (if descriptionMentions violation "form" then 15 else 0))%nat.

(** On an inherited property [baseImpact.percentage] is [undefined], which
    the additions and [Math.min] turn into [NaN]. *)
Definition predictImpact (violation : Violation) : ImpactPrediction :=
  match baseImpact (impact violation) with
  | ImpactEntry basePercentage groups =>
      {| percentage := Some (Nat.min 100 (basePercentage + adjustment violation));
         affectedGroups := Some groups;
         ip_confidence := 0.82 |}
  | InheritedProperty =>
      {| percentage := None;
         affectedGroups := None;
         ip_confidence := 0.82 |}
  end.

(** *** Provenance of an enrichment

    The code keeps no tag on a finding that says where its analysis came
    from; provenance is read off the analysis itself. *)

(** The enrichment request of a finding fails: [getPredictionWithShap]
    returns [null], or the body of [enhanceViolation] throws. *)
Definition requestFails (c : Api.CallOutcomes) : bool :=
  match Api.getPredictionWithShap (Api.predictResponse c) with
  | Some p => match Api.ml_topFeatures p with
              | Some _ => false
              | None => true
              end
  | None => true
  end.



(** [e] carries the severity, the confidence and the attributions that the
    prediction service returned for this finding. *)
Definition remoteProvenance (c : Api.CallOutcomes) (e : Violation) : Prop :=
  exists data p x tf,
    Api.predictResponse c = Api.Json data /\
    Api.d_prediction data = Some p /\
    Api.d_explanation data = Some x /\
    Api.top_features x = Some tf /\
    predictionField p_score e = Api.d_predicted_score p /\
    predictionField p_confidence e = Api.d_prediction_probability p /\
    option_map topFeatures (match mlAnalysis e with Some a => shap a | None => None end)
      = Some tf.

End Popup.

(* ================================================================== *)
(** ** popup.js: the popup as a state machine over its panes and the
       extension storage *)

Module PopupUI.
Import Popup.

(** The three keys of [chrome.storage.local] the popup uses. *)
Record Storage : Type := {
  accessGuruResults : option Report;
  accessGuruTabId : option nat;
  accessGuruUrl : option string
}.

Definition emptyStorage : Storage :=
  {| accessGuruResults := None; accessGuruTabId := None; accessGuruUrl := None |}.

(** The two variables of the script, the [hidden] class of the four panes,
    the two message lines, what [displayResults] last wrote, the storage. *)
Record PopupState : Type := {
  currentResults : option Report;
  currentTabId : option nat;
  controlsHidden : bool;
  resultsHidden : bool;
  statusHidden : bool;
  errorHidden : bool;
  statusText : string;
  errorMessage : string;
  displayed : option Display;
  storage : Storage
}.

(** [a === b] on values that are a string or [undefined]. *)
Definition sameUrl (a b : option string) : bool :=
  match a, b with
  | Some x, Some y => (x =? y)%string
  | None, None => true
  | _, _ => false
  end.

(** Truthiness of a tab id and of a stored URL. *)
Definition truthyId (i : option nat) : bool :=
  match i with Some n => negb (n =? 0)%nat | None => false end.

Definition truthyUrl (u : option string) : bool :=
  match u with Some x => negb (x =? "")%string | None => false end.

(** [chrome.storage.local.remove] of the three keys. *)
Definition clearStorage (st : PopupState) : PopupState :=
  {| currentResults := currentResults st;
     currentTabId := currentTabId st;
     controlsHidden := controlsHidden st;
     resultsHidden := resultsHidden st;
     statusHidden := statusHidden st;
     errorHidden := errorHidden st;
     statusText := statusText st;
     errorMessage := errorMessage st;
     displayed := displayed st;
     storage := emptyStorage |}.

(** The [DOMContentLoaded] handler; [currentUrl] is [tab.url]. *)
Definition onDOMContentLoaded (currentUrl : option string) (st : PopupState) : PopupState :=
  let data := storage st in
  let otherwise :=
    if truthyUrl (accessGuruUrl data) && negb (sameUrl (accessGuruUrl data) currentUrl)
    then clearStorage st
    else st in
  match accessGuruResults data with
  | Some results =>
      if truthyId (accessGuruTabId data) && sameUrl (accessGuruUrl data) currentUrl then
        {| currentResults := Some results;
           currentTabId := accessGuruTabId data;
           controlsHidden := true;
           resultsHidden := false;
           statusHidden := statusHidden st;
           errorHidden := errorHidden st;
           statusText := statusText st;
           errorMessage := errorMessage st;
           displayed := Some (displayResults results);
           storage := storage st |}
      else otherwise
  | None => otherwise
  end.

(** The click handler of [runAgainBtn]. *)
Definition onRunAgain (st : PopupState) : PopupState :=
  {| currentResults := None;
     currentTabId := None;
     controlsHidden := false;
     resultsHidden := true;
     statusHidden := statusHidden st;
     errorHidden := errorHidden st;
     statusText := statusText st;
     errorMessage := errorMessage st;
     displayed := displayed st;
     storage := emptyStorage |}.

(** [runAxeTest], in the page: what [axe.run] does there, if [axe] is
    defined at all. *)
Inductive AxeRun : Type :=
| AxeResolves (results : AxeResults)
| AxeRejects (message : string).

Inductive AxeOutcome : Type :=
| AxeError (error : string)
| AxeScan (results : AxeResults).

Definition runAxeTest (axe : option AxeRun) : AxeOutcome :=
  match axe with
  | None => AxeError "axe-core not loaded"
  | Some (AxeResolves results) => AxeScan results
  | Some (AxeRejects message) => AxeError message
  end.

(** What the browser answers during one run of [runAccessibilityTest]. *)
Inductive TabQuery : Type :=
| QueryFails (message : string)          (* rejected, or no active tab *)
| ActiveTab (tabId : nat) (url : option string).

Inductive Injection : Type := Injected | InjectionFails.

Inductive ScriptResult : Type :=
| ScriptRejected (message : string)
| NoFrameResult                           (* [!results || !results[0]] *)
| FrameResult (result : option AxeOutcome).  (* [results[0].result] *)

Record Browser : Type := {
  tabQuery : TabQuery;
  injection : Injection;
  scriptResult : ScriptResult;
  world : World
}.

(** The [catch] of [runAccessibilityTest]. *)
Definition showError (message : string) (st : PopupState) : PopupState :=
  {| currentResults := currentResults st;
     currentTabId := currentTabId st;
     controlsHidden := controlsHidden st;
     resultsHidden := resultsHidden st;
     statusHidden := true;
     errorHidden := false;
     statusText := statusText st;
     errorMessage := "Error: " ++ message;
     displayed := displayed st;
     storage := storage st |}.

Definition setStatus (text : string) (st : PopupState) : PopupState :=
  {| currentResults := currentResults st;
     currentTabId := currentTabId st;
     controlsHidden := controlsHidden st;
     resultsHidden := resultsHidden st;
     statusHidden := statusHidden st;
     errorHidden := errorHidden st;
     statusText := text;
     errorMessage := errorMessage st;
     displayed := displayed st;
     storage := storage st |}.

(** The first statements of the [try] block. *)
Definition startRun (st : PopupState) : PopupState :=
  {| currentResults := currentResults st;
     currentTabId := currentTabId st;
     controlsHidden := true;
     resultsHidden := resultsHidden st;
     statusHidden := false;
     errorHidden := true;
     statusText := "Analyzing page...";
     errorMessage := errorMessage st;
     displayed := displayed st;
     storage := storage st |}.

Definition setTab (tabId : nat) (st : PopupState) : PopupState :=
  {| currentResults := currentResults st;
     currentTabId := Some tabId;
     controlsHidden := controlsHidden st;
     resultsHidden := resultsHidden st;
     statusHidden := statusHidden st;
     errorHidden := errorHidden st;
     statusText := statusText st;
     errorMessage := errorMessage st;
     displayed := displayed st;
     storage := storage st |}.

(** The statements after [enhanceWithML] has returned.  A value that is
    [undefined] is not written by [chrome.storage.local.set]: the key keeps
    what it held. *)
Definition finishRun (tabId : nat) (url : option string) (enhancedResults : Report)
           (st : PopupState) : PopupState :=
  {| currentResults := Some enhancedResults;
     currentTabId := currentTabId st;
     controlsHidden := controlsHidden st;
     resultsHidden := false;
     statusHidden := true;
     errorHidden := errorHidden st;
     statusText := statusText st;
     errorMessage := errorMessage st;
     displayed := Some (displayResults enhancedResults);
     storage := {| accessGuruResults := Some enhancedResults;
                   accessGuruTabId := Some tabId;
                   accessGuruUrl := match url with
                                    | Some u => Some u
                                    | None => accessGuruUrl (storage st)
                                    end |} |}.

(** [runAccessibilityTest].  When [Promise.all] inside [enhanceWithML]
    never fulfils, the function never gets past its [await]: the popup
    stays as it is at that point. *)
Definition runAccessibilityTest (b : Browser) (st : PopupState) : PopupState :=
  let st := startRun st in
  match tabQuery b with
  | QueryFails message => showError message st
  | ActiveTab tabId url =>
      let st := setStatus "Loading axe-core library..." (setTab tabId st) in
      match injection b with
      | InjectionFails =>
          showError
            "Failed to load axe-core library. Make sure axe.min.js is in the extension folder."
            st
      | Injected =>
          let st := setStatus "Running axe core tests..." st in
          match scriptResult b with
          | ScriptRejected message => showError message st
          | NoFrameResult => showError "No results returned from executeScript" st
          | FrameResult None => showError "Invalid axe results format" st
          | FrameResult (Some (AxeError error)) =>
              if (error =? "")%string
              then showError "Invalid axe results format" st
              else showError error st
          | FrameResult (Some (AxeScan axeResults)) =>
              match ar_violations axeResults with
              | None => showError "Invalid axe results format" st
              | Some _ =>
                  let st := setStatus "Applying ML analysis..." st in
                  match enhanceWithML (world b) axeResults with
                  | Some enhancedResults => finishRun tabId url enhancedResults st
                  | None => st
                  end
              end
          end
      end
  end.

End PopupUI.

(* ================================================================== *)
(** ** overlay.js: highlights, tooltip, side panel *)

Module Overlay.

(** What [document.querySelector(selector)] does on the scanned page.  The
    nodes of the overlay itself are kept apart from the page (in [body]
    below); a selector of a finding is looked up among the page's own
    elements only. *)
Inductive QueryResult : Type :=
| QueryThrows                (* not a valid selector: [SyntaxError] *)
| QueryNull
| QueryElement (e : nat).

Definition Page : Type := string -> QueryResult.

(** The four keys of [SEVERITY_COLORS]. *)
Definition isSeverityLevel (i : string) : bool :=
  (i =? "critical")%string || (i =? "serious")%string
  || (i =? "moderate")%string || (i =? "minor")%string.

(** [SEVERITY_COLORS[impact]] is defined, so that reading its [border] or
    [background] does not throw: [impact] is one of the four keys, or the
    name of a property the table inherits (whose [border] and [background]
    are [undefined]). *)
Definition hasSeverityColor (i : string) : bool :=
  isSeverityLevel i || inherited i.

(** One [div.violation-accordion] of the list: the finding it shows, the
    [max-height] of its body in pixels (0: collapsed) and its arrow. *)
Record AccordionEntry : Type := {
  violationIndex : nat;
  entryViolation : Violation;
  maxHeight : nat;
  arrowRotated : bool
}.

Inductive NodeKind : Type :=
| Highlight (element : nat) (violation : Violation) (nodeInfo : AxeNode)
| InfoIcon (violation : Violation) (nodeInfo : AxeNode)
| Tooltip (displayed : bool)
| SidePanel (collapsed : bool) (entries : list AccordionEntry) (listError : bool).

(** A node the script appended to [document.body]; [nid] is its identity. *)
Record DomNode : Type := {
  nid : nat;
  kind : NodeKind
}.

(** A listener registered on [window]: event type, callback, capture flag. *)
Inductive Handler : Type := handleResize | handleScroll.

Record Listener : Type := {
  eventType : string;
  callback : Handler;
  capture : bool
}.

(** The variables of the closure, the two flags on [window], the part of
    the document the script owns, and the listeners of [window]. *)
Record State : Type := {
  body : list DomNode;
  overlayElements : list nat;
  tooltipElement : option nat;
  sidePanel : option nat;
  currentViolations : list Violation;
  windowListeners : list Listener;
  accessGuruListenersAdded : bool;
  accessGuruOverlayInjected : bool;
  nextNode : nat
}.

(** The state once the script has run: the injection flag is set. *)
Definition injected : State :=
  {| body := [];
     overlayElements := [];
     tooltipElement := None;
     sidePanel := None;
     currentViolations := [];
     windowListeners := [];
     accessGuruListenersAdded := false;
     accessGuruOverlayInjected := true;
     nextNode := 0 |}.

Definition isHighlight (k : NodeKind) : bool :=
  match k with Highlight _ _ _ => true | _ => false end.
Definition isInfoIcon (k : NodeKind) : bool :=
  match k with InfoIcon _ _ => true | _ => false end.
Definition isTooltip (k : NodeKind) : bool :=
  match k with Tooltip _ => true | _ => false end.
Definition isSidePanel (k : NodeKind) : bool :=
  match k with SidePanel _ _ _ => true | _ => false end.

(** [el.parentNode] is not null: the node is in the document. *)
Definition inDocument (i : nat) (b : list DomNode) : bool :=
  existsb (fun n => nid n =? i)%nat b.

(** [el.parentNode.removeChild(el)] *)
Definition removeChild (i : nat) (b : list DomNode) : list DomNode :=
  filter (fun n => negb (nid n =? i)%nat) b.

Definition updateNode (i : nat) (f : NodeKind -> NodeKind) (b : list DomNode) : list DomNode :=
  map (fun n => if (nid n =? i)%nat then {| nid := nid n; kind := f (kind n) |} else n) b.

(** The side panels of the document, changed in place. *)
Definition updatePanels (f : NodeKind -> NodeKind) (b : list DomNode) : list DomNode :=
  map (fun n => if isSidePanel (kind n) then {| nid := nid n; kind := f (kind n) |} else n) b.

(** [document.getElementById('access-guru-side-panel')] *)
Definition findPanel (b : list DomNode) : option DomNode :=
  find (fun n => isSidePanel (kind n)) b.

Definition createTooltip (s : State) : State :=
  match tooltipElement s with
  | Some _ => s
  | None =>
      {| body := body s ++ [{| nid := nextNode s; kind := Tooltip false |}];
         overlayElements := overlayElements s;
         tooltipElement := Some (nextNode s);
         sidePanel := sidePanel s;
         currentViolations := currentViolations s;
         windowListeners := windowListeners s;
         accessGuruListenersAdded := accessGuruListenersAdded s;
         accessGuruOverlayInjected := accessGuruOverlayInjected s;
         nextNode := S (nextNode s) |}
  end.

Definition setSidePanel (s : State) (p : option nat) : State :=
  {| body := body s;
     overlayElements := overlayElements s;
     tooltipElement := tooltipElement s;
     sidePanel := p;
     currentViolations := currentViolations s;
     windowListeners := windowListeners s;
     accessGuruListenersAdded := accessGuruListenersAdded s;
     accessGuruOverlayInjected := accessGuruOverlayInjected s;
     nextNode := nextNode s |}.

Definition setBody (s : State) (b : list DomNode) : State :=
  {| body := b;
     overlayElements := overlayElements s;
     tooltipElement := tooltipElement s;
     sidePanel := sidePanel s;
     currentViolations := currentViolations s;
     windowListeners := windowListeners s;
     accessGuruListenersAdded := accessGuruListenersAdded s;
     accessGuruOverlayInjected := accessGuruOverlayInjected s;
     nextNode := nextNode s |}.

(** [createSidePanel]: an existing panel is taken over; the new panel
    starts collapsed, its list empty. *)
Definition createSidePanel (s : State) : State :=
  match findPanel (body s) with
  | Some existing => setSidePanel s (Some (nid existing))
  | None =>
      match sidePanel s with
      | Some _ => s
      | None =>
          {| body := body s ++ [{| nid := nextNode s; kind := SidePanel true [] false |}];
             overlayElements := overlayElements s;
             tooltipElement := tooltipElement s;
             sidePanel := Some (nextNode s);
             currentViolations := currentViolations s;
             windowListeners := windowListeners s;
             accessGuruListenersAdded := accessGuruListenersAdded s;
             accessGuruOverlayInjected := accessGuruOverlayInjected s;
             nextNode := S (nextNode s) |}
      end
  end.

Definition newEntry (idx : nat) (violation : Violation) : AccordionEntry :=
  {| violationIndex := idx;
     entryViolation := violation;
     maxHeight := 0;
     arrowRotated := false |}.

(** [populateViolationsList]: the markup of an entry reads
    [SEVERITY_COLORS[violation.impact].border]; on an impact without a
    colour the [map] throws and the [catch] shows the error text. *)
Definition setList (violations : list Violation) (k : NodeKind) : NodeKind :=
  match k with
  | SidePanel c _ _ =>
      if forallb (fun v => hasSeverityColor (impact v)) violations
      then SidePanel c (mapi newEntry violations) false
      else SidePanel c [] true
  | _ => k
  end.

Definition populateViolationsList (violations : list Violation) (s : State) : State :=
  setBody s (updatePanels (setList violations) (body s)).

(** [createHighlight]: throws, before it touches the document, when the
    impact has no colour; otherwise appends the highlight and its icon. *)
Definition createHighlight (element : nat) (violation : Violation) (nodeInfo : AxeNode)
           (s : State) : option State :=
  if hasSeverityColor (impact violation) then
    Some {| body := body s ++ [{| nid := nextNode s; kind := Highlight element violation nodeInfo |};
                               {| nid := S (nextNode s); kind := InfoIcon violation nodeInfo |}];
            overlayElements := overlayElements s ++ [nextNode s; S (nextNode s)];
            tooltipElement := tooltipElement s;
            sidePanel := sidePanel s;
            currentViolations := currentViolations s;
            windowListeners := windowListeners s;
            accessGuruListenersAdded := accessGuruListenersAdded s;
            accessGuruOverlayInjected := accessGuruOverlayInjected s;
            nextNode := S (S (nextNode s)) |}
  else None.

Definition removeAllOverlays (s : State) : State :=
  let b1 := fold_left (fun b el => if inDocument el b then removeChild el b else b)
                      (overlayElements s) (body s) in
  let '(b2, tooltip) :=
    match tooltipElement s with
    | Some t => if inDocument t b1 then (removeChild t b1, None) else (b1, Some t)
    | None => (b1, None)
    end in
  let '(b3, panel) :=
    match sidePanel s with
    | Some p => if inDocument p b2 then (removeChild p b2, None) else (b2, Some p)
    | None => (b2, None)
    end in
  {| body := b3;
     overlayElements := [];
     tooltipElement := tooltip;
     sidePanel := panel;
     currentViolations := currentViolations s;
     windowListeners := windowListeners s;
     accessGuruListenersAdded := false;
     accessGuruOverlayInjected := false;
     nextNode := nextNode s |}.

(** The body of the inner [forEach]: one instance of one finding. *)
Definition highlightNode (page : Page) (violation : Violation) (s : State) (node : AxeNode)
  : State :=
  match target node with
  | Some (selector :: _) =>
      match page selector with
      | QueryElement element =>
          match createHighlight element violation node s with
          | Some s' => s'
          | None => s            (* caught: logged, nothing created *)
          end
      | QueryNull => s
      | QueryThrows => s         (* caught *)
      end
  | _ => s
  end.

(** The body of the outer [forEach]. *)
Definition highlightViolation (page : Page) (s : State) (violation : Violation) : State :=
  match nodes violation with
  | Some ns => fold_left (highlightNode page violation) ns s
  | None => s
  end.

(** [('resize', handleResize)] and [('scroll', handleScroll, true)] *)
Definition resizeListener : Listener :=
  {| eventType := "resize"; callback := handleResize; capture := false |}.

Definition scrollListener : Listener :=
  {| eventType := "scroll"; callback := handleScroll; capture := true |}.

Definition listenerEqb (a b : Listener) : bool :=
  (eventType a =? eventType b)%string
  && match callback a, callback b with
     | handleResize, handleResize | handleScroll, handleScroll => true
     | _, _ => false
     end
  && Bool.eqb (capture a) (capture b).

(** [window.addEventListener]: a listener already registered with the same
    type, callback and capture flag is not added again. *)
Definition addEventListener (l : Listener) (ls : list Listener) : list Listener :=
  if existsb (listenerEqb l) ls then ls else ls ++ [l].

Definition addWindowListeners (s : State) : State :=
  if accessGuruListenersAdded s then s
  else
    {| body := body s;
       overlayElements := overlayElements s;
       tooltipElement := tooltipElement s;
       sidePanel := sidePanel s;
       currentViolations := currentViolations s;
       windowListeners :=
         addEventListener scrollListener
           (addEventListener resizeListener (windowListeners s));
       accessGuruListenersAdded := true;
       accessGuruOverlayInjected := accessGuruOverlayInjected s;
       nextNode := nextNode s |}.

Definition setCurrentViolations (s : State) (violations : list Violation) : State :=
  {| body := body s;
     overlayElements := overlayElements s;
     tooltipElement := tooltipElement s;
     sidePanel := sidePanel s;
     currentViolations := violations;
     windowListeners := windowListeners s;
     accessGuruListenersAdded := accessGuruListenersAdded s;
     accessGuruOverlayInjected := accessGuruOverlayInjected s;
     nextNode := nextNode s |}.

(** [highlightViolations], the second of the two declarations of that name
    (the later one is the one in force).  The statistics line of the panel
    is text only and is not modelled. *)
Definition highlightViolations (page : Page) (violations : list Violation) (s : State) : State :=
  match violations with
  | [] => s
  | _ =>
      let s1 := setCurrentViolations s violations in
      let s2 := createSidePanel s1 in
      let s3 := populateViolationsList violations s2 in
      let s4 := fold_left (highlightViolation page) violations s3 in
      addWindowListeners s4
  end.

(** *** The accordion of the side panel *)

(** [body.style.maxHeight && body.style.maxHeight !== '0px'] *)
Definition isExpanded (e : AccordionEntry) : bool := negb (maxHeight e =? 0)%nat.

(** [b.style.maxHeight = '0'] and [a.style.transform = 'rotate(0deg)'] *)
Definition closeEntry (e : AccordionEntry) : AccordionEntry :=
  {| violationIndex := violationIndex e;
     entryViolation := entryViolation e;
     maxHeight := 0;
     arrowRotated := false |}.

(** [body.style.maxHeight = body.scrollHeight + 'px'], arrow turned. *)
Definition openEntry (scrollHeight : nat) (e : AccordionEntry) : AccordionEntry :=
  {| violationIndex := violationIndex e;
     entryViolation := entryViolation e;
     maxHeight := scrollHeight;
     arrowRotated := true |}.

(** The click handler of the header of entry [k]; [scrollHeight] is what
    the layout reports for the body of that entry at the time of the click. *)
Definition clickHeader (k scrollHeight : nat) (entries : list AccordionEntry)
  : list AccordionEntry :=
  match nth_error entries k with
  | None => entries
  | Some e =>
      if isExpanded e
      then set_slot entries k (closeEntry e)
      else set_slot (map closeEntry entries) k (openEntry scrollHeight e)
  end.

Definition clickHeaderInPanel (k scrollHeight : nat) (nk : NodeKind) : NodeKind :=
  match nk with
  | SidePanel c entries err => SidePanel c (clickHeader k scrollHeight entries) err
  | _ => nk
  end.

Definition setCollapsed (c : bool) (nk : NodeKind) : NodeKind :=
  match nk with
  | SidePanel _ entries err => SidePanel c entries err
  | _ => nk
  end.

Definition toggleCollapsed (nk : NodeKind) : NodeKind :=
  match nk with
  | SidePanel c entries err => SidePanel (negb c) entries err
  | _ => nk
  end.

Definition setDisplayed (d : bool) (nk : NodeKind) : NodeKind :=
  match nk with
  | Tooltip _ => Tooltip d
  | _ => nk
  end.

Definition showTooltip (s : State) : State :=
  let s' := createTooltip s in
  match tooltipElement s' with
  | Some t => setBody s' (updateNode t (setDisplayed true) (body s'))
  | None => s'
  end.

Definition hideTooltip (s : State) : State :=
  match tooltipElement s with
  | Some t => setBody s (updateNode t (setDisplayed false) (body s))
  | None => s
  end.

(** [window.accessGuruOpenSidebar] *)
Definition accessGuruOpenSidebar (s : State) : State :=
  match sidePanel s with
  | Some p => setBody s (updateNode p (setCollapsed false) (body s))
  | None => s
  end.

(** [window.accessGuruHighlightSingle] *)
Definition accessGuruHighlightSingle (page : Page) (violation : Violation) (s : State) : State :=
  accessGuruOpenSidebar (highlightViolations page [violation] (removeAllOverlays s)).

(** *** The page script as a state machine *)

(** What can happen to the script once it is injected: the calls the
    extension makes through the functions exposed on [window], and the
    events of the nodes the script created.  A call that looks elements up
    carries the page as it is at that time. *)
Inductive Event : Type :=
| CallHighlight (page : Page) (violations : list Violation)
| CallRemoveOverlays
| CallOpenSidebar
| CallHighlightSingle (page : Page) (violation : Violation)
| ClickToggle
| ClickClose
| ClickAccordionHeader (k scrollHeight : nat)
| MouseEnterIcon (icon : nat)
| MouseLeaveIcon (icon : nat).

Definition hasIcon (i : nat) (b : list DomNode) : bool :=
  existsb (fun n => (nid n =? i)%nat && isInfoIcon (kind n)) b.

Definition step (s : State) (ev : Event) : State :=
  match ev with
  | CallHighlight page violations => highlightViolations page violations s
  | CallRemoveOverlays => removeAllOverlays s
  | CallOpenSidebar => accessGuruOpenSidebar s
  | CallHighlightSingle page violation => accessGuruHighlightSingle page violation s
  | ClickToggle => setBody s (updatePanels toggleCollapsed (body s))
  | ClickClose => setBody s (updatePanels (setCollapsed true) (body s))
  | ClickAccordionHeader k h => setBody s (updatePanels (clickHeaderInPanel k h) (body s))
  | MouseEnterIcon i => if hasIcon i (body s) then showTooltip s else s
  | MouseLeaveIcon i => if hasIcon i (body s) then hideTooltip s else s
  end.

Definition run (events : list Event) (s : State) : State := fold_left step events s.

Definition reachable (s : State) : Prop := exists events, s = run events injected.

(** *** Observations *)

(** A highlight entry: the live element, the finding, the instance. *)
Definition HighlightEntry : Type := (nat * Violation * AxeNode)%type.

(** The highlight entries among the nodes [b]: what
    [document.querySelectorAll('.access-guru-highlight')] finds. *)
Definition entriesOf (b : list DomNode) : list HighlightEntry :=
  flat_map (fun n => match kind n with
                     | Highlight e v nd => [(e, v, nd)]
                     | _ => []
                     end) b.

Definition highlightEntries (s : State) : list HighlightEntry := entriesOf (body s).

(** The entries of the list of the side panel that is in the document. *)
Definition panelEntries (s : State) : list AccordionEntry :=
  match findPanel (body s) with
  | Some n => match kind n with
              | SidePanel _ entries _ => entries
              | _ => []
              end
  | None => []
  end.

Definition expandedAt (entries : list AccordionEntry) (k : nat) : Prop :=
  exists e, nth_error entries k = Some e /\ isExpanded e = true.

Definition atMostOneExpanded (entries : list AccordionEntry) : Prop :=
  forall i j, expandedAt entries i -> expandedAt entries j -> i = j.

(** What one instance contributes to the highlights: the element its
    first selector finds, when there is one and the impact has a colour. *)
Definition resolveInstance (page : Page) (violation : Violation) (node : AxeNode)
  : list HighlightEntry :=
  match target node with
  | Some (selector :: _) =>
      match page selector with
      | QueryElement e =>
          if hasSeverityColor (impact violation) then [(e, violation, node)] else []
      | _ => []
      end
  | _ => []
  end.

Definition resolveViolation (page : Page) (violation : Violation) : list HighlightEntry :=
  match nodes violation with
  | Some ns => flat_map (resolveInstance page violation) ns
  | None => []
  end.

Definition correlate (page : Page) (violations : list Violation) : list HighlightEntry :=
  flat_map (resolveViolation page) violations.

(** The kind of a node without its contents. *)
Inductive Tag : Type := TagHighlight | TagIcon | TagTooltip | TagPanel.

Definition tagOf (k : NodeKind) : Tag :=
  match k with
  | Highlight _ _ _ => TagHighlight
  | InfoIcon _ _ => TagIcon
  | Tooltip _ => TagTooltip
  | SidePanel _ _ _ => TagPanel
  end.

Definition shape (n : DomNode) : nat * Tag := (nid n, tagOf (kind n)).

Definition shapes (s : State) : list (nat * Tag) := map shape (body s).

(** The invariant that ties the variables of the closure to the document:
    identities are fresh, every node of the document is known under the
    variable of its kind, and a variable that is set names such a node. *)
Record Consistent (s : State) : Prop := {
  body_fresh : forall i t, In (i, t) (shapes s) -> (i < nextNode s)%nat;
  overlay_fresh : forall i, In i (overlayElements s) -> (i < nextNode s)%nat;
  tooltip_fresh : forall i, tooltipElement s = Some i -> (i < nextNode s)%nat;
  panel_fresh : forall i, sidePanel s = Some i -> (i < nextNode s)%nat;
  overlay_known : forall i t, In (i, t) (shapes s) ->
      (t = TagHighlight \/ t = TagIcon <-> In i (overlayElements s));
  tooltip_known : forall i t, In (i, t) (shapes s) ->
      (t = TagTooltip <-> tooltipElement s = Some i);
  panel_known : forall i t, In (i, t) (shapes s) ->
      (t = TagPanel <-> sidePanel s = Some i);
  tooltip_present : forall i, tooltipElement s = Some i -> In i (map fst (shapes s));
  panel_present : forall i, sidePanel s = Some i -> In i (map fst (shapes s))
}.

(** Every accordion of the document has at most one entry expanded. *)
Definition accordionsExclusive (b : list DomNode) : Prop :=
  forall n c entries err,
    In n b -> kind n = SidePanel c entries err -> atMostOneExpanded entries.

(** A change of panels that keeps the accordion exclusive. *)
Definition keepsExclusive (f : NodeKind -> NodeKind) : Prop :=
  (forall k, tagOf (f k) = tagOf k) /\
  forall c es err c' es' err',
    f (SidePanel c es err) = SidePanel c' es' err' ->
    atMostOneExpanded es -> atMostOneExpanded es'.

(** The listeners of [window]: none yet, or the two handlers, once each. *)
Definition listenersOnce (s : State) : Prop :=
  windowListeners s = [] \/ windowListeners s = [resizeListener; scrollListener].


(** *** The statistics line, the scroll-and-flash operation, the tooltip
        position and the debounced handlers *)

(** [violation.nodes?.length || 0] *)
Definition nodeCountOr0 (violation : Violation) : nat :=
  match nodes violation with
  | Some ns => List.length ns
  | None => 0%nat
  end.

(** [counts[key] = (counts[key] || 0) + n] on an object whose keys are
    kept in insertion order, for a key that is not the name of an inherited
    property (for such a name [counts[key]] is the inherited function and
    the sum is a text, not a count). *)
Fixpoint addCount (key : string) (n : nat) (counts : list (string * nat))
  : list (string * nat) :=
  match counts with
  | [] => [(key, n)]
  | (k, c) :: rest =>
      if (k =? key)%string then (k, (c + n)%nat) :: rest
      else (k, c) :: addCount key n rest
  end.

Definition initialCounts : list (string * nat) :=
  [("critical"%string, 0%nat); ("serious"%string, 0%nat);
   ("moderate"%string, 0%nat); ("minor"%string, 0%nat)].

(** The [forEach] of [updateSidePanelStats]. *)
Definition countByImpact (violations : list Violation) : list (string * nat) :=
  fold_left (fun counts v => addCount (impact v) (nodeCountOr0 v) counts)
            violations initialCounts.

(** [Object.values(counts).reduce((a, b) => a + b, 0)]: the number the
    panel announces as highlighted. *)
Definition statsTotal (violations : list Violation) : nat :=
  fold_left (fun a b => (a + b)%nat) (map snd (countByImpact violations)) 0%nat.

(** [counts.critical] and the like. *)
Definition countOf (key : string) (counts : list (string * nat)) : nat :=
  match find (fun kc => (fst kc =? key)%string) counts with
  | Some kc => snd kc
  | None => 0%nat
  end.

(** [nodeInfo.target?.[0] || ''], kept in [dataset.selector]. *)
Definition datasetSelector (nodeInfo : AxeNode) : string :=
  match target nodeInfo with
  | Some (selector :: _) => selector
  | _ => ""%string
  end.

(** [violation.nodes.map(node => node.target?.[0]).filter(Boolean)] *)
Definition firstSelectors (violation : Violation) : list string :=
  match nodes violation with
  | Some ns =>
      flat_map (fun node => match target node with
                            | Some (selector :: _) =>
                                if (selector =? "")%string then [] else [selector]
                            | _ => []
                            end) ns
  | None => []
  end.

(** What [scrollToViolation] does: the element it scrolls into view and
    the highlights on which it starts the flash sequence. *)
Record ScrollEffect : Type := {
  scrolledTo : option nat;
  flashed : list nat
}.

Definition noScrollEffect : ScrollEffect := {| scrolledTo := None; flashed := [] |}.

Definition isFlashTarget (selectors : list string) (n : DomNode) : bool :=
  match kind n with
  | Highlight _ _ nodeInfo => existsb (String.eqb (datasetSelector nodeInfo)) selectors
  | _ => false
  end.

Definition scrollToViolation (page : Page) (violation : Violation) (s : State) : ScrollEffect :=
  match nodes violation with
  | None => noScrollEffect
  | Some [] => noScrollEffect
  | Some _ =>
      match firstSelectors violation with
      | [] => noScrollEffect
      | first :: _ =>
          match page first with
          | QueryThrows => noScrollEffect      (* caught: nothing flashes *)
          | QueryNull =>
              {| scrolledTo := None;
                 flashed := map nid (filter (isFlashTarget (firstSelectors violation)) (body s)) |}
          | QueryElement firstElement =>
              {| scrolledTo := Some firstElement;
                 flashed := map nid (filter (isFlashTarget (firstSelectors violation)) (body s)) |}
          end
      end
  end.

(** The position [showTooltip] and the [mousemove] handler give the
    tooltip: 15 pixels right of and below the cursor, or on the other side
    of the cursor when that would cross the right or the bottom edge. *)
Definition placeTooltip (x y width height innerWidth innerHeight : R) : R * R :=
  let left := x + 15 in
  let top := y + 15 in
  let left := if Rgt_dec (left + width) innerWidth then x - width - 15 else left in
  let top := if Rgt_dec (top + height) innerHeight then y - height - 15 else top in
  (left, top).

(** One debounced handler: the deadline of the pending timer, if any, and
    the number of calls of [updateHighlightPositions] so far.  Times are in
    milliseconds. *)
Record Debounced : Type := {
  pendingUntil : option nat;
  recomputes : nat
}.

Definition idle : Debounced := {| pendingUntil := None; recomputes := 0 |}.

(** The event loop reaches time [t]: a timer that is due runs. *)
Definition elapse (t : nat) (d : Debounced) : Debounced :=
  match pendingUntil d with
  | Some deadline =>
      if (deadline <=? t)%nat
      then {| pendingUntil := None; recomputes := S (recomputes d) |}
      else d
  | None => d
  end.

(** [clearTimeout(timeout); timeout = setTimeout(..., delay)] at time [t]. *)
Definition handleEvent (delay t : nat) (d : Debounced) : Debounced :=
  let d := elapse t d in
  {| pendingUntil := Some (t + delay)%nat; recomputes := recomputes d |}.

(** The delay that [handleResize] and [handleScroll] pass to [setTimeout]. *)
Definition handlerDelay (h : Handler) : nat :=
  match h with
  | handleResize => 100
  | handleScroll => 50
  end.

(** A call of the handler at time [t]. *)
Definition callHandler (h : Handler) : nat -> Debounced -> Debounced :=
  handleEvent (handlerDelay h).

(** The handler called at the given times, in order, then the loop idle
    until [t]. *)
Definition afterEvents (handler : nat -> Debounced -> Debounced) (times : list nat) (t : nat)
  : Debounced :=
  elapse t (fold_left (fun d at_ => handler at_ d) times idle).

(** *** More observations of the document *)

(** The findings and instances of the info icons, in document order. *)
Definition iconsOf (b : list DomNode) : list (Violation * AxeNode) :=
  flat_map (fun n => match kind n with
                     | InfoIcon v nd => [(v, nd)]
                     | _ => []
                     end) b.

Definition tagEqb (a b : Tag) : bool :=
  match a, b with
  | TagHighlight, TagHighlight | TagIcon, TagIcon
  | TagTooltip, TagTooltip | TagPanel, TagPanel => true
  | _, _ => false
  end.

(** The number of nodes of one kind in the document. *)
Definition countTag (t : Tag) (s : State) : nat :=
  List.length (filter (fun it => tagEqb (snd it) t) (shapes s)).

(** Is the side panel of the document collapsed? *)
Definition panelCollapsed (s : State) : option bool :=
  match findPanel (body s) with
  | Some n => match kind n with
              | SidePanel c _ _ => Some c
              | _ => None
              end
  | None => None
  end.

(** *** Properties of states used as invariants *)

(** No two nodes of the document share an identity. *)
Definition uniqueIds (s : State) : Prop := NoDup (map fst (shapes s)).

(** The finding and the instance of a highlight entry. *)
Definition entryInstance (h : HighlightEntry) : Violation * AxeNode :=
  (snd (fst h), snd h).

(** The info icons are those of the highlights, in the same order. *)
Definition paired (b : list DomNode) : Prop := iconsOf b = map entryInstance (entriesOf b).

(** A change of contents that leaves highlights and icons alone. *)
Definition keepsOverlay (f : NodeKind -> NodeKind) : Prop :=
  (forall k, tagOf (f k) = tagOf k)
  /\ (forall e v nd, f (Highlight e v nd) = Highlight e v nd)
  /\ (forall v nd, f (InfoIcon v nd) = InfoIcon v nd).

(** A highlight entry that stands for an instance of its finding: the
    instance is one of the finding's [nodes], it has a first selector, and
    the impact of the finding has a colour. *)
Definition fromInstance (h : HighlightEntry) : Prop :=
  exists ns selector rest,
    nodes (snd (fst h)) = Some ns
    /\ In (snd h) ns
    /\ target (snd h) = Some (selector :: rest)
    /\ hasSeverityColor (impact (snd (fst h))) = true.

(** Event times in order, each less than [delay] after the one before. *)
Fixpoint gapsBelow (delay : nat) (times : list nat) : Prop :=
  match times with
  | a :: rest =>
      match rest with
      | b :: _ => (a <= b)%nat /\ (b < a + delay)%nat
      | [] => True
      end /\ gapsBelow delay rest
  | [] => True
  end.

End Overlay.

(* ================================================================== *)
(** ** The specification's wording of the score and of the correlator *)

Module Spec.

(** The severities of the data model: the integers 2 to 5. *)
Definition validSeverity (s : R) : Prop := s = 2 \/ s = 3 \/ s = 4 \/ s = 5.

(** An enriched finding as section 4.1 reads it, and the formulas of that
    section in exact arithmetic. *)
Record Finding : Type := {
  f_severity : R;
  f_instanceCount : R;
  f_confidence : R
}.

Definition clamp (x lo hi : R) : R := Rmin (Rmax x lo) hi.

Definition severityWeight (s : R) : R :=
  if Req_dec_T s 2 then 2
  else if Req_dec_T s 3 then 5
  else if Req_dec_T s 4 then 10
  else if Req_dec_T s 5 then 18
  else 5.

Definition instanceMultiplier (n : R) : R := 1 + Math_log2 (clamp n 1 20) / 3.

Definition confidenceMultiplier (c : R) : R := 0.6 + 0.4 * c.

Definition penalty (f : Finding) : R :=
  severityWeight (f_severity f) * instanceMultiplier (f_instanceCount f)
  * confidenceMultiplier (f_confidence f).

Fixpoint sum (xs : list R) : R :=
  match xs with
  | [] => 0
  | x :: xs' => x + sum xs'
  end.

Definition totalPenalty (fs : list Finding) : R := sum (map penalty fs).

Definition score (fs : list Finding) : Z :=
  Math_round (clamp (100 * exp (- totalPenalty fs / 65)) 0 100).

(** Section 4.2, the SeverityModel fallback: the severity of an impact
    category, that of moderate for an unknown one. *)
Definition impactSeverity (i : string) : R :=
  if (i =? "critical")%string then 5
  else if (i =? "serious")%string then 4
  else if (i =? "moderate")%string then 3
  else if (i =? "minor")%string then 2
  else 3.






(** Section 4.3: try the selectors in order, the first that finds an
    element wins. *)
Fixpoint firstMatch (page : Overlay.Page) (selectors : list string) : option nat :=
  match selectors with
  | [] => None
  | sel :: rest =>
      match page sel with
      | Overlay.QueryElement e => Some e
      | _ => firstMatch page rest
      end
  end.

Definition resolveInstance (page : Overlay.Page) (node : AxeNode) : option nat :=
  match target node with
  | Some selectors => firstMatch page selectors
  | None => None
  end.

End Spec.

(* ================================================================== *)
(** ** The score in double precision

    A JavaScript number is an IEEE 754 binary64 number, and the score is the
    one place where the program computes with fractions.  This module models
    that computation on binary64: the arithmetic operators are those of
    [PrimFloat]; [Math.max], [Math.min] and [Math.round] follow ECMA-262;
    [Math.exp] and [Math.log2] are the functions of V8, the engine that runs
    the extension ([src/base/ieee754.cc], after fdlibm), operation by
    operation. *)

Module Double.
Import PrimFloat FloatOps SpecFloat.
Local Open Scope float_scope.

(** *** Words of a number *)

(** The 64 bits of [x], as an unsigned integer. *)
Definition bits (x : float) : Z :=
  match Prim2SF x with
  | S754_zero s => if s then 2 ^ 63 else 0
  | S754_infinity s => (if s then 2 ^ 63 else 0) + 0x7ff0000000000000
  | S754_nan => 0x7ff8000000000000
  | S754_finite s m e =>
      (if s then 2 ^ 63 else 0)
      + (if Zpos m <? 2 ^ 52 then Zpos m
         else (e + 1075) * 2 ^ 52 + (Zpos m - 2 ^ 52))
  end%Z.

Definition ofBits (b : Z) : float :=
  let s := Z.testbit b 63 in
  let ex := ((b / 2 ^ 52) mod 2 ^ 11)%Z in
  let frac := (b mod 2 ^ 52)%Z in
  SF2Prim
    (if (ex =? 2047)%Z then
       if (frac =? 0)%Z then S754_infinity s else S754_nan
     else if (ex =? 0)%Z then
       if (frac =? 0)%Z then S754_zero s
       else S754_finite s (Z.to_pos frac) (-1074)
     else S754_finite s (Z.to_pos (frac + 2 ^ 52)) (ex - 1075)).

(** [GET_HIGH_WORD] and [GET_LOW_WORD]: unsigned 32-bit words. *)
Definition highWord (x : float) : Z := (bits x / 2 ^ 32)%Z.
Definition lowWord (x : float) : Z := (bits x mod 2 ^ 32)%Z.

(** [INSERT_WORDS] *)
Definition insertWords (hi lo : Z) : float :=
  ofBits ((hi mod 2 ^ 32) * 2 ^ 32 + lo mod 2 ^ 32)%Z.

(** A 32-bit word read as an [int32_t]. *)
Definition int32 (w : Z) : Z :=
  let u := (w mod 2 ^ 32)%Z in
  if (u <? 2 ^ 31)%Z then u else (u - 2 ^ 32)%Z.

(** [static_cast<int>(x)]: the integer part of [x]. *)
Definition truncate (x : float) : Z :=
  match Prim2SF x with
  | S754_finite s m e =>
      let a := if (0 <=? e)%Z then (Zpos m * 2 ^ e)%Z else (Zpos m / 2 ^ (- e))%Z in
      if s then (- a)%Z else a
  | _ => 0%Z
  end.

(** [static_cast<double>(k)] for an integer below 2^53 in absolute value. *)
Definition ofInt (k : Z) : float :=
  if (k <? 0)%Z then - of_uint63 (Uint63.of_Z (- k)) else of_uint63 (Uint63.of_Z k).

Definition ofNat (n : nat) : float := ofInt (Z.of_nat n).

(** *** ECMA-262 library functions *)

(** [Math.max(a, b)]: [NaN] if either is; of [+0] and [-0], [+0]. *)
Definition Math_max (a b : float) : float :=
  if is_nan a || is_nan b then nan
  else if a <? b then b
  else if b <? a then a
  else if is_zero a && get_sign a then b
  else a.

(** [Math.min(a, b)]: [NaN] if either is; of [+0] and [-0], [-0]. *)
Definition Math_min (a b : float) : float :=
  if is_nan a || is_nan b then nan
  else if a <? b then a
  else if b <? a then b
  else if is_zero a && get_sign a then a
  else b.

(** [Math.round(x)]: the integer nearest to [x], ties towards +infinity;
    [-0] for [x] in [[-0.5, 0)]; [x] itself when it is not finite. *)
Definition Math_round (x : float) : float :=
  match Prim2SF x with
  | S754_finite s m e =>
      if (0 <=? e)%Z then x
      else
        let d := (2 ^ (- e))%Z in
        let n := ((2 * (if s then - Zpos m else Zpos m) + d) / (2 * d))%Z in
        if (n =? 0)%Z then (if s then - 0 else 0) else ofInt n
  | _ => x
  end.

(** *** [Math.exp], as in V8's [ieee754::exp] *)

Definition halF (xsb : Z) : float := if (xsb =? 0)%Z then 0.5 else -0.5.
Definition o_threshold : float := insertWords 0x40862E42 0xFEFA39EF.
Definition u_threshold : float := insertWords 0xc0874910 0xD52D3051.
Definition ln2HI (xsb : Z) : float :=
  if (xsb =? 0)%Z then insertWords 0x3fe62e42 0xfee00000
  else insertWords 0xbfe62e42 0xfee00000.
Definition ln2LO (xsb : Z) : float :=
  if (xsb =? 0)%Z then insertWords 0x3dea39ef 0x35793c76
  else insertWords 0xbdea39ef 0x35793c76.
Definition invln2 : float := insertWords 0x3ff71547 0x652b82fe.
Definition P1 : float := insertWords 0x3FC55555 0x5555553E.
Definition P2 : float := insertWords 0xBF66C16C 0x16BEBD93.
Definition P3 : float := insertWords 0x3F11566A 0xAF25DE2C.
Definition P4 : float := insertWords 0xBEBBBD41 0xC5D26BF1.
Definition P5 : float := insertWords 0x3E663769 0x72BEA4D0.
Definition E : float := insertWords 0x4005bf0a 0x8b145769.
Definition huge : float := 1.0e+300.
Definition twom1000 : float := insertWords 0x01700000 0.
Definition two1023 : float := insertWords 0x7fe00000 0.

(** From "x is now in primary range" on: [x] is the reduced argument,
    [hi - lo] its two parts, [k] the power of two taken out. *)
Definition exp_primary (x hi lo : float) (k : Z) : float :=
  let t := x * x in
  let twopk :=
    if (-1021 <=? k)%Z then insertWords (0x3ff00000 + k * 2 ^ 20) 0
    else insertWords (0x3ff00000 + (k + 1000) * 2 ^ 20) 0 in
  let c := x - t * (P1 + t * (P2 + t * (P3 + t * (P4 + t * P5)))) in
  if (k =? 0)%Z then 1 - ((x * c) / (c - 2) - x)
  else
    let y := 1 - ((lo - (x * c) / (2 - c)) - hi) in
    if (-1021 <=? k)%Z then
      if (k =? 1024)%Z then (y * 2) * two1023 else y * twopk
    else (y * twopk) * twom1000.

Definition Math_exp (x : float) : float :=
  let xsb := (highWord x / 2 ^ 31)%Z in       (* sign bit of x *)
  let hx := (highWord x mod 2 ^ 31)%Z in      (* high word of |x| *)
  if (0x7ff00000 <=? hx)%Z then
    if negb (Z.lor (hx mod 2 ^ 20) (lowWord x) =? 0)%Z then x + x
    else if (xsb =? 0)%Z then x else 0
  else if (0x40862E42 <=? hx)%Z && (o_threshold <? x) then huge * huge
  else if (0x40862E42 <=? hx)%Z && (x <? u_threshold) then twom1000 * twom1000
  else if (0x3fd62e42 <? hx)%Z then
    if (hx <? 0x3FF0A2B2)%Z then
      if x =? 1 then E
      else
        let hi := x - ln2HI xsb in
        let lo := ln2LO xsb in
        exp_primary (hi - lo) hi lo (1 - xsb - xsb)
    else
      let k := truncate (invln2 * x + halF xsb) in
      let t := ofInt k in
      let hi := x - t * ln2HI 0 in
      let lo := t * ln2LO 0 in
      exp_primary (hi - lo) hi lo k
  else if (hx <? 0x3e300000)%Z then 1 + x   (* [huge + x > one] holds *)
  else exp_primary x 0 0 0.

(** *** [Math.log2], as in V8's [ieee754::log2] *)

Definition Lg1 : float := insertWords 0x3FE55555 0x55555593.
Definition Lg2 : float := insertWords 0x3FD99999 0x9997FA04.
Definition Lg3 : float := insertWords 0x3FD24924 0x94229359.
Definition Lg4 : float := insertWords 0x3FCC71C5 0x1D8E78AF.
Definition Lg5 : float := insertWords 0x3FC74664 0x96CB03DE.
Definition Lg6 : float := insertWords 0x3FC39A09 0xD078C69F.
Definition Lg7 : float := insertWords 0x3FC2F112 0xDF3E5244.
Definition two54 : float := insertWords 0x43500000 0.
Definition ivln2hi : float := insertWords 0x3ff71547 0x65200000.
Definition ivln2lo : float := insertWords 0x3de705fc 0x2eefa200.

Definition k_log1p (f : float) : float :=
  let s := f / (2 + f) in
  let z := s * s in
  let w := z * z in
  let t1 := w * (Lg2 + w * (Lg4 + w * Lg6)) in
  let t2 := z * (Lg1 + w * (Lg3 + w * (Lg5 + w * Lg7))) in
  let R := t2 + t1 in
  let hfsq := (0.5 * f) * f in
  s * (hfsq + R).

(** From [k += (hx >> 20) - 1023] on: [x] is positive and normal, [hx] its
    high word, [k] the power of two already taken out. *)
Definition log2_normal (x : float) (hx k : Z) : float :=
  let k := (k + (hx / 2 ^ 20 - 1023))%Z in
  let hx := Z.land hx 0x000fffff in
  let i := Z.land (hx + 0x95f64) 0x100000 in
  let x := insertWords (Z.lor hx (Z.lxor i 0x3ff00000)) (lowWord x) in
  let k := (k + i / 2 ^ 20)%Z in
  let y := ofInt k in
  let f := x - 1 in
  let hfsq := (0.5 * f) * f in
  let r := k_log1p f in
  let hi := f - hfsq in
  let hi := insertWords (highWord hi) 0 in
  let lo := ((f - hi) - hfsq) + r in
  let val_hi := hi * ivln2hi in
  let val_lo := (lo + hi) * ivln2lo + lo * ivln2hi in
  let w := y + val_hi in
  let val_lo := val_lo + ((y - w) + val_hi) in
  let val_hi := w in
  val_lo + val_hi.

Definition Math_log2 (x : float) : float :=
  let hx := int32 (highWord x) in
  let lx := lowWord x in
  if (hx <? 0x00100000)%Z then
    if (Z.lor (Z.land hx 0x7fffffff) lx =? 0)%Z then (- two54) / 0
    else if (hx <? 0)%Z then (x - x) / 0
    else
      let x := x * two54 in
      log2_normal x (int32 (highWord x)) (-54)
  else if (0x7ff00000 <=? hx)%Z then x + x
  else if (hx =? 0x3ff00000)%Z && (lx =? 0)%Z then 0
  else log2_normal x hx 0.

(** *** The score of [popup.js] *)

(** The values the score reads from a finding: a number, or something
    that is none. *)
Inductive Value : Type :=
| Undefined
| Null
| Num (x : float)
| Other.   (* a boolean, a string, an object or a function *)

(** [a ?? b] *)
Definition nullish (a b : Value) : Value :=
  match a with
  | Undefined | Null => b
  | _ => a
  end.

Record Prediction : Type := {
  predicted_score : Value;
  score : Value;
  prediction_probability : Value;
  confidence : Value
}.

Record MLAnalysis : Type := {
  prediction : option Prediction
}.

Record Violation : Type := {
  impact : string;
  nodes : option (list AxeNode);
  mlAnalysis : option MLAnalysis
}.

(** [map[impact] || 3]: for the name of an inherited property the lookup
    finds the inherited function, which is truthy. *)
Definition mapImpactToScore (i : string) : Value :=
  if (i =? "critical")%string then Num 5
  else if (i =? "serious")%string then Num 4
  else if (i =? "moderate")%string then Num 3
  else if (i =? "minor")%string then Num 2
  else if inherited i then Other
  else Num 3.

(** [v.mlAnalysis?.prediction?.f] *)
Definition predictionField (f : Prediction -> Value) (v : Violation) : Value :=
  match mlAnalysis v with
  | Some a => match prediction a with
              | Some p => f p
              | None => Undefined
              end
  | None => Undefined
  end.

Definition getPredictedSeverityScore (v : Violation) : Value :=
  let mlScore := nullish (predictionField predicted_score v) (predictionField score v) in
  match mlScore with
  | Num x => Num x
  | _ => mapImpactToScore (impact v)
  end.

Definition getPredictionConfidence (v : Violation) : float :=
  let conf := nullish (predictionField prediction_probability v)
                      (predictionField confidence v) in
  match conf with
  | Num c => Math_max 0 (Math_min 1 c)
  | _ => 0.75
  end.

(** [map[score2to5] ?? 5] with [map = { 2: 2, 3: 5, 4: 10, 5: 18 }]: the
    key is the argument printed, which is a key of the table for the
    numbers 2, 3, 4 and 5 only; the argument is a number or the function
    that [mapImpactToScore] found. *)
Definition severityWeight (score2to5 : Value) : float :=
  match score2to5 with
  | Num x =>
      if x =? 2 then 2
      else if x =? 3 then 5
      else if x =? 4 then 10
      else if x =? 5 then 18
      else 5
  | _ => 5
  end.

(** The argument is the length of an array or 1: an integer, on which
    [||], [Math.max] and [Math.min] are exact. *)
Definition instanceMultiplier (n : nat) : float :=
  let capped := Nat.min (Nat.max (if (n =? 0)%nat then 1 else n) 1) 20 in
  1 + (Math_log2 (ofNat capped) / 3).

Definition confidenceMultiplier (c : float) : float := 0.6 + 0.4 * c.

(** [v.nodes?.length || 1] *)
Definition nodeCountOr1 (v : Violation) : nat :=
  match nodes v with
  | Some l => if (List.length l =? 0)%nat then 1 else List.length l
  | None => 1
  end.

Definition penalty (v : Violation) : float :=
  let s := getPredictedSeverityScore v in
  let c := getPredictionConfidence v in
  let n := nodeCountOr1 v in
  severityWeight s * instanceMultiplier n * confidenceMultiplier c.

Definition totalPenalty (enhancedViolations : list Violation) : float :=
  fold_left (fun acc v => acc + penalty v) enhancedViolations 0.

Definition computeAccessibilityScore0to100 (enhancedViolations : list Violation) : float :=
  let score := 100 * Math_exp ((- totalPenalty enhancedViolations) / 65) in
  Math_round (Math_max 0 (Math_min 100 score)).

(** The real number that a finite [x] is. *)
Definition toR (x : float) : R :=
  match Prim2SF x with
  | S754_finite s m e =>
      let a := if s then IZR (Zneg m) else IZR (Zpos m) in
      if (0 <=? e)%Z then (a * IZR (2 ^ e))%R else (a / IZR (2 ^ (- e)))%R
  | _ => 0%R
  end.

End Double.

(* ================================================================== *)
(** ** Section 4.1 of the specification in double precision

    The formulas of the specification, each operation rounded to binary64
    and the penalties added in the order of the list. *)

Module DoubleSpec.
Import PrimFloat.
Local Open Scope float_scope.

Record Finding : Type := {
  impact : string;                (* the coarse impact category *)
  severity : option float;        (* the predicted severity, when there is one *)
  instanceCount : nat;
  confidence : option float       (* the confidence, when there is one *)
}.

Definition clamp (x lo hi : float) : float := Double.Math_max lo (Double.Math_min hi x).

Definition clampCount (n lo hi : nat) : nat := Nat.max lo (Nat.min hi n).

(** The documented defaults: the severity of the impact category, and the
    confidence 0.75. *)
Definition impactSeverity (i : string) : option float :=
  if (i =? "critical")%string then Some 5
  else if (i =? "serious")%string then Some 4
  else if (i =? "moderate")%string then Some 3
  else if (i =? "minor")%string then Some 2
  else None.

Definition severityOf (f : Finding) : option float :=
  match severity f with
  | Some s => Some s
  | None => impactSeverity (impact f)
  end.

Definition confidenceOf (f : Finding) : float :=
  match confidence f with
  | Some c => c
  | None => 0.75
  end.

(** The fixed lookup; an unknown severity has the moderate weight. *)
Definition severityWeight (s : option float) : float :=
  match s with
  | Some x =>
      if x =? 2 then 2
      else if x =? 3 then 5
      else if x =? 4 then 10
      else if x =? 5 then 18
      else 5
  | None => 5
  end.

Definition instanceMultiplier (n : nat) : float :=
  1 + Double.Math_log2 (Double.ofNat (clampCount n 1 20)) / 3.

Definition confidenceMultiplier (c : float) : float := 0.6 + 0.4 * clamp c 0 1.

Definition penalty (f : Finding) : float :=
  severityWeight (severityOf f) * instanceMultiplier (instanceCount f)
  * confidenceMultiplier (confidenceOf f).

Definition totalPenalty (fs : list Finding) : float :=
  fold_left add (map penalty fs) 0.

Definition score (fs : list Finding) : float :=
  Double.Math_round (clamp (100 * Double.Math_exp (- totalPenalty fs / 65)) 0 100).

(** How section 3 reads a finding of the popup: the predicted severity is
    the field [predicted_score] of its prediction or else [score], the
    confidence [prediction_probability] or else [confidence], each when it
    is a number; the instances are its nodes. *)
Definition number (x : Double.Value) : option float :=
  match x with
  | Double.Num n => Some n
  | _ => None
  end.

Definition field (f : Double.Prediction -> Double.Value) (v : Double.Violation)
  : Double.Value :=
  match Double.mlAnalysis v with
  | Some {| Double.prediction := Some p |} => f p
  | _ => Double.Undefined
  end.

Definition firstPresent (a b : Double.Value) : Double.Value :=
  match a with
  | Double.Undefined | Double.Null => b
  | _ => a
  end.

Definition findingOf (v : Double.Violation) : Finding :=
  {| impact := Double.impact v;
     severity := number (firstPresent (field Double.predicted_score v)
                                      (field Double.score v));
     instanceCount := match Double.nodes v with
                      | Some l => List.length l
                      | None => 0%nat
                      end;
     confidence := number (firstPresent (field Double.prediction_probability v)
                                        (field Double.confidence v)) |}.

End DoubleSpec.

(* ================================================================== *)
(** ** Concrete inputs used in examples *)

Module Samples.

Definition oneNode : AxeNode :=
  {| target := Some ["#main"%string]; html := "<main>" |}.

(** A finding as [enhanceWithML] leaves it: [n] instances, and a prediction
    with severity [s] and confidence [c]. *)
Definition finding (i : string) (s c : R) (n : nat) : Violation :=
  {| id := "rule";
     impact := i;
     help := "help";
     description := "description";
     nodes := Some (repeat oneNode n);
     mlAnalysis :=
       Some {| prediction :=
                 Some {| predicted_score := JUndefined;
                         p_score := JNum s;
                         prediction_probability := JUndefined;
                         p_confidence := JNum c;
                         probabilities := JObj;
                         originalImpact := i |};
               explanation := None;
               severity := None;
               shap := None |} |}.

(** The three findings of the end-to-end example of the specification. *)
Definition specExample : list Violation :=
  [finding "critical" 5 0.9 1; finding "moderate" 3 0.8 5; finding "minor" 2 0.5 1].

(** A critical finding without nodes and without analysis. *)
Definition bareCritical : Violation :=
  {| id := "image-alt";
     impact := "critical";
     help := "Images must have alternate text";
     description := "Ensures images have alternate text";
     nodes := None;
     mlAnalysis := None |}.

(** The same finding as the popup enriches it when the probe fails. *)
Definition fallbackCritical : Violation :=
  Popup.withMlAnalysis bareCritical (Popup.getStaticMLAnalysis bareCritical).

(** A page on which [#gone] finds nothing and [#main] finds element 1. *)
Definition samplePage : Overlay.Page :=
  fun selector =>
    if (selector =? "#main")%string then Overlay.QueryElement 1 else Overlay.QueryNull.

(** An instance whose first selector is stale and whose second is live. *)
Definition twoSelectors : AxeNode :=
  {| target := Some ["#gone"%string; "#main"%string]; html := "<main>" |}.

Definition staleFirst : Violation :=
  {| id := "color-contrast";
     impact := "serious";
     help := "Elements must meet minimum color contrast ratio thresholds";
     description := "Ensures the contrast between foreground and background colors";
     nodes := Some [twoSelectors];
     mlAnalysis := None |}.

(** A finding with one instance that the page resolves. *)
Definition liveFinding : Violation :=
  {| id := "link-name";
     impact := "moderate";
     help := "Links must have discernible text";
     description := "Ensures links have discernible text";
     nodes := Some [oneNode];
     mlAnalysis := None |}.

(** The calls for a finding whose prediction request is refused. *)
Definition failedCall : Api.CallOutcomes :=
  {| Api.predictResponse := Api.Rejected;
     Api.llmResponse := Api.Rejected;
     Api.severityResponse := Api.Rejected |}.

(** The calls for a finding whose prediction request is answered. *)
Definition answeredCall : Api.CallOutcomes :=
  {| Api.predictResponse :=
       Api.Json
         {| Api.d_prediction :=
              Some {| Api.d_predicted_score := JNum 4;
                      Api.d_prediction_probability := JNum 0.9;
                      Api.all_probabilities := JObj |};
            Api.d_explanation :=
              Some {| Api.shap_values := JObj;
                      Api.top_features :=
                        Some [{| feature := "contrast_ratio"; shap_value := 0.4 |}];
                      Api.base_value := JNum 3 |} |};
     Api.llmResponse := Api.NotOk;
     Api.severityResponse := Api.Malformed |}.

(** A run in which the request of the first finding fails, the second
    request finishes before the first, and the clock reads [ts]. *)
Definition sampleWorld (probeOk : bool) (ts : string) : Popup.World :=
  {| Popup.mlHealth := if probeOk then Api.HealthResponse true else Api.HealthRejected;
     Popup.llmHealth := Api.HealthRejected;
     Popup.calls := fun i => if (i =? 0)%nat then failedCall else answeredCall;
     Popup.completion := [1%nat; 0%nat];
     Popup.now := ts |}.

Definition sampleScan : Popup.AxeResults :=
  {| Popup.ar_violations := Some [bareCritical; staleFirst];
     Popup.ar_url := "https://example.org/" |}.

(** A popup that has not run a test and has nothing stored. *)
Definition idlePopup : PopupUI.PopupState :=
  {| PopupUI.currentResults := None;
     PopupUI.currentTabId := None;
     PopupUI.controlsHidden := false;
     PopupUI.resultsHidden := true;
     PopupUI.statusHidden := true;
     PopupUI.errorHidden := true;
     PopupUI.statusText := EmptyString;
     PopupUI.errorMessage := EmptyString;
     PopupUI.displayed := None;
     PopupUI.storage := PopupUI.emptyStorage |}.

(** A browser in which tab 7 shows the scanned page and every step of the
    run succeeds. *)
Definition sampleBrowser : PopupUI.Browser :=
  {| PopupUI.tabQuery := PopupUI.ActiveTab 7 (Some "https://example.org/"%string);
     PopupUI.injection := PopupUI.Injected;
     PopupUI.scriptResult :=
       PopupUI.FrameResult
         (Some (PopupUI.runAxeTest (Some (PopupUI.AxeResolves sampleScan))));
     PopupUI.world := sampleWorld true "2024-05-01T10:00:00.000Z" |}.

(** A run in which the prediction service answers the probe and refuses
    every request. *)
Definition unansweredWorld : Popup.World :=
  {| Popup.mlHealth := Api.HealthResponse true;
     Popup.llmHealth := Api.HealthRejected;
     Popup.calls := fun _ => failedCall;
     Popup.completion := [0%nat; 1%nat];
     Popup.now := "2024-05-01T10:00:00.000Z" |}.

(** The run of [sampleWorld] with the two language-model services
    answering as well. *)
Definition talkativeWorld (ts : string) : Popup.World :=
  {| Popup.mlHealth := Api.HealthResponse true;
     Popup.llmHealth := Api.HealthResponse true;
     Popup.calls := fun i =>
       {| Api.predictResponse := Api.predictResponse (Popup.calls (sampleWorld true ts) i);
          Api.llmResponse :=
            Api.Json {| Api.d_1_whats_wrong := JStr "The image has no text alternative";
                        Api.d_2_who_this_affects := JStr "Screen reader users";
                        Api.d_3_why_it_matters := JStr "The content of the image is lost";
                        Api.d_4_what_to_fix := JStr "The img element";
                        Api.d_5_how_to_fix := JStr "Add an alt attribute" |};
          Api.severityResponse :=
            Api.Json {| Api.severity_explanation := JStr "High because of low contrast";
                        Api.key_factors := JObj;
                        Api.confidence_note := JStr "Confident" |} |};
     Popup.completion := [0%nat; 1%nat];
     Popup.now := ts |}.

(** A finding whose description mentions a button. *)
Definition buttonFinding : Violation :=
  {| id := "button-name";
     impact := "serious";
     help := "Buttons must have discernible text";
     description := "Ensures buttons have discernible text";
     nodes := Some [oneNode];
     mlAnalysis := None |}.

(** A finding whose impact is none of the four levels but the name of a
    property that every object inherits. *)
Definition inheritedImpact : Violation :=
  {| id := "custom-rule";
     impact := "constructor";
     help := "help";
     description := "A form without labels";
     nodes := Some [oneNode];
     mlAnalysis := None |}.

(** A finding whose impact is neither a level nor an inherited name. *)
Definition unratedFinding : Violation :=
  {| id := "custom-rule";
     impact := "unrated";
     help := "help";
     description := "A form without labels";
     nodes := Some [oneNode];
     mlAnalysis := None |}.

(** The same browser, with a page on which [axe] is not defined. *)
Definition browserWithoutAxe : PopupUI.Browser :=
  {| PopupUI.tabQuery := PopupUI.ActiveTab 7 (Some "https://example.org/"%string);
     PopupUI.injection := PopupUI.Injected;
     PopupUI.scriptResult := PopupUI.FrameResult (Some (PopupUI.runAxeTest None));
     PopupUI.world := sampleWorld true "2024-05-01T10:00:00.000Z" |}.

End Samples.

(** Concrete inputs of the score in double precision. *)

Module DoubleSamples.
Import PrimFloat.
Local Open Scope float_scope.

(** A finding of impact [i] with [n] instances, and a prediction with
    severity [s] and confidence [c]. *)
Definition finding (i : string) (s c : float) (n : nat) : Double.Violation :=
  {| Double.impact := i;
     Double.nodes := Some (repeat Samples.oneNode n);
     Double.mlAnalysis :=
       Some {| Double.prediction :=
                 Some {| Double.predicted_score := Double.Undefined;
                         Double.score := Double.Num s;
                         Double.prediction_probability := Double.Undefined;
                         Double.confidence := Double.Num c |} |} |}.

(** The three findings of the end-to-end example of the specification. *)
Definition specExample : list Double.Violation :=
  [finding "critical" 5 0.9 1; finding "moderate" 3 0.8 5; finding "minor" 2 0.5 1].

(** The same findings as axe reports them, without analysis. *)
Definition bare (i : string) (n : nat) : Double.Violation :=
  {| Double.impact := i;
     Double.nodes := Some (repeat Samples.oneNode n);
     Double.mlAnalysis := None |}.

(** A finding that axe calls minor and the prediction critical. *)
Definition upgraded : Double.Violation := finding "minor" 5 0.9 1.

(** A finding whose score, before rounding, is 97.5 in double precision
    and below 97.5 in exact arithmetic. *)
Definition tieConfidence : float := 0.5570718987235588.
Definition tie : Double.Violation := finding "minor" 2 tieConfidence 1.

(** The same finding with its numbers read as the real numbers they are. *)
Definition tieExact : Spec.Finding :=
  {| Spec.f_severity := 2;
     Spec.f_instanceCount := 1;
     Spec.f_confidence := Double.toR tieConfidence |}.

End DoubleSamples.

(* ================================================================== *)
(** * Facts about real numbers used by the score *)

Section RealFacts.

Lemma exp_INR_mult (n : nat) (x : R) : exp (INR n * x) = exp x ^ n.
Proof.
  induction n as [|n IH].
  - simpl. rewrite Rmult_0_l. apply exp_0.
  - rewrite S_INR, Rmult_plus_distr_r, Rmult_1_l, exp_plus, IH. simpl. ring.
Qed.

(** [(1 + x/n)^n <= exp x] *)
Lemma exp_lower_pow (n : nat) (x : R) :
  (0 < n)%nat -> 0 <= 1 + x / INR n -> (1 + x / INR n) ^ n <= exp x.
Proof.
  intros Hn Hx.
  assert (Hn' : INR n <> 0) by (apply not_0_INR; lia).
  replace (exp x) with (exp (x / INR n) ^ n).
  - apply pow_incr. split; [exact Hx | apply exp_ineq1_le].
  - rewrite <- exp_INR_mult. f_equal. field. exact Hn'.
Qed.

(** [exp x <= (1 / (1 - x/n))^n] *)
Lemma exp_upper_pow (n : nat) (x : R) :
  (0 < n)%nat -> x / INR n < 1 -> exp x <= (/ (1 - x / INR n)) ^ n.
Proof.
  intros Hn Hx.
  assert (Hn' : INR n <> 0) by (apply not_0_INR; lia).
  replace (exp x) with (exp (x / INR n) ^ n).
  - apply pow_incr. split; [left; apply exp_pos |].
    replace (x / INR n) with (- - (x / INR n)) at 1 by ring.
    rewrite exp_Ropp.
    apply Rinv_le_contravar; [lra |].
    pose proof (exp_ineq1_le (- (x / INR n))). lra.
  - rewrite <- exp_INR_mult. f_equal. field. exact Hn'.
Qed.

Lemma exp_le (x y : R) : x <= y -> exp x <= exp y.
Proof.
  intros [H | ->]; [left; apply exp_increasing; exact H | right; reflexivity].
Qed.

Lemma ln_le (x y : R) : 0 < x -> x <= y -> ln x <= ln y.
Proof.
  intros Hx [H | ->]; [left; apply ln_increasing; assumption | right; reflexivity].
Qed.

Lemma ln_2_pos : 0 < ln 2.
Proof. pose proof ln_lt_2. lra. Qed.

(** [a^p <= x^q] gives [p/q * log2 a <= log2 x], here with [a = 2]. *)
Lemma log2_lower (x : R) (p q : nat) :
  0 < x -> (0 < q)%nat -> 2 ^ p <= x ^ q -> INR p / INR q <= Math_log2 x.
Proof.
  intros Hx Hq H.
  assert (Hq' : 0 < INR q) by (apply lt_0_INR; exact Hq).
  assert (H2 : 0 < 2 ^ p) by (apply pow_lt; lra).
  apply ln_le in H; [| exact H2].
  rewrite !ln_pow in H by lra.
  pose proof ln_2_pos as L2. unfold Math_log2.
  apply Rmult_le_reg_r with (INR q * ln 2); [apply Rmult_lt_0_compat; assumption |].
  field_simplify; [| lra | lra]. lra.
Qed.

Lemma log2_upper (x : R) (p q : nat) :
  0 < x -> (0 < q)%nat -> x ^ q <= 2 ^ p -> Math_log2 x <= INR p / INR q.
Proof.
  intros Hx Hq H.
  assert (Hq' : 0 < INR q) by (apply lt_0_INR; exact Hq).
  assert (Hxq : 0 < x ^ q) by (apply pow_lt; exact Hx).
  apply ln_le in H; [| exact Hxq].
  rewrite !ln_pow in H by lra.
  pose proof ln_2_pos as L2. unfold Math_log2.
  apply Rmult_le_reg_r with (INR q * ln 2); [apply Rmult_lt_0_compat; assumption |].
  field_simplify; [| lra | lra]. lra.
Qed.

Lemma log2_1 : Math_log2 1 = 0.
Proof. unfold Math_log2. rewrite ln_1. pose proof ln_2_pos. field. lra. Qed.

Lemma log2_le (x y : R) : 0 < x -> x <= y -> Math_log2 x <= Math_log2 y.
Proof.
  intros Hx Hxy. unfold Math_log2.
  pose proof ln_2_pos as L2. pose proof (ln_le x y Hx Hxy).
  apply Rmult_le_compat_r; [left; apply Rinv_0_lt_compat; exact L2 | assumption].
Qed.

Lemma Math_round_eq (z : Z) (x : R) :
  IZR z - / 2 <= x < IZR z + / 2 -> Math_round x = z.
Proof. intros H. unfold Math_round. apply Zfloor_eq. lra. Qed.

Lemma Math_round_le (x y : R) : x <= y -> (Math_round x <= Math_round y)%Z.
Proof. intros H. unfold Math_round. apply Zfloor_le. lra. Qed.

Lemma Math_round_lower (z : Z) (x : R) : IZR z - / 2 <= x -> (z <= Math_round x)%Z.
Proof. intros H. unfold Math_round. apply Zfloor_lub. lra. Qed.

Lemma Math_round_upper (z : Z) (x : R) : x < IZR z + / 2 -> (Math_round x <= z)%Z.
Proof.
  intros H. unfold Math_round.
  pose proof (Zfloor_bound (x + / 2)) as [B _].
  assert (L : IZR (Zfloor (x + / 2)) < IZR (z + 1)) by (rewrite plus_IZR; lra).
  apply lt_IZR in L. lia.
Qed.

Lemma clamp_max_min (x lo hi : R) :
  lo <= hi -> Rmax lo (Rmin hi x) = Spec.clamp x lo hi.
Proof.
  intros H. unfold Spec.clamp, Rmax, Rmin.
  repeat destruct Rle_dec; lra.
Qed.

End RealFacts.

(* ================================================================== *)
(** * The weighted score *)

Module ScoreFacts.
Import Popup.

Lemma severityWeight_bounds (s : JsVal) : 2 <= severityWeight s <= 18.
Proof. unfold severityWeight. destruct s; try lra. table. Qed.

Lemma confidence_bounds (v : Violation) : 0 <= getPredictionConfidence v <= 1.
Proof.
  unfold getPredictionConfidence.
  destruct (nullish _ _); try lra.
  unfold Rmax, Rmin. repeat destruct Rle_dec; lra.
Qed.

Lemma confidenceMultiplier_bounds (c : R) :
  0 <= c <= 1 -> 0.6 <= confidenceMultiplier c <= 1.
Proof. unfold confidenceMultiplier. lra. Qed.

Lemma capped_bounds (n : R) : 1 <= capped n <= 20.
Proof.
  unfold capped, Rmax, Rmin. destruct Req_dec_T; repeat destruct Rle_dec; lra.
Qed.

Lemma capped_mono (n m : R) : n <= m -> capped n <= capped m.
Proof.
  intros H. unfold capped, Rmax, Rmin.
  repeat destruct Req_dec_T; repeat destruct Rle_dec; lra.
Qed.

Lemma capped_clamp (n : R) : capped n = Spec.clamp n 1 20.
Proof.
  unfold capped, Spec.clamp, Rmax, Rmin.
  destruct Req_dec_T; repeat destruct Rle_dec; lra.
Qed.

Lemma instanceMultiplier_capped (n : R) :
  instanceMultiplier n = 1 + Math_log2 (capped n) / 3.
Proof. reflexivity. Qed.

Lemma instanceMultiplier_spec (n : R) : instanceMultiplier n = Spec.instanceMultiplier n.
Proof.
  rewrite instanceMultiplier_capped, capped_clamp. reflexivity.
Qed.

Lemma instanceMultiplier_1 : instanceMultiplier 1 = 1.
Proof.
  rewrite instanceMultiplier_capped.
  replace (capped 1) with 1.
  - rewrite log2_1. lra.
  - unfold capped, Rmax, Rmin. destruct Req_dec_T; repeat destruct Rle_dec; lra.
Qed.

Lemma instanceMultiplier_mono (n m : R) :
  n <= m -> instanceMultiplier n <= instanceMultiplier m.
Proof.
  intros H. rewrite !instanceMultiplier_capped.
  pose proof (capped_bounds n) as [Hn _].
  pose proof (log2_le (capped n) (capped m) ltac:(lra) (capped_mono n m H)).
  lra.
Qed.

Lemma instanceMultiplier_above_20 (n : R) :
  20 < n -> instanceMultiplier n = instanceMultiplier 20.
Proof.
  intros H. rewrite !instanceMultiplier_capped.
  replace (capped n) with (capped 20); [reflexivity |].
  unfold capped, Rmax, Rmin.
  repeat destruct Req_dec_T; repeat destruct Rle_dec; lra.
Qed.

Lemma instanceMultiplier_bounds (n : R) : 1 <= instanceMultiplier n <= 22 / 9.
Proof.
  rewrite instanceMultiplier_capped.
  pose proof (capped_bounds n) as [Hlo Hhi].
  pose proof (log2_le 1 (capped n) ltac:(lra) Hlo) as L1.
  rewrite log2_1 in L1.
  pose proof (log2_le (capped n) 20 ltac:(lra) Hhi) as L2.
  pose proof (log2_upper 20 13 3 ltac:(lra) ltac:(lia) ltac:(simpl; lra)) as L3.
  simpl in L3. lra.
Qed.

Lemma penalty_bounds (v : Violation) : 1.2 <= penalty v <= 44.
Proof.
  unfold penalty.
  pose proof (severityWeight_bounds (getPredictedSeverityScore v)) as [W1 W2].
  pose proof (instanceMultiplier_bounds (nodeCountOr1 v)) as [M1 M2].
  pose proof (confidenceMultiplier_bounds _ (confidence_bounds v)) as [C1 C2].
  set (w := severityWeight _) in *. set (m := instanceMultiplier _) in *.
  set (c := confidenceMultiplier _) in *.
  assert (WM : 2 <= w * m <= 44) by (split; nra).
  split; nra.
Qed.

Lemma fold_penalty_acc (vs : list Violation) (a : R) :
  fold_left (fun acc v => acc + penalty v) vs a = a + Spec.sum (map penalty vs).
Proof.
  revert a. induction vs as [| v vs IH]; intros a; simpl.
  - lra.
  - rewrite IH. lra.
Qed.

Lemma totalPenalty_sum (vs : list Violation) : totalPenalty vs = Spec.sum (map penalty vs).
Proof. unfold totalPenalty. rewrite fold_penalty_acc. lra. Qed.

Lemma sum_app (xs ys : list R) : Spec.sum (xs ++ ys) = Spec.sum xs + Spec.sum ys.
Proof. induction xs as [| x xs IH]; simpl; [lra | rewrite IH; lra]. Qed.

Lemma totalPenalty_nil : totalPenalty [] = 0.
Proof. reflexivity. Qed.

Lemma totalPenalty_cons (v : Violation) (vs : list Violation) :
  totalPenalty (v :: vs) = penalty v + totalPenalty vs.
Proof. rewrite !totalPenalty_sum. reflexivity. Qed.

Lemma totalPenalty_app (l1 l2 : list Violation) :
  totalPenalty (l1 ++ l2) = totalPenalty l1 + totalPenalty l2.
Proof. rewrite !totalPenalty_sum, map_app, sum_app. reflexivity. Qed.

Lemma totalPenalty_insert (l1 l2 : list Violation) (v : Violation) :
  totalPenalty (l1 ++ v :: l2) = totalPenalty l1 + penalty v + totalPenalty l2.
Proof. rewrite totalPenalty_app, totalPenalty_cons. lra. Qed.

Lemma totalPenalty_repeat (v : Violation) (n : nat) :
  totalPenalty (repeat v n) = INR n * penalty v.
Proof.
  induction n as [| n IH].
  - simpl. rewrite totalPenalty_nil. lra.
  - cbn [repeat]. rewrite totalPenalty_cons, IH, S_INR. lra.
Qed.

Lemma totalPenalty_nonneg (vs : list Violation) : 0 <= totalPenalty vs.
Proof.
  induction vs as [| v vs IH].
  - rewrite totalPenalty_nil. lra.
  - rewrite totalPenalty_cons. pose proof (penalty_bounds v). lra.
Qed.

Lemma rawScore_eq (vs : list Violation) :
  rawScore vs = 100 * exp (- (totalPenalty vs / 65)).
Proof. unfold rawScore. f_equal. f_equal. lra. Qed.

Lemma rawScore_pos (vs : list Violation) : 0 < rawScore vs.
Proof. unfold rawScore. pose proof (exp_pos (- totalPenalty vs / 65)). lra. Qed.

Lemma rawScore_le_100 (vs : list Violation) : rawScore vs <= 100.
Proof.
  unfold rawScore.
  pose proof (totalPenalty_nonneg vs) as P.
  pose proof (exp_le (- totalPenalty vs / 65) 0 ltac:(lra)) as E.
  rewrite exp_0 in E. lra.
Qed.

(** The clamp never bites: the raw score already lies in (0, 100]. *)
Lemma clamp_rawScore (vs : list Violation) :
  Rmax 0 (Rmin 100 (rawScore vs)) = rawScore vs.
Proof.
  pose proof (rawScore_pos vs). pose proof (rawScore_le_100 vs).
  unfold Rmax, Rmin. repeat destruct Rle_dec; lra.
Qed.

Lemma score_round_raw (vs : list Violation) :
  computeAccessibilityScore0to100 vs = Math_round (rawScore vs).
Proof. unfold computeAccessibilityScore0to100. rewrite clamp_rawScore. reflexivity. Qed.

Lemma rawScore_antitone (l l' : list Violation) :
  totalPenalty l <= totalPenalty l' -> rawScore l' <= rawScore l.
Proof.
  intros H. unfold rawScore.
  pose proof (exp_le (- totalPenalty l' / 65) (- totalPenalty l / 65) ltac:(lra)). lra.
Qed.

Lemma score_nil : computeAccessibilityScore0to100 [] = 100%Z.
Proof.
  rewrite score_round_raw. apply Math_round_eq.
  unfold rawScore. rewrite totalPenalty_nil.
  replace (- 0 / 65) with 0 by lra. rewrite exp_0. lra.
Qed.

End ScoreFacts.

(* ================================================================== *)
(** * Numeric evaluation of the score on concrete findings *)

Module ScoreExamples.
Import Popup ScoreFacts Samples.

Lemma confidence_finding (i : string) (s c : R) (n : nat) :
  0 <= c <= 1 -> getPredictionConfidence (finding i s c n) = c.
Proof.
  intros H. unfold getPredictionConfidence, predictionField, finding. simpl.
  unfold Rmax, Rmin. repeat destruct Rle_dec; lra.
Qed.

Lemma severity_finding (i : string) (s c : R) (n : nat) :
  getPredictedSeverityScore (finding i s c n) = JNum s.
Proof. reflexivity. Qed.

Lemma nodeCount_finding (i : string) (s c : R) (n : nat) :
  (0 < n)%nat -> nodeCountOr1 (finding i s c n) = INR n.
Proof.
  intros H. unfold nodeCountOr1, finding. simpl. rewrite repeat_length.
  destruct (Nat.eqb_spec n 0); [lia | reflexivity].
Qed.

Lemma penalty_finding (i : string) (s c : R) (n : nat) :
  0 <= c <= 1 -> (0 < n)%nat ->
  penalty (finding i s c n)
  = severityWeight (JNum s) * instanceMultiplier (INR n) * confidenceMultiplier c.
Proof.
  intros Hc Hn. unfold penalty.
  rewrite severity_finding, confidence_finding, nodeCount_finding by assumption.
  reflexivity.
Qed.

Lemma instanceMultiplier_5_bounds : 1 + 3 / 4 <= instanceMultiplier 5 <= 1 + 4 / 5.
Proof.
  rewrite instanceMultiplier_capped.
  replace (capped 5) with 5
    by (unfold capped, Rmax, Rmin; destruct Req_dec_T; repeat destruct Rle_dec; lra).
  pose proof (log2_lower 5 9 4 ltac:(lra) ltac:(lia) ltac:(simpl; lra)) as L.
  pose proof (log2_upper 5 12 5 ltac:(lra) ltac:(lia) ltac:(simpl; lra)) as U.
  simpl in L, U. lra.
Qed.

Lemma totalPenalty_specExample : 26.93 <= totalPenalty specExample <= 27.16.
Proof.
  unfold specExample.
  rewrite !totalPenalty_cons, totalPenalty_nil.
  rewrite !penalty_finding by (try lra; lia).
  simpl INR. replace (1 + 1 + 1 + 1 + 1) with 5 by lra.
  rewrite instanceMultiplier_1.
  pose proof instanceMultiplier_5_bounds as [L U].
  unfold severityWeight, confidenceMultiplier. table.
Qed.

(** [100 * exp (-x)] between two bounds, from bounds on [exp x]. *)
Lemma scaled_exp_neg_bounds (x lo hi : R) :
  0 < lo -> lo <= exp x <= hi -> 100 / hi <= 100 * exp (- x) <= 100 / lo.
Proof.
  intros Hlo [L U]. rewrite exp_Ropp.
  assert (0 < exp x) by apply exp_pos.
  split.
  - apply Rmult_le_compat_l; [lra |]. apply Rinv_le_contravar; lra.
  - apply Rmult_le_compat_l; [lra |]. apply Rinv_le_contravar; lra.
Qed.

Lemma rawScore_specExample : 65.5 <= rawScore specExample < 66.5.
Proof.
  pose proof totalPenalty_specExample as [L U].
  rewrite rawScore_eq. set (P := totalPenalty specExample) in *.
  assert (Lo : 1.5038 <= exp (P / 65)).
  { apply Rle_trans with (exp (26.93 / 65)); [| apply exp_le; lra].
    eapply Rle_trans; [| apply (exp_lower_pow 64); [lia | simpl; lra]].
    simpl INR. lra. }
  assert (Hi : exp (P / 65) <= 1.5267).
  { apply Rle_trans with (exp (27.16 / 65)); [apply exp_le; lra |].
    eapply Rle_trans; [apply (exp_upper_pow 64); [lia | simpl; lra] |].
    simpl INR. lra. }
  pose proof (scaled_exp_neg_bounds (P / 65) 1.5038 1.5267 ltac:(lra) (conj Lo Hi)) as [A B].
  lra.
Qed.

Lemma score_specExample : computeAccessibilityScore0to100 specExample = 66%Z.
Proof.
  rewrite score_round_raw. apply Math_round_eq.
  pose proof rawScore_specExample. lra.
Qed.

End ScoreExamples.

(* ================================================================== *)
(** * Indexed map and [Promise.all] *)

Section RuntimeFacts.
Context {A B : Type}.

Lemma mapi_from_length (f : nat -> A -> B) (k : nat) (xs : list A) :
  List.length (mapi_from f k xs) = List.length xs.
Proof.
  revert k. induction xs as [| x xs IH]; intros k; simpl; [reflexivity | now rewrite IH].
Qed.

Lemma mapi_from_nth_error (f : nat -> A -> B) (k i : nat) (xs : list A) :
  nth_error (mapi_from f k xs) i = option_map (f (k + i)%nat) (nth_error xs i).
Proof.
  revert k i. induction xs as [| x xs IH]; intros k [| i]; simpl; try reflexivity.
  - now rewrite Nat.add_0_r.
  - rewrite IH. now rewrite Nat.add_succ_r.
Qed.

Lemma mapi_nth_error (f : nat -> A -> B) (i : nat) (xs : list A) :
  nth_error (mapi f xs) i = option_map (f i) (nth_error xs i).
Proof. unfold mapi. now rewrite mapi_from_nth_error. Qed.

Lemma mapi_length (f : nat -> A -> B) (xs : list A) :
  List.length (mapi f xs) = List.length xs.
Proof. apply mapi_from_length. Qed.

Lemma mapi_from_map (g : B -> A) (f : nat -> A -> B) (k : nat) (xs : list A) :
  (forall i x, g (f i x) = x) -> map g (mapi_from f k xs) = xs.
Proof.
  intros H. revert k. induction xs as [| x xs IH]; intros k; simpl; [reflexivity |].
  now rewrite H, IH.
Qed.

Lemma set_slot_length (values : list A) (i : nat) (x : A) :
  List.length (set_slot values i x) = List.length values.
Proof.
  revert i. induction values as [| v vs IH]; intros [| i]; simpl; try reflexivity.
  now rewrite IH.
Qed.

Lemma set_slot_same (values : list A) (i : nat) (x : A) :
  (i < List.length values)%nat -> nth_error (set_slot values i x) i = Some x.
Proof.
  revert i. induction values as [| v vs IH]; intros [| i] H; simpl in *; try lia.
  - reflexivity.
  - apply IH. lia.
Qed.

Lemma set_slot_other (values : list A) (i j : nat) (x : A) :
  i <> j -> nth_error (set_slot values i x) j = nth_error values j.
Proof.
  revert i j. induction values as [| v vs IH]; intros [| i] [| j] H; simpl; try reflexivity.
  - contradiction.
  - apply IH. lia.
Qed.

Lemma nth_error_repeat (x : A) (n i : nat) :
  (i < n)%nat -> nth_error (repeat x n) i = Some x.
Proof.
  revert i. induction n as [| n IH]; intros [| i] H; simpl; try lia.
  - reflexivity.
  - apply IH. lia.
Qed.

End RuntimeFacts.

Section PromiseFacts.
Context {A : Type}.

(** Reading the slots back: [all_filled] succeeds exactly when every slot
    holds a value, and returns the values in slot order. *)
Lemma all_filled_map_Some (xs : list A) : all_filled (map Some xs) = Some xs.
Proof. induction xs as [| x xs IH]; simpl; [reflexivity | now rewrite IH]. Qed.

Lemma all_filled_inv (values : list (option A)) (xs : list A) :
  all_filled values = Some xs -> values = map Some xs.
Proof.
  revert xs. induction values as [| [v |] vs IH]; intros xs H; simpl in H.
  - injection H as <-. reflexivity.
  - destruct (all_filled vs) as [ys |] eqn:E; [| discriminate].
    injection H as <-. simpl. f_equal. now apply IH.
  - discriminate.
Qed.

Lemma settle_agree (results : list A) (completion : list nat) (values : list (option A)) :
  slots_agree results values -> slots_agree results (settle results completion values).
Proof.
  revert values. induction completion as [| c cs IH]; intros values H; simpl; [exact H |].
  apply IH. destruct H as [Hlen Hslots].
  destruct (nth_error results c) as [x |] eqn:E; [| split; assumption].
  split; [now rewrite set_slot_length |].
  intros i. destruct (Nat.eq_dec c i) as [<- | N].
  - right. rewrite set_slot_same, E; [reflexivity |].
    rewrite Hlen. apply nth_error_Some. congruence.
  - rewrite set_slot_other by exact N. apply Hslots.
Qed.

Lemma settle_keeps (results : list A) (completion : list nat) (values : list (option A)) (i : nat) :
  slots_agree results values ->
  nth_error values i = option_map Some (nth_error results i) ->
  nth_error (settle results completion values) i = option_map Some (nth_error results i).
Proof.
  revert values. induction completion as [| c cs IH]; intros values H Hi; simpl; [exact Hi |].
  assert (H' : slots_agree results
                 match nth_error results c with
                 | Some x => set_slot values c (Some x)
                 | None => values
                 end).
  { apply (settle_agree results [c] values H). }
  apply IH; [exact H' |].
  destruct (nth_error results c) as [x |] eqn:E; [| exact Hi].
  destruct (Nat.eq_dec c i) as [<- | N].
  - rewrite set_slot_same, E; [reflexivity |].
    destruct H as [Hlen _]. rewrite Hlen. apply nth_error_Some. congruence.
  - now rewrite set_slot_other.
Qed.

Lemma settle_fills (results : list A) (completion : list nat) (values : list (option A)) (i : nat) :
  slots_agree results values -> In i completion ->
  nth_error (settle results completion values) i = option_map Some (nth_error results i).
Proof.
  revert values. induction completion as [| c cs IH]; intros values H Hin; [contradiction |].
  simpl.
  assert (H' : slots_agree results
                 match nth_error results c with
                 | Some x => set_slot values c (Some x)
                 | None => values
                 end).
  { apply (settle_agree results [c] values H). }
  destruct Hin as [-> | Hin]; [| now apply IH].
  apply settle_keeps; [exact H' |].
  destruct (nth_error results i) as [x |] eqn:E.
  - rewrite set_slot_same; [reflexivity |].
    destruct H as [Hlen _]. rewrite Hlen. apply nth_error_Some. congruence.
  - simpl. destruct H as [Hlen _].
    apply nth_error_None. rewrite Hlen. now apply nth_error_None.
Qed.

Lemma slots_agree_empty (results : list A) :
  slots_agree results (repeat None (List.length results)).
Proof.
  split; [apply repeat_length |].
  intros i. destruct (Nat.lt_ge_cases i (List.length results)) as [L | G].
  - left. now apply nth_error_repeat.
  - right. replace (nth_error results i) with (@None A)
      by (symmetry; now apply nth_error_None).
    simpl. apply nth_error_None. now rewrite repeat_length.
Qed.

(** What [Promise.all] fulfils with is the list of results in index order,
    whatever the order of completion. *)
Lemma Promise_all_sound (results : list A) (completion : list nat) (xs : list A) :
  Promise_all results completion = Some xs -> xs = results.
Proof.
  unfold Promise_all.
  intros H. apply all_filled_inv in H.
  pose proof (settle_agree results completion _ (slots_agree_empty results)) as [Hlen Hslots].
  rewrite H in Hlen, Hslots. rewrite length_map in Hlen.
  apply nth_error_ext. intros i.
  specialize (Hslots i). rewrite nth_error_map in Hslots.
  destruct (nth_error xs i) as [x |] eqn:Ex; simpl in Hslots.
  - destruct Hslots as [Hs | Hs]; [discriminate |].
    destruct (nth_error results i); simpl in Hs; congruence.
  - symmetry. apply nth_error_None. rewrite <- Hlen. now apply nth_error_None.
Qed.

(** It fulfils as soon as every promise has settled. *)
Lemma Promise_all_complete (results : list A) (completion : list nat) :
  (forall i, (i < List.length results)%nat -> In i completion) ->
  Promise_all results completion = Some results.
Proof.
  intros Hall. unfold Promise_all.
  set (values := settle _ _ _).
  assert (E : values = map Some results).
  { pose proof (settle_agree results completion _ (slots_agree_empty results)) as [Hlen _].
    fold values in Hlen.
    apply nth_error_ext. intros i. rewrite nth_error_map.
    destruct (Nat.lt_ge_cases i (List.length results)) as [L | G].
    - apply settle_fills; [apply slots_agree_empty | now apply Hall].
    - replace (nth_error results i) with (@None A)
        by (symmetry; now apply nth_error_None).
      simpl. apply nth_error_None. now rewrite Hlen. }
  rewrite E. apply all_filled_map_Some.
Qed.

End PromiseFacts.

(* ================================================================== *)
(** * Enrichment and the report *)

Module ReportFacts.
Import Popup.

Lemma withMlAnalysis_id (v : Violation) (a : MLAnalysis) : id (withMlAnalysis v a) = id v.
Proof. reflexivity. Qed.

Lemma enhanceOne_impact (useML : bool) (calls : nat -> Api.CallOutcomes) (i : nat) (v : Violation) :
  impact (enhanceOne useML calls i v) = impact v.
Proof. unfold enhanceOne. destruct useML; reflexivity. Qed.


Lemma mapi_from_enhance_impacts (useML : bool) (calls : nat -> Api.CallOutcomes)
      (k : nat) (vs : list Violation) :
  map impact (mapi_from (enhanceOne useML calls) k vs) = map impact vs.
Proof.
  revert k. induction vs as [| v vs IH]; intros k; simpl; [reflexivity |].
  now rewrite enhanceOne_impact, IH.
Qed.


Lemma countImpact_impacts (i : string) (l l' : list Violation) :
  map impact l = map impact l' -> countImpact i l = countImpact i l'.
Proof.
  unfold countImpact. revert l'.
  induction l as [| v l IH]; intros [| v' l'] H; simpl in *; try discriminate; [reflexivity |].
  injection H as Hv Hl. rewrite Hv.
  destruct (impact v' =? i)%string; simpl; now rewrite (IH l').
Qed.

(** The shape of every report [enhanceWithML] returns. *)
Lemma enhanceWithML_inv (w : World) (axeResults : AxeResults) (r : Report) :
  enhanceWithML w axeResults = Some r ->
  let violations := match ar_violations axeResults with Some vs => vs | None => [] end in
  let useML := Api.mlApi (Api.checkHealth (mlHealth w) (llmHealth w)) in
  r = buildReport violations (mapi (enhanceOne useML (calls w)) violations)
                  (ar_url axeResults) (now w) useML.
Proof.
  unfold enhanceWithML. intros H.
  destruct (Promise_all _ _) as [evs |] eqn:E; [| discriminate].
  apply Promise_all_sound in E. subst evs. now injection H as <-.
Qed.

Lemma enhanceWithML_returns (w : World) (axeResults : AxeResults) :
  let violations := match ar_violations axeResults with Some vs => vs | None => [] end in
  let useML := Api.mlApi (Api.checkHealth (mlHealth w) (llmHealth w)) in
  (forall i, (i < List.length violations)%nat -> In i (completion w)) ->
  enhanceWithML w axeResults =
  Some (buildReport violations (mapi (enhanceOne useML (calls w)) violations)
                    (ar_url axeResults) (now w) useML).
Proof.
  intros violations useML H. unfold enhanceWithML.
  fold violations. fold useML.
  rewrite Promise_all_complete; [reflexivity |].
  intros i Hi. apply H. now rewrite mapi_length in Hi.
Qed.

(** The counts of a report, read from its enhanced findings. *)
Lemma report_counts (w : World) (axeResults : AxeResults) (r : Report) :
  enhanceWithML w axeResults = Some r ->
  r_score r = computeAccessibilityScore0to100 (r_violations r) /\
  totalViolations r = List.length (r_violations r) /\
  criticalCount r = countImpact "critical" (r_violations r) /\
  seriousCount r = countImpact "serious" (r_violations r) /\
  moderateCount r = countImpact "moderate" (r_violations r) /\
  avgImpact r =
    (if (0 <? List.length (r_violations r))%nat
     then Math_round
            (fold_left (fun sum v => sum + estimateUserImpactFromSeverity v) (r_violations r) 0
             / INR (List.length (r_violations r)))
     else 0%Z).
Proof.
  intros H. apply enhanceWithML_inv in H. cbv zeta in H. subst r. simpl.
  set (vs := match ar_violations axeResults with Some vs => vs | None => [] end).
  set (useML := Api.mlApi (Api.checkHealth (mlHealth w) (llmHealth w))).
  assert (I : map impact vs = map impact (mapi (enhanceOne useML (calls w)) vs))
    by (symmetry; apply mapi_from_enhance_impacts).
  rewrite mapi_length.
  repeat split; try reflexivity; now apply countImpact_impacts.
Qed.

Lemma enhanceViolation_fails (c : Api.CallOutcomes) (v : Violation) :
  requestFails c = true -> Api.enhanceViolation c v = Api._createFallbackEnhancement v.
Proof.
  unfold requestFails, Api.enhanceViolation.
  destruct (Api.getPredictionWithShap _) as [p |]; [| reflexivity].
  destruct (Api.ml_topFeatures p); [discriminate | reflexivity].
Qed.

Lemma enhanceViolation_remote (c : Api.CallOutcomes) (v : Violation) :
  requestFails c = false ->
  remoteProvenance c (withMlAnalysis v (mlAnalysisOf (Api.enhanceViolation c v))).
Proof.
  unfold requestFails, Api.enhanceViolation, remoteProvenance, Api.getPredictionWithShap.
  destruct (Api.predictResponse c) as [| | | data] eqn:D; try discriminate.
  destruct (Api.d_prediction data) as [p |] eqn:P; [| discriminate].
  destruct (Api.d_explanation data) as [x |] eqn:X; [| discriminate].
  simpl. destruct (Api.top_features x) as [tf |] eqn:T; [| discriminate].
  intros _. exists data, p, x, tf. simpl. repeat split; assumption || reflexivity.
Qed.

End ReportFacts.

(* ================================================================== *)
(** * The overlay: document, variables and teardown *)

Module OverlayFacts.
Import Overlay.

Lemma inDocument_In (i : nat) (b : list DomNode) :
  inDocument i b = true <-> exists n, In n b /\ nid n = i.
Proof.
  unfold inDocument. rewrite existsb_exists.
  split; intros [n [H E]]; exists n; (split; [exact H |]).
  - now apply Nat.eqb_eq.
  - now apply Nat.eqb_eq.
Qed.

Lemma inDocument_shapes (i : nat) (b : list DomNode) :
  inDocument i b = true <-> In i (map fst (map shape b)).
Proof.
  rewrite inDocument_In, map_map. simpl. rewrite in_map_iff.
  split; intros [n [H E]]; exists n; tauto.
Qed.

Lemma In_shape (n : DomNode) (b : list DomNode) :
  In n b -> In (nid n, tagOf (kind n)) (map shape b).
Proof. intros H. apply (in_map shape) in H. exact H. Qed.

Lemma removeChild_In (n : DomNode) (i : nat) (b : list DomNode) :
  In n (removeChild i b) <-> In n b /\ nid n <> i.
Proof.
  unfold removeChild. rewrite filter_In, negb_true_iff, Nat.eqb_neq. reflexivity.
Qed.

(** The loop over [overlayElements]: what is left of the document. *)
Lemma remove_each_In (ids : list nat) (b : list DomNode) (n : DomNode) :
  In n (fold_left (fun b el => if inDocument el b then removeChild el b else b) ids b)
  <-> In n b /\ ~ In (nid n) ids.
Proof.
  revert b. induction ids as [| el ids IH]; intros b; simpl.
  - tauto.
  - rewrite IH.
    assert (S : In n (if inDocument el b then removeChild el b else b)
                <-> In n b /\ nid n <> el).
    { destruct (inDocument el b) eqn:D.
      - apply removeChild_In.
      - split; [| tauto]. intros H. split; [exact H |].
        intros E. assert (inDocument el b = true) by (apply inDocument_In; eauto).
        congruence. }
    rewrite S. intuition congruence.
Qed.

Lemma nil_if_no_member {X : Type} (l : list X) : (forall x, ~ In x l) -> l = [].
Proof. destruct l as [| x l]; [reflexivity |]. intros H. exfalso. apply (H x). now left. Qed.

(** On a consistent state [removeAllOverlays] empties the document of
    everything the script put there and clears the three variables. *)
Lemma removeAllOverlays_clean (s : State) :
  Consistent s ->
  removeAllOverlays s =
  {| body := [];
     overlayElements := [];
     tooltipElement := None;
     sidePanel := None;
     currentViolations := currentViolations s;
     windowListeners := windowListeners s;
     accessGuruListenersAdded := false;
     accessGuruOverlayInjected := false;
     nextNode := nextNode s |}.
Proof.
  intros C. unfold removeAllOverlays.
  set (b1 := fold_left _ (overlayElements s) (body s)).
  assert (B1 : forall n, In n b1 <-> In n (body s) /\ ~ In (nid n) (overlayElements s))
    by (intros n; apply remove_each_In).
  (* the tooltip *)
  set (b2 := match tooltipElement s with Some t => removeChild t b1 | None => b1 end).
  assert (E2 : match tooltipElement s with
               | Some t => if inDocument t b1 then (removeChild t b1, None) else (b1, Some t)
               | None => (b1, None)
               end = (b2, @None nat)).
  { unfold b2. destruct (tooltipElement s) as [t |] eqn:T; [| reflexivity].
    assert (D : inDocument t b1 = true).
    { pose proof (tooltip_present s C t T) as P.
      apply inDocument_shapes in P. apply inDocument_In in P as [n [Hn <-]].
      apply inDocument_In. exists n. split; [| reflexivity].
      apply B1. split; [exact Hn |]. intros O.
      pose proof (In_shape n _ Hn) as Sn.
      apply (overlay_known s C _ _ Sn) in O.
      apply (tooltip_known s C _ _ Sn) in T.
      destruct O; congruence. }
    now rewrite D. }
  rewrite E2.
  assert (B2 : forall n, In n b2 <-> In n b1 /\ tooltipElement s <> Some (nid n)).
  { intros n. unfold b2. destruct (tooltipElement s) as [t |].
    - rewrite removeChild_In. intuition congruence.
    - intuition congruence. }
  (* the side panel *)
  set (b3 := match sidePanel s with Some p => removeChild p b2 | None => b2 end).
  assert (E3 : match sidePanel s with
               | Some p => if inDocument p b2 then (removeChild p b2, None) else (b2, Some p)
               | None => (b2, None)
               end = (b3, @None nat)).
  { unfold b3. destruct (sidePanel s) as [p |] eqn:P; [| reflexivity].
    assert (D : inDocument p b2 = true).
    { pose proof (panel_present s C p P) as Q.
      apply inDocument_shapes in Q. apply inDocument_In in Q as [n [Hn <-]].
      apply inDocument_In. exists n. split; [| reflexivity].
      pose proof (In_shape n _ Hn) as Sn.
      pose proof (proj2 (panel_known s C _ _ Sn) P) as K.
      apply B2. split.
      - apply B1. split; [exact Hn |]. intros O.
        apply (overlay_known s C _ _ Sn) in O. destruct O; congruence.
      - intros T. apply (tooltip_known s C _ _ Sn) in T. congruence. }
    now rewrite D. }
  rewrite E3.
  assert (B3 : forall n, ~ In n b3).
  { intros n H.
    assert (H3 : In n b2 /\ sidePanel s <> Some (nid n)).
    { unfold b3 in H. destruct (sidePanel s) as [p |].
      - apply removeChild_In in H. intuition congruence.
      - intuition congruence. }
    destruct H3 as [H2 NP]. apply B2 in H2 as [H1 NT]. apply B1 in H1 as [Hn NO].
    pose proof (In_shape n _ Hn) as Sn.
    pose proof (overlay_known s C _ _ Sn) as KO.
    pose proof (tooltip_known s C _ _ Sn) as KT.
    pose proof (panel_known s C _ _ Sn) as KP.
    destruct (tagOf (kind n)); intuition congruence. }
  rewrite (nil_if_no_member b3 B3). reflexivity.
Qed.

(** *** The invariant holds in every reachable state *)

Lemma consistent_injected : Consistent injected.
Proof. constructor; simpl; try contradiction; try discriminate; intros; contradiction. Qed.

(** A change of the contents of nodes leaves the invariant alone. *)
Lemma consistent_same_shapes (s s' : State) :
  shapes s' = shapes s ->
  overlayElements s' = overlayElements s ->
  tooltipElement s' = tooltipElement s ->
  sidePanel s' = sidePanel s ->
  nextNode s' = nextNode s ->
  Consistent s -> Consistent s'.
Proof.
  intros Hs Ho Ht Hp Hn [F1 F2 F3 F4 K1 K2 K3 P1 P2].
  constructor; rewrite ?Hs, ?Ho, ?Ht, ?Hp, ?Hn; assumption.
Qed.

Lemma updateNode_shapes (i : nat) (f : NodeKind -> NodeKind) (b : list DomNode) :
  (forall k, tagOf (f k) = tagOf k) -> map shape (updateNode i f b) = map shape b.
Proof.
  intros H. unfold updateNode. rewrite map_map. apply map_ext. intros n.
  destruct (nid n =? i)%nat; [| reflexivity]. unfold shape. simpl. now rewrite H.
Qed.

Lemma updatePanels_shapes (f : NodeKind -> NodeKind) (b : list DomNode) :
  (forall k, tagOf (f k) = tagOf k) -> map shape (updatePanels f b) = map shape b.
Proof.
  intros H. unfold updatePanels. rewrite map_map. apply map_ext. intros n.
  destruct (isSidePanel (kind n)); [| reflexivity]. unfold shape. simpl. now rewrite H.
Qed.

Lemma tag_setDisplayed (d : bool) (k : NodeKind) : tagOf (setDisplayed d k) = tagOf k.
Proof. destruct k; reflexivity. Qed.

Lemma tag_setCollapsed (c : bool) (k : NodeKind) : tagOf (setCollapsed c k) = tagOf k.
Proof. destruct k; reflexivity. Qed.

Lemma tag_toggleCollapsed (k : NodeKind) : tagOf (toggleCollapsed k) = tagOf k.
Proof. destruct k; reflexivity. Qed.

Lemma tag_clickHeaderInPanel (i h : nat) (k : NodeKind) : tagOf (clickHeaderInPanel i h k) = tagOf k.
Proof. destruct k; reflexivity. Qed.

Lemma tag_setList (vs : list Violation) (k : NodeKind) : tagOf (setList vs k) = tagOf k.
Proof. destruct k; simpl; try reflexivity. now destruct (forallb _ _). Qed.

Lemma consistent_setBody (s : State) (b : list DomNode) :
  map shape b = shapes s -> Consistent s -> Consistent (setBody s b).
Proof. intros H. apply consistent_same_shapes; try reflexivity. exact H. Qed.

Lemma consistent_createTooltip (s : State) : Consistent s -> Consistent (createTooltip s).
Proof.
  intros C. unfold createTooltip. destruct (tooltipElement s) as [t |] eqn:T; [exact C |].
  destruct C as [F1 F2 F3 F4 K1 K2 K3 P1 P2].
  constructor; unfold shapes in *; simpl; rewrite ?map_app; simpl.
  - intros i t H. apply in_app_iff in H as [H | [H | []]].
    + apply F1 in H. lia.
    + injection H as <- <-. lia.
  - intros i H. apply F2 in H. lia.
  - intros i H. injection H as <-. lia.
  - intros i H. apply F4 in H. lia.
  - intros i t H. apply in_app_iff in H as [H | [H | []]].
    + now apply K1.
    + injection H as <- <-. split; [intros [? | ?]; discriminate |].
      intros O. apply F2 in O. lia.
  - intros i t H. apply in_app_iff in H as [H | [H | []]].
    + pose proof (K2 _ _ H) as K. pose proof (F1 _ _ H) as L. rewrite T in K.
      split; [intros E; apply K in E; discriminate |].
      intros E. injection E as E. lia.
    + injection H as <- <-. tauto.
  - intros i t H. apply in_app_iff in H as [H | [H | []]].
    + now apply K3.
    + injection H as <- <-. split; [discriminate |].
      intros O. apply F4 in O. lia.
  - intros i H. injection H as <-. rewrite in_app_iff. right. now left.
  - intros i H. rewrite in_app_iff. left. now apply P2.
Qed.

Lemma isSidePanel_tag (k : NodeKind) : isSidePanel k = true <-> tagOf k = TagPanel.
Proof. destruct k; simpl; split; congruence. Qed.

Lemma findPanel_Some (b : list DomNode) (n : DomNode) :
  findPanel b = Some n -> In n b /\ tagOf (kind n) = TagPanel.
Proof.
  unfold findPanel. intros H. apply find_some in H as [H1 H2].
  split; [exact H1 | now apply isSidePanel_tag].
Qed.

Lemma findPanel_None (b : list DomNode) (n : DomNode) :
  findPanel b = None -> In n b -> tagOf (kind n) <> TagPanel.
Proof.
  unfold findPanel. intros H Hn E.
  pose proof (find_none _ _ H n Hn) as F. simpl in F.
  apply isSidePanel_tag in E. congruence.
Qed.

Lemma consistent_createSidePanel (s : State) : Consistent s -> Consistent (createSidePanel s).
Proof.
  intros C. unfold createSidePanel.
  destruct (findPanel (body s)) as [existing |] eqn:F.
  - apply findPanel_Some in F as [Hin Htag].
    pose proof (In_shape _ _ Hin) as Sn. rewrite Htag in Sn.
    pose proof (proj1 (panel_known s C _ _ Sn) eq_refl) as P.
    apply (consistent_same_shapes s); try reflexivity; [| exact C].
    simpl. now rewrite P.
  - destruct (sidePanel s) as [p |] eqn:P; [exact C |].
    destruct C as [F1 F2 F3 F4 K1 K2 K3 P1 P2].
    constructor; unfold shapes in *; simpl; rewrite ?map_app; simpl.
    + intros i t H. apply in_app_iff in H as [H | [H | []]].
      * apply F1 in H. lia.
      * injection H as <- <-. lia.
    + intros i H. apply F2 in H. lia.
    + intros i H. apply F3 in H. lia.
    + intros i H. injection H as <-. lia.
    + intros i t H. apply in_app_iff in H as [H | [H | []]].
      * now apply K1.
      * injection H as <- <-. split; [intros [? | ?]; discriminate |].
        intros O. apply F2 in O. lia.
    + intros i t H. apply in_app_iff in H as [H | [H | []]].
      * now apply K2.
      * injection H as <- <-. split; [discriminate |].
        intros O. apply F3 in O. lia.
    + intros i t H. apply in_app_iff in H as [H | [H | []]].
      * pose proof (K3 _ _ H) as K. pose proof (F1 _ _ H) as L. rewrite P in K.
        split; [intros E; apply K in E; discriminate |].
        intros E. injection E as E. lia.
      * injection H as <- <-. tauto.
    + intros i H. rewrite in_app_iff. left. now apply P1.
    + intros i H. injection H as <-. rewrite in_app_iff. right. now left.
Qed.

Lemma consistent_populate (vs : list Violation) (s : State) :
  Consistent s -> Consistent (populateViolationsList vs s).
Proof.
  intros C. unfold populateViolationsList. apply consistent_setBody; [| exact C].
  apply updatePanels_shapes. apply tag_setList.
Qed.

Lemma consistent_createHighlight (e : nat) (v : Violation) (nd : AxeNode) (s s' : State) :
  createHighlight e v nd s = Some s' -> Consistent s -> Consistent s'.
Proof.
  unfold createHighlight. destruct (hasSeverityColor (impact v)); [| discriminate].
  intros H C. injection H as <-.
  destruct C as [F1 F2 F3 F4 K1 K2 K3 P1 P2].
  constructor; unfold shapes in *; simpl; rewrite ?map_app; simpl.
  - intros i t H. apply in_app_iff in H as [H | [H | [H | []]]].
    + apply F1 in H. lia.
    + injection H as <- <-. lia.
    + injection H as <- <-. lia.
  - intros i H. apply in_app_iff in H as [H | [<- | [<- | []]]]; [apply F2 in H |..]; lia.
  - intros i H. apply F3 in H. lia.
  - intros i H. apply F4 in H. lia.
  - intros i t H. rewrite in_app_iff. apply in_app_iff in H as [H | [H | [H | []]]].
    + pose proof (K1 _ _ H) as K. pose proof (F1 _ _ H) as L.
      split; [intros E; left; now apply K |].
      intros [O | [O | [O | []]]]; [now apply K | lia | lia].
    + injection H as <- <-. split; [intros _; right; now left | intros _; now left].
    + injection H as <- <-. split; [intros _; right; right; now left | intros _; now right].
  - intros i t H. apply in_app_iff in H as [H | [H | [H | []]]].
    + now apply K2.
    + injection H as <- <-. split; [discriminate |]. intros O. apply F3 in O. lia.
    + injection H as <- <-. split; [discriminate |]. intros O. apply F3 in O. lia.
  - intros i t H. apply in_app_iff in H as [H | [H | [H | []]]].
    + now apply K3.
    + injection H as <- <-. split; [discriminate |]. intros O. apply F4 in O. lia.
    + injection H as <- <-. split; [discriminate |]. intros O. apply F4 in O. lia.
  - intros i H. rewrite in_app_iff. left. now apply P1.
  - intros i H. rewrite in_app_iff. left. now apply P2.
Qed.

Lemma consistent_highlightNode (page : Page) (v : Violation) (s : State) (nd : AxeNode) :
  Consistent s -> Consistent (highlightNode page v s nd).
Proof.
  intros C. unfold highlightNode.
  destruct (target nd) as [[| sel rest] |]; try exact C.
  destruct (page sel) as [| | e]; try exact C.
  destruct (createHighlight e v nd s) as [s' |] eqn:E; [| exact C].
  eapply consistent_createHighlight; eassumption.
Qed.

Lemma consistent_highlightViolation (page : Page) (s : State) (v : Violation) :
  Consistent s -> Consistent (highlightViolation page s v).
Proof.
  unfold highlightViolation. destruct (nodes v) as [ns |]; [| trivial].
  revert s. induction ns as [| nd ns IH]; intros s C; simpl; [exact C |].
  apply IH. now apply consistent_highlightNode.
Qed.

Lemma consistent_highlight_all (page : Page) (vs : list Violation) (s : State) :
  Consistent s -> Consistent (fold_left (highlightViolation page) vs s).
Proof.
  revert s. induction vs as [| v vs IH]; intros s C; simpl; [exact C |].
  apply IH. now apply consistent_highlightViolation.
Qed.

Lemma consistent_addWindowListeners (s : State) :
  Consistent s -> Consistent (addWindowListeners s).
Proof.
  intros C. unfold addWindowListeners. destruct (accessGuruListenersAdded s); [exact C |].
  apply (consistent_same_shapes s); try reflexivity. exact C.
Qed.

Lemma consistent_highlightViolations (page : Page) (vs : list Violation) (s : State) :
  Consistent s -> Consistent (highlightViolations page vs s).
Proof.
  intros C. unfold highlightViolations. destruct vs as [| v vs]; [exact C |].
  apply consistent_addWindowListeners, consistent_highlight_all,
        consistent_populate, consistent_createSidePanel.
  apply (consistent_same_shapes s); try reflexivity. exact C.
Qed.

Lemma consistent_removeAllOverlays (s : State) :
  Consistent s -> Consistent (removeAllOverlays s).
Proof.
  intros C. rewrite (removeAllOverlays_clean s C).
  constructor; simpl; try contradiction; try discriminate; intros; contradiction.
Qed.

Lemma consistent_openSidebar (s : State) : Consistent s -> Consistent (accessGuruOpenSidebar s).
Proof.
  intros C. unfold accessGuruOpenSidebar. destruct (sidePanel s); [| exact C].
  apply consistent_setBody; [| exact C]. apply updateNode_shapes, tag_setCollapsed.
Qed.

Lemma consistent_showTooltip (s : State) : Consistent s -> Consistent (showTooltip s).
Proof.
  intros C. unfold showTooltip.
  pose proof (consistent_createTooltip s C) as C'.
  destruct (tooltipElement (createTooltip s)); [| exact C'].
  apply consistent_setBody; [| exact C']. apply updateNode_shapes, tag_setDisplayed.
Qed.

Lemma consistent_hideTooltip (s : State) : Consistent s -> Consistent (hideTooltip s).
Proof.
  intros C. unfold hideTooltip. destruct (tooltipElement s); [| exact C].
  apply consistent_setBody; [| exact C]. apply updateNode_shapes, tag_setDisplayed.
Qed.

Lemma consistent_step (s : State) (ev : Event) : Consistent s -> Consistent (step s ev).
Proof.
  intros C. destruct ev; simpl.
  - now apply consistent_highlightViolations.
  - now apply consistent_removeAllOverlays.
  - now apply consistent_openSidebar.
  - unfold accessGuruHighlightSingle.
    now apply consistent_openSidebar, consistent_highlightViolations,
              consistent_removeAllOverlays.
  - apply consistent_setBody; [| exact C]. apply updatePanels_shapes, tag_toggleCollapsed.
  - apply consistent_setBody; [| exact C]. apply updatePanels_shapes, tag_setCollapsed.
  - apply consistent_setBody; [| exact C]. apply updatePanels_shapes, tag_clickHeaderInPanel.
  - destruct (hasIcon icon (body s)); [now apply consistent_showTooltip | exact C].
  - destruct (hasIcon icon (body s)); [now apply consistent_hideTooltip | exact C].
Qed.

Lemma run_app (evs1 evs2 : list Event) (s : State) :
  run (evs1 ++ evs2) s = run evs2 (run evs1 s).
Proof. unfold run. apply fold_left_app. Qed.

(** An induction principle for invariants of the state machine. *)
Lemma reachable_ind' (P : State -> Prop) :
  P injected -> (forall s ev, reachable s -> P s -> P (step s ev)) ->
  forall s, reachable s -> P s.
Proof.
  intros H0 HS s [evs ->].
  induction evs as [| ev evs IH] using rev_ind; [exact H0 |].
  rewrite run_app. simpl. apply HS; [now exists evs | exact IH].
Qed.

Lemma reachable_consistent (s : State) : reachable s -> Consistent s.
Proof.
  apply reachable_ind'; [apply consistent_injected |].
  intros s' ev _ C. now apply consistent_step.
Qed.

(** *** Highlight entries *)

Lemma highlightEntries_body (s : State) : highlightEntries s = entriesOf (body s).
Proof. reflexivity. Qed.

Lemma entriesOf_app (b1 b2 : list DomNode) : entriesOf (b1 ++ b2) = entriesOf b1 ++ entriesOf b2.
Proof. apply flat_map_app. Qed.

Lemma entriesOf_cons (n : DomNode) (b : list DomNode) :
  entriesOf (n :: b) = entriesOf [n] ++ entriesOf b.
Proof. unfold entriesOf. simpl. now rewrite app_nil_r. Qed.

Lemma entriesOf_updatePanels (f : NodeKind -> NodeKind) (b : list DomNode) :
  (forall k, tagOf (f k) = tagOf k) -> entriesOf (updatePanels f b) = entriesOf b.
Proof.
  intros H. induction b as [| n b IH]; [reflexivity |].
  change (updatePanels f (n :: b))
    with ((if isSidePanel (kind n) then {| nid := nid n; kind := f (kind n) |} else n)
          :: updatePanels f b).
  rewrite entriesOf_cons, IH, (entriesOf_cons n b). f_equal.
  destruct (kind n) as [e v nd | v nd | d | c es err] eqn:K; simpl;
    unfold entriesOf; simpl; rewrite ?K; try reflexivity.
  specialize (H (SidePanel c es err)).
  destruct (f (SidePanel c es err)); simpl in H; try discriminate. reflexivity.
Qed.

Lemma entriesOf_updateNode (i : nat) (f : NodeKind -> NodeKind) (b : list DomNode) :
  (forall e v nd, f (Highlight e v nd) = Highlight e v nd) ->
  (forall k, tagOf (f k) = tagOf k) ->
  entriesOf (updateNode i f b) = entriesOf b.
Proof.
  intros Hh Ht. induction b as [| n b IH]; [reflexivity |].
  change (updateNode i f (n :: b))
    with ((if (nid n =? i)%nat then {| nid := nid n; kind := f (kind n) |} else n)
          :: updateNode i f b).
  rewrite entriesOf_cons, IH, (entriesOf_cons n b). f_equal.
  destruct (nid n =? i)%nat; [| reflexivity].
  unfold entriesOf. simpl.
  specialize (Ht (kind n)).
  destruct (kind n) as [e v nd | v nd | d | c es err] eqn:K.
  - now rewrite Hh.
  - destruct (f (InfoIcon v nd)); simpl in Ht; try discriminate; reflexivity.
  - destruct (f (Tooltip d)); simpl in Ht; try discriminate; reflexivity.
  - destruct (f (SidePanel c es err)); simpl in Ht; try discriminate; reflexivity.
Qed.

Lemma entries_createSidePanel (s : State) :
  highlightEntries (createSidePanel s) = highlightEntries s.
Proof.
  unfold createSidePanel. destruct (findPanel (body s)); [reflexivity |].
  destruct (sidePanel s); [reflexivity |].
  rewrite !highlightEntries_body. simpl. rewrite entriesOf_app. simpl. apply app_nil_r.
Qed.

Lemma entries_populate (vs : list Violation) (s : State) :
  highlightEntries (populateViolationsList vs s) = highlightEntries s.
Proof.
  rewrite !highlightEntries_body. simpl. apply entriesOf_updatePanels, tag_setList.
Qed.

Lemma entries_highlightNode (page : Page) (v : Violation) (s : State) (nd : AxeNode) :
  highlightEntries (highlightNode page v s nd)
  = highlightEntries s ++ resolveInstance page v nd.
Proof.
  unfold highlightNode, resolveInstance.
  destruct (target nd) as [[| sel rest] |]; try (now rewrite app_nil_r).
  destruct (page sel) as [| | e]; try (now rewrite app_nil_r).
  unfold createHighlight.
  destruct (hasSeverityColor (impact v)); [| now rewrite app_nil_r].
  rewrite !highlightEntries_body. simpl. now rewrite entriesOf_app.
Qed.

Lemma entries_highlightViolation (page : Page) (s : State) (v : Violation) :
  highlightEntries (highlightViolation page s v)
  = highlightEntries s ++ resolveViolation page v.
Proof.
  unfold highlightViolation, resolveViolation.
  destruct (nodes v) as [ns |]; [| now rewrite app_nil_r].
  revert s. induction ns as [| nd ns IH]; intros s; simpl; [now rewrite app_nil_r |].
  rewrite IH, entries_highlightNode. now rewrite app_assoc.
Qed.

Lemma entries_highlight_all (page : Page) (vs : list Violation) (s : State) :
  highlightEntries (fold_left (highlightViolation page) vs s)
  = highlightEntries s ++ correlate page vs.
Proof.
  unfold correlate.
  revert s. induction vs as [| v vs IH]; intros s; simpl; [now rewrite app_nil_r |].
  rewrite IH, entries_highlightViolation. now rewrite app_assoc.
Qed.

Lemma entries_addWindowListeners (s : State) :
  highlightEntries (addWindowListeners s) = highlightEntries s.
Proof. unfold addWindowListeners. now destruct (accessGuruListenersAdded s). Qed.

(** An activation adds exactly the entries of the instances whose first
    selector finds an element. *)
Lemma entries_highlightViolations (page : Page) (vs : list Violation) (s : State) :
  highlightEntries (highlightViolations page vs s) = highlightEntries s ++ correlate page vs.
Proof.
  unfold highlightViolations. destruct vs as [| v vs]; [now rewrite app_nil_r |].
  rewrite entries_addWindowListeners, entries_highlight_all,
          entries_populate, entries_createSidePanel.
  reflexivity.
Qed.


(** *** The listeners of [window] *)

Lemma listeners_createSidePanel (s : State) :
  windowListeners (createSidePanel s) = windowListeners s
  /\ accessGuruListenersAdded (createSidePanel s) = accessGuruListenersAdded s.
Proof.
  unfold createSidePanel. destruct (findPanel (body s)); [split; reflexivity |].
  destruct (sidePanel s); split; reflexivity.
Qed.

Lemma listeners_highlightNode (page : Page) (v : Violation) (s : State) (nd : AxeNode) :
  windowListeners (highlightNode page v s nd) = windowListeners s
  /\ accessGuruListenersAdded (highlightNode page v s nd) = accessGuruListenersAdded s.
Proof.
  unfold highlightNode.
  destruct (target nd) as [[| sel rest] |]; try (split; reflexivity).
  destruct (page sel) as [| | e]; try (split; reflexivity).
  unfold createHighlight. destruct (hasSeverityColor (impact v)); split; reflexivity.
Qed.

Lemma listeners_highlightViolation (page : Page) (s : State) (v : Violation) :
  windowListeners (highlightViolation page s v) = windowListeners s
  /\ accessGuruListenersAdded (highlightViolation page s v) = accessGuruListenersAdded s.
Proof.
  unfold highlightViolation. destruct (nodes v) as [ns |]; [| split; reflexivity].
  revert s. induction ns as [| nd ns IH]; intros s; simpl; [split; reflexivity |].
  destruct (IH (highlightNode page v s nd)) as [-> ->]. apply listeners_highlightNode.
Qed.

Lemma listeners_highlight_all (page : Page) (vs : list Violation) (s : State) :
  windowListeners (fold_left (highlightViolation page) vs s) = windowListeners s
  /\ accessGuruListenersAdded (fold_left (highlightViolation page) vs s)
     = accessGuruListenersAdded s.
Proof.
  revert s. induction vs as [| v vs IH]; intros s; simpl; [split; reflexivity |].
  destruct (IH (highlightViolation page s v)) as [-> ->]. apply listeners_highlightViolation.
Qed.

Lemma listeners_removeAllOverlays (s : State) :
  windowListeners (removeAllOverlays s) = windowListeners s
  /\ accessGuruListenersAdded (removeAllOverlays s) = false
  /\ accessGuruOverlayInjected (removeAllOverlays s) = false
  /\ overlayElements (removeAllOverlays s) = [].
Proof.
  unfold removeAllOverlays.
  destruct (tooltipElement s) as [t |]; [destruct (inDocument t _) |];
    (destruct (sidePanel s) as [p |]; [destruct (inDocument p _) |]);
    repeat split; reflexivity.
Qed.

Lemma addEventListener_fresh :
  addEventListener scrollListener (addEventListener resizeListener [])
  = [resizeListener; scrollListener].
Proof. reflexivity. Qed.

Lemma addEventListener_again :
  addEventListener scrollListener
    (addEventListener resizeListener [resizeListener; scrollListener])
  = [resizeListener; scrollListener].
Proof. reflexivity. Qed.

(** What an activation does to the listeners, by the flag. *)
Lemma listeners_highlightViolations (page : Page) (v : Violation) (vs : list Violation)
      (s : State) :
  listenersOnce s ->
  windowListeners (highlightViolations page (v :: vs) s)
  = (if accessGuruListenersAdded s then windowListeners s
     else [resizeListener; scrollListener]).
Proof.
  intros L. unfold highlightViolations, addWindowListeners.
  set (s4 := fold_left _ _ _).
  assert (E : windowListeners s4 = windowListeners s
              /\ accessGuruListenersAdded s4 = accessGuruListenersAdded s).
  { unfold s4. destruct (listeners_highlight_all page (v :: vs)
        (populateViolationsList (v :: vs) (createSidePanel (setCurrentViolations s (v :: vs)))))
      as [-> ->].
    unfold populateViolationsList. simpl.
    apply (listeners_createSidePanel (setCurrentViolations s (v :: vs))). }
  destruct E as [E1 E2]. rewrite E2.
  destruct (accessGuruListenersAdded s); [exact E1 |].
  simpl. rewrite E1.
  destruct L as [-> | ->]; [apply addEventListener_fresh | apply addEventListener_again].
Qed.

Lemma listenersOnce_highlightViolations (page : Page) (vs : list Violation) (s : State) :
  listenersOnce s -> listenersOnce (highlightViolations page vs s).
Proof.
  intros L. destruct vs as [| v vs]; [exact L |].
  unfold listenersOnce. rewrite listeners_highlightViolations by exact L.
  destruct (accessGuruListenersAdded s); [exact L | now right].
Qed.

Lemma listenersOnce_removeAllOverlays (s : State) :
  listenersOnce s -> listenersOnce (removeAllOverlays s).
Proof.
  unfold listenersOnce. now destruct (listeners_removeAllOverlays s) as [-> _].
Qed.

Lemma listenersOnce_step (s : State) (ev : Event) : listenersOnce s -> listenersOnce (step s ev).
Proof.
  intros L. destruct ev; simpl; try exact L.
  - now apply listenersOnce_highlightViolations.
  - now apply listenersOnce_removeAllOverlays.
  - unfold accessGuruOpenSidebar. now destruct (sidePanel s).
  - unfold accessGuruHighlightSingle, accessGuruOpenSidebar.
    set (s' := highlightViolations _ _ _).
    assert (L' : listenersOnce s')
      by now apply listenersOnce_highlightViolations, listenersOnce_removeAllOverlays.
    now destruct (sidePanel s').
  - destruct (hasIcon icon (body s)); [| exact L].
    unfold showTooltip, createTooltip.
    destruct (tooltipElement s) eqn:T; simpl; [rewrite T |]; exact L.
  - destruct (hasIcon icon (body s)); [| exact L].
    unfold hideTooltip. now destruct (tooltipElement s).
Qed.

Lemma reachable_listenersOnce (s : State) : reachable s -> listenersOnce s.
Proof.
  apply reachable_ind'; [now left |].
  intros s' ev _ L. now apply listenersOnce_step.
Qed.

(** *** The accordion *)

Lemma isExpanded_closeEntry (e : AccordionEntry) : isExpanded (closeEntry e) = false.
Proof. reflexivity. Qed.

Lemma isExpanded_openEntry (h : nat) (e : AccordionEntry) :
  isExpanded (openEntry h e) = negb (h =? 0)%nat.
Proof. reflexivity. Qed.

Lemma isExpanded_newEntry (i : nat) (v : Violation) : isExpanded (newEntry i v) = false.
Proof. reflexivity. Qed.

Lemma not_expanded_all_closed (entries : list AccordionEntry) (i : nat) :
  ~ expandedAt (map closeEntry entries) i.
Proof.
  intros [e [H X]]. rewrite nth_error_map in H.
  destruct (nth_error entries i); simpl in H; [| discriminate].
  injection H as <-. discriminate.
Qed.

Lemma not_expanded_new (vs : list Violation) (i : nat) : ~ expandedAt (mapi newEntry vs) i.
Proof.
  intros [e [H X]]. rewrite mapi_nth_error in H.
  destruct (nth_error vs i); simpl in H; [| discriminate].
  injection H as <-. discriminate.
Qed.

Lemma atMostOne_nil : atMostOneExpanded [].
Proof. intros i j [e [H _]]. destruct i; discriminate. Qed.

Lemma atMostOne_new (vs : list Violation) : atMostOneExpanded (mapi newEntry vs).
Proof. intros i j H. now apply not_expanded_new in H. Qed.

(** A click on a header keeps at most one body expanded. *)
Lemma clickHeader_exclusive (k h : nat) (entries : list AccordionEntry) :
  atMostOneExpanded entries -> atMostOneExpanded (clickHeader k h entries).
Proof.
  intros A. unfold clickHeader.
  destruct (nth_error entries k) as [e |] eqn:E; [| exact A].
  assert (Lk : (k < List.length entries)%nat) by (apply nth_error_Some; congruence).
  destruct (isExpanded e) eqn:X.
  - (* the entry was open: it closes, nothing opens *)
    assert (Old : forall i, expandedAt (set_slot entries k (closeEntry e)) i ->
                            expandedAt entries i).
    { intros i [e' [H X']]. destruct (Nat.eq_dec k i) as [<- | N].
      - rewrite set_slot_same in H by exact Lk. injection H as <-. discriminate.
      - rewrite set_slot_other in H by exact N. now exists e'. }
    intros i j Hi Hj. apply A; now apply Old.
  - (* the entry was closed: every body closes, this one opens *)
    assert (Only : forall i, expandedAt (set_slot (map closeEntry entries) k (openEntry h e)) i ->
                             i = k).
    { intros i H. destruct (Nat.eq_dec k i) as [<- | N]; [reflexivity |].
      exfalso. destruct H as [e' [H X']]. rewrite set_slot_other in H by exact N.
      apply (not_expanded_all_closed entries i). now exists e'. }
    intros i j Hi Hj. apply Only in Hi, Hj. congruence.
Qed.

(** Expanding [b] while [a] is expanded closes [a] and opens [b]. *)
Lemma clickHeader_switch (a b h : nat) (entries : list AccordionEntry) :
  atMostOneExpanded entries ->
  a <> b -> expandedAt entries a -> (b < List.length entries)%nat -> (0 < h)%nat ->
  ~ expandedAt (clickHeader b h entries) a /\ expandedAt (clickHeader b h entries) b.
Proof.
  intros A N Ha Lb Hh. unfold clickHeader.
  destruct (nth_error entries b) as [e |] eqn:E;
    [| apply nth_error_None in E; lia].
  destruct (isExpanded e) eqn:X.
  - exfalso. apply N. apply A; [exact Ha | now exists e].
  - split.
    + intros [e' [H X']]. rewrite set_slot_other in H by congruence.
      apply (not_expanded_all_closed entries a). now exists e'.
    + exists (openEntry h e). split.
      * apply set_slot_same. now rewrite length_map.
      * rewrite isExpanded_openEntry. destruct (Nat.eqb_spec h 0); [lia | reflexivity].
Qed.

Lemma exclusive_nil : accordionsExclusive [].
Proof. intros n c es err []. Qed.

Lemma exclusive_app (b1 b2 : list DomNode) :
  accordionsExclusive b1 -> accordionsExclusive b2 -> accordionsExclusive (b1 ++ b2).
Proof.
  intros H1 H2 n c es err Hin K. apply in_app_iff in Hin as [Hin | Hin]; eauto.
Qed.

Lemma exclusive_subset (b b' : list DomNode) :
  (forall n, In n b' -> In n b) -> accordionsExclusive b -> accordionsExclusive b'.
Proof. intros S H n c es err Hin K. eapply H; eauto. Qed.

Lemma exclusive_change (g : DomNode -> DomNode) (f : NodeKind -> NodeKind) (b : list DomNode) :
  keepsExclusive f ->
  (forall n, g n = n \/ g n = {| nid := nid n; kind := f (kind n) |}) ->
  accordionsExclusive b -> accordionsExclusive (map g b).
Proof.
  intros [Ht Hf] Hg H n c es err Hin K.
  apply in_map_iff in Hin as [n0 [<- Hin0]].
  destruct (Hg n0) as [G | G]; rewrite G in K.
  - eapply H; eauto.
  - simpl in K. specialize (Ht (kind n0)). rewrite K in Ht.
    destruct (kind n0) as [| | | c0 es0 err0] eqn:K0; try discriminate.
    eapply Hf; [exact K |]. eapply H; eauto.
Qed.

Lemma exclusive_updatePanels (f : NodeKind -> NodeKind) (b : list DomNode) :
  keepsExclusive f -> accordionsExclusive b -> accordionsExclusive (updatePanels f b).
Proof.
  intros Hf. unfold updatePanels. apply (exclusive_change _ f); [exact Hf |].
  intros n. destruct (isSidePanel (kind n)); [now right | now left].
Qed.

Lemma exclusive_updateNode (i : nat) (f : NodeKind -> NodeKind) (b : list DomNode) :
  keepsExclusive f -> accordionsExclusive b -> accordionsExclusive (updateNode i f b).
Proof.
  intros Hf. unfold updateNode. apply (exclusive_change _ f); [exact Hf |].
  intros n. destruct (nid n =? i)%nat; [now right | now left].
Qed.

Lemma keeps_setDisplayed (d : bool) : keepsExclusive (setDisplayed d).
Proof.
  split; [apply tag_setDisplayed |]. simpl.
  intros c0 es err c' es' err' E A. injection E as _ <- _. exact A.
Qed.

Lemma keeps_setCollapsed (c : bool) : keepsExclusive (setCollapsed c).
Proof.
  split; [apply tag_setCollapsed |]. simpl.
  intros c0 es err c' es' err' E A. injection E as _ <- _. exact A.
Qed.

Lemma keeps_toggleCollapsed : keepsExclusive toggleCollapsed.
Proof.
  split; [apply tag_toggleCollapsed |]. simpl.
  intros c0 es err c' es' err' E A. injection E as _ <- _. exact A.
Qed.

Lemma keeps_clickHeaderInPanel (k h : nat) : keepsExclusive (clickHeaderInPanel k h).
Proof.
  split; [apply tag_clickHeaderInPanel |]. simpl.
  intros c es err c' es' err' E A. injection E as _ <- _. now apply clickHeader_exclusive.
Qed.

Lemma keeps_setList (vs : list Violation) : keepsExclusive (setList vs).
Proof.
  split; [apply tag_setList |]. simpl.
  intros c es err c' es' err' E _. destruct (forallb _ vs); injection E as _ <- _.
  - apply atMostOne_new.
  - apply atMostOne_nil.
Qed.

Lemma exclusive_createTooltip (s : State) :
  accordionsExclusive (body s) -> accordionsExclusive (body (createTooltip s)).
Proof.
  intros H. unfold createTooltip. destruct (tooltipElement s); [exact H |]. simpl.
  apply exclusive_app; [exact H |].
  intros n c es err [<- | []] K. discriminate.
Qed.

Lemma exclusive_createSidePanel (s : State) :
  accordionsExclusive (body s) -> accordionsExclusive (body (createSidePanel s)).
Proof.
  intros H. unfold createSidePanel. destruct (findPanel (body s)); [exact H |].
  destruct (sidePanel s); [exact H |]. simpl.
  apply exclusive_app; [exact H |].
  intros n c es err [<- | []] K. injection K as _ <- _. apply atMostOne_nil.
Qed.

Lemma exclusive_highlightNode (page : Page) (v : Violation) (s : State) (nd : AxeNode) :
  accordionsExclusive (body s) -> accordionsExclusive (body (highlightNode page v s nd)).
Proof.
  intros H. unfold highlightNode.
  destruct (target nd) as [[| sel rest] |]; try exact H.
  destruct (page sel) as [| | e]; try exact H.
  unfold createHighlight. destruct (hasSeverityColor (impact v)); [| exact H]. simpl.
  apply exclusive_app; [exact H |].
  intros n c es err [<- | [<- | []]] K; discriminate.
Qed.

Lemma exclusive_highlightViolation (page : Page) (s : State) (v : Violation) :
  accordionsExclusive (body s) -> accordionsExclusive (body (highlightViolation page s v)).
Proof.
  unfold highlightViolation. destruct (nodes v) as [ns |]; [| trivial].
  revert s. induction ns as [| nd ns IH]; intros s H; simpl; [exact H |].
  apply IH. now apply exclusive_highlightNode.
Qed.

Lemma exclusive_highlight_all (page : Page) (vs : list Violation) (s : State) :
  accordionsExclusive (body s) ->
  accordionsExclusive (body (fold_left (highlightViolation page) vs s)).
Proof.
  revert s. induction vs as [| v vs IH]; intros s H; simpl; [exact H |].
  apply IH. now apply exclusive_highlightViolation.
Qed.

Lemma body_addWindowListeners (s : State) : body (addWindowListeners s) = body s.
Proof. unfold addWindowListeners. now destruct (accessGuruListenersAdded s). Qed.

Lemma exclusive_highlightViolations (page : Page) (vs : list Violation) (s : State) :
  accordionsExclusive (body s) -> accordionsExclusive (body (highlightViolations page vs s)).
Proof.
  intros H. unfold highlightViolations. destruct vs as [| v vs]; [exact H |].
  rewrite body_addWindowListeners. apply exclusive_highlight_all.
  unfold populateViolationsList. simpl.
  apply exclusive_updatePanels; [apply keeps_setList |].
  now apply (exclusive_createSidePanel (setCurrentViolations s (v :: vs))).
Qed.

Lemma exclusive_openSidebar (s : State) :
  accordionsExclusive (body s) -> accordionsExclusive (body (accessGuruOpenSidebar s)).
Proof.
  intros H. unfold accessGuruOpenSidebar. destruct (sidePanel s); [| exact H]. simpl.
  now apply exclusive_updateNode; [apply keeps_setCollapsed |].
Qed.

Lemma exclusive_step (s : State) (ev : Event) :
  Consistent s -> accordionsExclusive (body s) -> accordionsExclusive (body (step s ev)).
Proof.
  intros C H. destruct ev; simpl.
  - now apply exclusive_highlightViolations.
  - rewrite (removeAllOverlays_clean s C). apply exclusive_nil.
  - now apply exclusive_openSidebar.
  - unfold accessGuruHighlightSingle.
    apply exclusive_openSidebar, exclusive_highlightViolations.
    rewrite (removeAllOverlays_clean s C). apply exclusive_nil.
  - now apply exclusive_updatePanels; [apply keeps_toggleCollapsed |].
  - now apply exclusive_updatePanels; [apply keeps_setCollapsed |].
  - now apply exclusive_updatePanels; [apply keeps_clickHeaderInPanel |].
  - destruct (hasIcon icon (body s)); [| exact H].
    unfold showTooltip. pose proof (exclusive_createTooltip s H) as H'.
    destruct (tooltipElement (createTooltip s)); [| exact H']. simpl.
    now apply exclusive_updateNode; [apply keeps_setDisplayed |].
  - destruct (hasIcon icon (body s)); [| exact H].
    unfold hideTooltip. destruct (tooltipElement s); [| exact H]. simpl.
    now apply exclusive_updateNode; [apply keeps_setDisplayed |].
Qed.

Lemma reachable_exclusive (s : State) : reachable s -> accordionsExclusive (body s).
Proof.
  revert s. apply (reachable_ind' (fun s => accordionsExclusive (body s)));
    [apply exclusive_nil |].
  intros s' ev R H. apply exclusive_step; [now apply reachable_consistent | exact H].
Qed.

Lemma panelEntries_exclusive (s : State) :
  accordionsExclusive (body s) -> atMostOneExpanded (panelEntries s).
Proof.
  intros H. unfold panelEntries.
  destruct (findPanel (body s)) as [n |] eqn:F; [| apply atMostOne_nil].
  apply findPanel_Some in F as [Hin _].
  destruct (kind n) as [| | | c es err] eqn:K; try apply atMostOne_nil.
  eapply H; eauto.
Qed.

Lemma findPanel_updatePanels (f : NodeKind -> NodeKind) (b : list DomNode) :
  (forall k, tagOf (f k) = tagOf k) ->
  findPanel (updatePanels f b)
  = option_map (fun n => {| nid := nid n; kind := f (kind n) |}) (findPanel b).
Proof.
  intros Ht. unfold findPanel, updatePanels.
  induction b as [| n b IH]; [reflexivity |]. simpl.
  destruct (isSidePanel (kind n)) eqn:P; simpl.
  - assert (P' : isSidePanel (f (kind n)) = true)
      by (apply isSidePanel_tag; rewrite Ht; now apply isSidePanel_tag).
    now rewrite P'.
  - rewrite P. exact IH.
Qed.

Lemma clickHeader_nil (k h : nat) : clickHeader k h [] = [].
Proof. unfold clickHeader. now destruct k. Qed.

Lemma panelEntries_click (s : State) (k h : nat) :
  panelEntries (step s (ClickAccordionHeader k h)) = clickHeader k h (panelEntries s).
Proof.
  unfold panelEntries. simpl.
  rewrite findPanel_updatePanels by apply tag_clickHeaderInPanel.
  destruct (findPanel (body s)) as [n |] eqn:F; [| now rewrite clickHeader_nil]. simpl.
  apply findPanel_Some in F as [_ T].
  destruct (kind n); try discriminate. reflexivity.
Qed.

Lemma findPanel_app (b new : list DomNode) :
  (forall n, In n new -> isSidePanel (kind n) = false) ->
  findPanel (b ++ new) = findPanel b.
Proof.
  intros H. unfold findPanel. induction b as [| n b IH]; simpl.
  - destruct (find _ new) as [n |] eqn:F; [| reflexivity].
    apply find_some in F as [Hin P]. rewrite (H n Hin) in P. discriminate.
  - destruct (isSidePanel (kind n)); [reflexivity | exact IH].
Qed.

Lemma findPanel_highlightNode (page : Page) (v : Violation) (s : State) (nd : AxeNode) :
  findPanel (body (highlightNode page v s nd)) = findPanel (body s).
Proof.
  unfold highlightNode.
  destruct (target nd) as [[| sel rest] |]; try reflexivity.
  destruct (page sel) as [| | e]; try reflexivity.
  unfold createHighlight. destruct (hasSeverityColor (impact v)); [| reflexivity]. simpl.
  apply findPanel_app. intros n [<- | [<- | []]]; reflexivity.
Qed.

Lemma findPanel_highlightViolation (page : Page) (s : State) (v : Violation) :
  findPanel (body (highlightViolation page s v)) = findPanel (body s).
Proof.
  unfold highlightViolation. destruct (nodes v) as [ns |]; [| reflexivity].
  revert s. induction ns as [| nd ns IH]; intros s; simpl; [reflexivity |].
  rewrite IH. apply findPanel_highlightNode.
Qed.

Lemma findPanel_highlight_all (page : Page) (vs : list Violation) (s : State) :
  findPanel (body (fold_left (highlightViolation page) vs s)) = findPanel (body s).
Proof.
  revert s. induction vs as [| v vs IH]; intros s; simpl; [reflexivity |].
  rewrite IH. apply findPanel_highlightViolation.
Qed.


End OverlayFacts.

(* ================================================================== *)
(** * The claims about the score *)

Import Popup ScoreFacts ScoreExamples Samples.

(** C7.  [instanceMultiplier] is 1 at 1, non-decreasing on all inputs,
    bounded by its value at 20, and constant beyond 20. *)
Theorem instanceMultiplier_monotone_and_capped :
  instanceMultiplier 1 = 1
  /\ (forall n m, n <= m -> instanceMultiplier n <= instanceMultiplier m)
  /\ (forall n, n <= 20 -> instanceMultiplier n <= instanceMultiplier 20)
  /\ (forall n, 20 < n -> instanceMultiplier n = instanceMultiplier 20).
Proof.
  split; [exact instanceMultiplier_1 |].
  split; [exact instanceMultiplier_mono |].
  split; [intros n H; now apply instanceMultiplier_mono |].
  exact instanceMultiplier_above_20.
Qed.

(** C10.  A finding whose list of nodes is absent or empty is not skipped:
    it counts as one instance, so its penalty is
    severityWeight * 1 * confidenceMultiplier, which is positive and is
    part of the total wherever the finding stands in the list. *)
Theorem finding_without_nodes_counts_once (v : Violation) :
  nodes v = None \/ nodes v = Some [] ->
  nodeCountOr1 v = 1
  /\ penalty v = severityWeight (getPredictedSeverityScore v) * 1
                 * confidenceMultiplier (getPredictionConfidence v)
  /\ 0 < penalty v
  /\ forall l1 l2,
       totalPenalty (l1 ++ v :: l2)
       = totalPenalty l1
         + severityWeight (getPredictedSeverityScore v) * 1
           * confidenceMultiplier (getPredictionConfidence v)
         + totalPenalty l2.
Proof.
  intros H.
  assert (N : nodeCountOr1 v = 1)
    by (unfold nodeCountOr1; destruct H as [-> | ->]; reflexivity).
  assert (P : penalty v = severityWeight (getPredictedSeverityScore v) * 1
                          * confidenceMultiplier (getPredictionConfidence v))
    by (unfold penalty; now rewrite N, instanceMultiplier_1).
  split; [exact N |]. split; [exact P |].
  split; [pose proof (penalty_bounds v); lra |].
  intros l1 l2. rewrite totalPenalty_insert, P. reflexivity.
Qed.

Lemma finding_without_nodes_witness :
  (nodes bareCritical = None \/ nodes bareCritical = Some [])
  /\ nodeCountOr1 bareCritical = 1
  /\ 0 < penalty bareCritical.
Proof.
  assert (H : nodes bareCritical = None \/ nodes bareCritical = Some [])
    by (left; reflexivity).
  split; [exact H |].
  destruct (finding_without_nodes_counts_once bareCritical H) as [N [_ [P _]]].
  split; [exact N | exact P].
Defined.

Lemma penalty_fallbackCritical : penalty fallbackCritical = 16.2.
Proof.
  unfold penalty, getPredictedSeverityScore, getPredictionConfidence, nodeCountOr1.
  simpl. rewrite instanceMultiplier_1.
  change (_mapImpactToScore "critical") with (JNum 5).
  unfold severityWeight, confidenceMultiplier, Rmax, Rmin.
  table; repeat destruct Rle_dec; lra.
Qed.

(** C4, as stated, fails: twenty-five critical findings, each with the
    fallback analysis, have a finite total penalty (405) and score 0. *)
Lemma score_zero_for_many_findings :
  totalPenalty (repeat fallbackCritical 25) = 405
  /\ computeAccessibilityScore0to100 (repeat fallbackCritical 25) = 0%Z.
Proof.
  assert (T : totalPenalty (repeat fallbackCritical 25) = 405).
  { rewrite totalPenalty_repeat, penalty_fallbackCritical. simpl INR. lra. }
  split; [exact T |].
  rewrite score_round_raw. apply Math_round_eq.
  rewrite rawScore_eq, T.
  assert (Lo : 300 <= exp (405 / 65)).
  { eapply Rle_trans; [| apply (exp_lower_pow 64); [lia | simpl; lra]].
    simpl INR. lra. }
  assert (Pos : 0 < 300) by lra.
  pose proof (scaled_exp_neg_bounds (405 / 65) 300 (exp (405 / 65)) Pos
                (conj Lo (Rle_refl _))) as [_ B].
  pose proof (exp_pos (- (405 / 65))).
  simpl. lra.
Qed.

(** C4, amended.  The score is never negative, and one finding alone,
    whatever its severity, its confidence and the number of its instances,
    scores at least 51: a single finding cannot force 0. *)
Theorem single_finding_cannot_force_zero :
  (forall vs, (0 <= computeAccessibilityScore0to100 vs)%Z)
  /\ (forall v, (51 <= computeAccessibilityScore0to100 [v])%Z).
Proof.
  split.
  - intros vs. rewrite score_round_raw. apply Math_round_lower.
    pose proof (rawScore_pos vs). simpl. lra.
  - intros v. rewrite score_round_raw. apply Math_round_lower.
    rewrite rawScore_eq, totalPenalty_cons, totalPenalty_nil, Rplus_0_r.
    pose proof (penalty_bounds v) as [L U].
    assert (Hi : exp (penalty v / 65) <= 1.98).
    { apply Rle_trans with (exp (44 / 65)); [apply exp_le; lra |].
      eapply Rle_trans; [apply (exp_upper_pow 64); [lia | simpl; lra] |].
      simpl INR. lra. }
    assert (Lo : 1 <= exp (penalty v / 65))
      by (pose proof (exp_ineq1_le (penalty v / 65)); lra).
    assert (One : 0 < 1) by lra.
    pose proof (scaled_exp_neg_bounds (penalty v / 65) 1 1.98 One (conj Lo Hi)) as [A _].
    simpl. lra.
Qed.

Lemma severityWeight_mono (s s' : R) :
  Spec.validSeverity s -> Spec.validSeverity s' -> s <= s' ->
  severityWeight (JNum s) <= severityWeight (JNum s').
Proof.
  unfold Spec.validSeverity, severityWeight.
  intros [-> | [-> | [-> | ->]]] [-> | [-> | [-> | ->]]] H; table.
Qed.

Lemma product_mono (w w' m c c' : R) :
  0 <= w <= w' -> 0 <= m -> 0 <= c <= c' -> w * m * c <= w' * m * c'.
Proof.
  intros [W0 W] M [C0 C].
  apply Rmult_le_compat; try assumption.
  - apply Rmult_le_pos; assumption.
  - apply Rmult_le_compat_r; assumption.
Qed.

Lemma rawScore_single (v : Violation) :
  rawScore [v] = 100 * exp (- (penalty v / 65)).
Proof. now rewrite rawScore_eq, totalPenalty_cons, totalPenalty_nil, Rplus_0_r. Qed.

(** The score of one finding of the lowest severity, for a penalty
    between 1.8 and 1.84. *)
Lemma score_97 (v : Violation) :
  1.8 <= penalty v <= 1.84 -> computeAccessibilityScore0to100 [v] = 97%Z.
Proof.
  intros [L U]. rewrite score_round_raw, rawScore_single. apply Math_round_eq.
  assert (Lo : 1.027 <= exp (penalty v / 65))
    by (pose proof (exp_ineq1_le (penalty v / 65)); lra).
  assert (Hi : exp (penalty v / 65) <= 1.03).
  { apply Rle_trans with (exp (1.84 / 65)); [apply exp_le; lra |].
    eapply Rle_trans; [apply (exp_upper_pow 1); [lia | simpl; lra] |].
    simpl INR. lra. }
  assert (Pos : 0 < 1.027) by lra.
  pose proof (scaled_exp_neg_bounds _ _ _ Pos (conj Lo Hi)) as [A B].
  simpl. lra.
Qed.

(** C5, as stated, fails: raising the confidence of a finding from 0.75 to
    0.8, everything else fixed, leaves the score at 97. *)
Lemma score_not_strictly_decreasing :
  getPredictionConfidence (finding "minor" 2 0.75 1)
  < getPredictionConfidence (finding "minor" 2 0.8 1)
  /\ getPredictedSeverityScore (finding "minor" 2 0.75 1)
     = getPredictedSeverityScore (finding "minor" 2 0.8 1)
  /\ nodes (finding "minor" 2 0.75 1) = nodes (finding "minor" 2 0.8 1)
  /\ computeAccessibilityScore0to100 [finding "minor" 2 0.8 1]
     = computeAccessibilityScore0to100 [finding "minor" 2 0.75 1].
Proof.
  split; [rewrite !confidence_finding by lra; lra |].
  split; [reflexivity |]. split; [reflexivity |].
  rewrite !score_97; [reflexivity | |];
    rewrite penalty_finding by (try lra; lia); simpl INR; rewrite instanceMultiplier_1;
    unfold severityWeight, confidenceMultiplier; table.
Qed.

(** C5, amended.  The score of every list of findings lies in [0, 100].
    When one finding of a list is replaced by one with the same number of
    instances and with a severity (among 2..5) and a confidence that are
    not lower, the score does not increase. *)
Theorem score_bounded_and_antitone :
  (forall vs, (0 <= computeAccessibilityScore0to100 vs <= 100)%Z)
  /\ (forall l1 l2 v v' s s',
        nodeCountOr1 v = nodeCountOr1 v' ->
        getPredictedSeverityScore v = JNum s ->
        getPredictedSeverityScore v' = JNum s' ->
        Spec.validSeverity s -> Spec.validSeverity s' -> s <= s' ->
        getPredictionConfidence v <= getPredictionConfidence v' ->
        (computeAccessibilityScore0to100 (l1 ++ v' :: l2)
         <= computeAccessibilityScore0to100 (l1 ++ v :: l2))%Z).
Proof.
  split.
  - intros vs. rewrite score_round_raw.
    pose proof (rawScore_pos vs). pose proof (rawScore_le_100 vs).
    split; [apply Math_round_lower; simpl; lra | apply Math_round_upper; simpl; lra].
  - intros l1 l2 v v' s s' N E E' V V' S C.
    pose proof (severityWeight_bounds (JNum s)) as [W1 _].
    pose proof (instanceMultiplier_bounds (nodeCountOr1 v')) as [M1 _].
    pose proof (confidence_bounds v) as [C1 _].
    pose proof (severityWeight_mono _ _ V V' S) as W.
    assert (P : penalty v <= penalty v').
    { unfold penalty. rewrite N, E, E'.
      apply product_mono; unfold confidenceMultiplier; lra. }
    rewrite !score_round_raw. apply Math_round_le, rawScore_antitone.
    rewrite !totalPenalty_insert. lra.
Qed.

Lemma score_bounded_and_antitone_witness :
  (0 <= computeAccessibilityScore0to100 [finding "minor" 2 0.75 1] <= 100)%Z
  /\ (computeAccessibilityScore0to100 [finding "minor" 3 0.8 1]
      <= computeAccessibilityScore0to100 [finding "minor" 2 0.75 1])%Z.
Proof.
  assert (N : nodeCountOr1 (finding "minor" 2 0.75 1) = nodeCountOr1 (finding "minor" 3 0.8 1))
    by reflexivity.
  assert (V : Spec.validSeverity 2) by (left; reflexivity).
  assert (V' : Spec.validSeverity 3) by (right; left; reflexivity).
  assert (S : 2 <= 3) by lra.
  assert (C : getPredictionConfidence (finding "minor" 2 0.75 1)
              <= getPredictionConfidence (finding "minor" 3 0.8 1))
    by (rewrite !confidence_finding by lra; lra).
  destruct score_bounded_and_antitone as [B A].
  split; [apply B | exact (A [] [] _ _ 2 3 N eq_refl eq_refl V V' S C)].
Defined.

(* ================================================================== *)
(** * The claims about enrichment and the report *)

Import ReportFacts.

Lemma sampleWorld_completes (probeOk : bool) (ts : string) (i : nat) :
  (i < 2)%nat -> In i (completion (sampleWorld probeOk ts)).
Proof. intros H. simpl. lia. Qed.

(** C6, as stated, fails: two runs over the same findings that yield the
    same enriched findings return different reports when the clock has
    moved in between. *)
Lemma report_differs_with_the_clock :
  option_map r_violations
    (enhanceWithML (sampleWorld false "2024-05-01T10:00:00.000Z") sampleScan)
  = option_map r_violations
      (enhanceWithML (sampleWorld false "2024-05-01T10:00:05.000Z") sampleScan)
  /\ enhanceWithML (sampleWorld false "2024-05-01T10:00:00.000Z") sampleScan
     <> enhanceWithML (sampleWorld false "2024-05-01T10:00:05.000Z") sampleScan.
Proof.
  rewrite !enhanceWithML_returns by apply sampleWorld_completes.
  split; [reflexivity |].
  intros E. apply (f_equal (option_map timestamp)) in E. simpl in E. discriminate.
Qed.

(** C6, amended.  The score, the counts and the average impact of a report
    are determined by its enriched findings alone: two runs that yield the
    same enriched findings agree on them, whatever the services, the
    scheduler and the clock did.  The timestamp is the reading of the clock
    and the source URL is that of the scan. *)
Theorem report_numbers_determined_by_findings
        (w1 w2 : World) (scan1 scan2 : AxeResults) (r1 r2 : Report) :
  enhanceWithML w1 scan1 = Some r1 ->
  enhanceWithML w2 scan2 = Some r2 ->
  r_violations r1 = r_violations r2 ->
  r_score r1 = r_score r2
  /\ r_score r1 = computeAccessibilityScore0to100 (r_violations r1)
  /\ totalViolations r1 = totalViolations r2
  /\ criticalCount r1 = criticalCount r2
  /\ seriousCount r1 = seriousCount r2
  /\ moderateCount r1 = moderateCount r2
  /\ avgImpact r1 = avgImpact r2
  /\ timestamp r1 = now w1
  /\ r_url r1 = ar_url scan1.
Proof.
  intros H1 H2 E.
  pose proof (report_counts w1 scan1 r1 H1) as [S1 [T1 [C1 [Se1 [M1 A1]]]]].
  pose proof (report_counts w2 scan2 r2 H2) as [S2 [T2 [C2 [Se2 [M2 A2]]]]].
  apply enhanceWithML_inv in H1. cbv zeta in H1.
  split; [congruence |]. split; [exact S1 |].
  split; [congruence |]. split; [congruence |].
  split; [congruence |]. split; [congruence |].
  split; [rewrite A1, A2, E; reflexivity |].
  split; rewrite H1; reflexivity.
Qed.

Lemma report_numbers_witness :
  option_map r_score (enhanceWithML (sampleWorld false "2024-05-01T10:00:00.000Z") sampleScan)
  = option_map r_score
      (enhanceWithML (sampleWorld false "2024-05-01T10:00:05.000Z") sampleScan).
Proof.
  pose proof (enhanceWithML_returns (sampleWorld false "2024-05-01T10:00:00.000Z") sampleScan
                (sampleWorld_completes _ _)) as H1.
  pose proof (enhanceWithML_returns (sampleWorld false "2024-05-01T10:00:05.000Z") sampleScan
                (sampleWorld_completes _ _)) as H2.
  cbv zeta in H1, H2.
  destruct (report_numbers_determined_by_findings _ _ _ _ _ _ H1 H2 eq_refl) as [S _].
  rewrite H1, H2. exact (f_equal Some S).
Defined.










(* ================================================================== *)
(** * The claims about the overlay *)

Import Overlay OverlayFacts.




(** C8, as stated, fails: after an activation and [removeAllOverlays] the
    scroll and resize listeners are still registered on [window]. *)
Lemma listeners_survive_teardown :
  windowListeners (run [CallHighlight samplePage [liveFinding]; CallRemoveOverlays] injected)
  = [resizeListener; scrollListener]
  /\ body (run [CallHighlight samplePage [liveFinding]; CallRemoveOverlays] injected) = [].
Proof. split; reflexivity. Qed.

(** C8, amended.  In every reachable state [removeAllOverlays] removes
    every node the script put into the document, clears the variables
    that name them and resets the two flags; it leaves the listeners of
    [window] registered.  The next activation finds a clean document: on
    the same findings and page it creates the highlight entries of a first
    activation, and [window] has each of the two listeners once. *)
Theorem teardown_then_activation_starts_clean
        (s : State) (page : Page) (vs : list Violation) :
  reachable s ->
  let s' := removeAllOverlays s in
  body s' = []
  /\ overlayElements s' = []
  /\ tooltipElement s' = None
  /\ sidePanel s' = None
  /\ accessGuruListenersAdded s' = false
  /\ accessGuruOverlayInjected s' = false
  /\ windowListeners s' = windowListeners s
  /\ highlightEntries (highlightViolations page vs s')
     = highlightEntries (highlightViolations page vs injected)
  /\ List.length (highlightEntries (highlightViolations page vs s'))
     = List.length (correlate page vs)
  /\ (vs <> [] ->
      windowListeners (highlightViolations page vs s') = [resizeListener; scrollListener]).
Proof.
  intros R s'.
  pose proof (reachable_consistent s R) as C.
  pose proof (reachable_listenersOnce s R) as L.
  assert (E : s' = {| body := [];
                      overlayElements := [];
                      tooltipElement := None;
                      sidePanel := None;
                      currentViolations := currentViolations s;
                      windowListeners := windowListeners s;
                      accessGuruListenersAdded := false;
                      accessGuruOverlayInjected := false;
                      nextNode := nextNode s |})
    by (unfold s'; now apply removeAllOverlays_clean).
  assert (H : highlightEntries (highlightViolations page vs s') = correlate page vs)
    by (rewrite entries_highlightViolations, E; reflexivity).
  rewrite H, entries_highlightViolations. rewrite E at 1 2 3 4 5 6 7. simpl.
  repeat (split; [reflexivity |]).
  intros N. destruct vs as [| v vs]; [contradiction |].
  rewrite listeners_highlightViolations.
  - rewrite E. reflexivity.
  - rewrite E. exact L.
Qed.

Lemma teardown_then_activation_witness :
  body (removeAllOverlays
          (run [CallHighlight samplePage [liveFinding]; MouseEnterIcon 2] injected)) = []
  /\ List.length
       (highlightEntries
          (highlightViolations samplePage [liveFinding]
             (removeAllOverlays
                (run [CallHighlight samplePage [liveFinding]; MouseEnterIcon 2] injected))))
     = List.length (correlate samplePage [liveFinding]).
Proof.
  assert (R : reachable (run [CallHighlight samplePage [liveFinding]; MouseEnterIcon 2] injected))
    by (eexists; reflexivity).
  destruct (teardown_then_activation_starts_clean _ samplePage [liveFinding] R)
    as [B [_ [_ [_ [_ [_ [_ [_ [N _]]]]]]]]].
  split; [exact B | exact N].
Defined.

(** C9.  In every reachable state at most one entry of the accordion is
    expanded, and a click on a header keeps it so; a click on the header
    of [b] while another entry [a] is expanded leaves [a] collapsed and
    [b] expanded. *)
Theorem accordion_has_one_open_entry (s : State) :
  reachable s ->
  atMostOneExpanded (panelEntries s)
  /\ (forall k h, atMostOneExpanded (panelEntries (step s (ClickAccordionHeader k h))))
  /\ (forall a b h,
        a <> b -> expandedAt (panelEntries s) a ->
        (b < List.length (panelEntries s))%nat -> (0 < h)%nat ->
        ~ expandedAt (panelEntries (step s (ClickAccordionHeader b h))) a
        /\ expandedAt (panelEntries (step s (ClickAccordionHeader b h))) b).
Proof.
  intros R.
  assert (A : atMostOneExpanded (panelEntries s))
    by now apply panelEntries_exclusive, reachable_exclusive.
  split; [exact A |]. split.
  - intros k h. rewrite panelEntries_click. now apply clickHeader_exclusive.
  - intros a b h N Ha Lb Hh. rewrite panelEntries_click. now apply clickHeader_switch.
Qed.

Lemma accordion_has_one_open_entry_witness :
  expandedAt
    (panelEntries
       (run [CallHighlight samplePage [staleFirst; liveFinding]; ClickAccordionHeader 0 120]
            injected)) 0
  /\ ~ expandedAt
       (panelEntries
          (run [CallHighlight samplePage [staleFirst; liveFinding];
                ClickAccordionHeader 0 120; ClickAccordionHeader 1 80] injected)) 0
  /\ expandedAt
       (panelEntries
          (run [CallHighlight samplePage [staleFirst; liveFinding];
                ClickAccordionHeader 0 120; ClickAccordionHeader 1 80] injected)) 1.
Proof.
  set (s := run [CallHighlight samplePage [staleFirst; liveFinding]; ClickAccordionHeader 0 120]
                injected).
  assert (R : reachable s) by (eexists; reflexivity).
  assert (Ha : expandedAt (panelEntries s) 0) by (eexists; split; reflexivity).
  assert (N : 0%nat <> 1%nat) by discriminate.
  assert (Lb : (1 < List.length (panelEntries s))%nat) by (simpl; lia).
  assert (Hh : (0 < 80)%nat) by lia.
  destruct (accordion_has_one_open_entry s R) as [_ [_ Sw]].
  destruct (Sw 0%nat 1%nat 80%nat N Ha Lb Hh) as [Ca Eb].
  split; [exact Ha |]. split; [exact Ca | exact Eb].
Defined.

(* ================================================================== *)
(** * Further properties of the overlay *)

(** *** Identities are unique, the tooltip and the panel are singletons *)

Lemma shapes_setBody (s : State) (b : list DomNode) : shapes (setBody s b) = map shape b.
Proof. reflexivity. Qed.

Lemma NoDup_app_fresh (ids new : list nat) :
  NoDup ids -> NoDup new -> (forall i, In i new -> ~ In i ids) -> NoDup (ids ++ new).
Proof.
  intros Hi Hn Hf. induction ids as [| x ids IH]; simpl; [exact Hn |].
  inversion Hi as [| y l Hx Hl]; subst. constructor.
  - rewrite in_app_iff. intros [H | H]; [contradiction |].
    apply (Hf x H). now left.
  - apply IH; [exact Hl |]. intros i Hin Hc. apply (Hf i Hin). now right.
Qed.

Lemma fresh_not_in_shapes (s : State) (i : nat) :
  Consistent s -> (nextNode s <= i)%nat -> ~ In i (map fst (shapes s)).
Proof.
  intros C L H. apply in_map_iff in H as [[j t] [E H]]. simpl in E. subst j.
  apply (body_fresh s C) in H. lia.
Qed.

Lemma uniqueIds_createTooltip (s : State) :
  Consistent s -> uniqueIds s -> uniqueIds (createTooltip s).
Proof.
  intros C U. unfold createTooltip. destruct (tooltipElement s); [exact U |].
  unfold uniqueIds, shapes. simpl. rewrite !map_app. simpl.
  apply NoDup_app_fresh; [exact U | repeat constructor; simpl; tauto |].
  intros i [<- | []]. now apply fresh_not_in_shapes.
Qed.

Lemma uniqueIds_createSidePanel (s : State) :
  Consistent s -> uniqueIds s -> uniqueIds (createSidePanel s).
Proof.
  intros C U. unfold createSidePanel. destruct (findPanel (body s)); [exact U |].
  destruct (sidePanel s); [exact U |].
  unfold uniqueIds, shapes. simpl. rewrite !map_app. simpl.
  apply NoDup_app_fresh; [exact U | repeat constructor; simpl; tauto |].
  intros i [<- | []]. now apply fresh_not_in_shapes.
Qed.

Lemma uniqueIds_highlightNode (page : Page) (v : Violation) (s : State) (nd : AxeNode) :
  Consistent s -> uniqueIds s -> uniqueIds (highlightNode page v s nd).
Proof.
  intros C U. unfold highlightNode.
  destruct (target nd) as [[| sel rest] |]; try exact U.
  destruct (page sel) as [| | e]; try exact U.
  unfold createHighlight. destruct (hasSeverityColor (impact v)); [| exact U].
  unfold uniqueIds, shapes. simpl. rewrite !map_app. simpl.
  apply NoDup_app_fresh; [exact U | |].
  - constructor; [simpl; intros [H | []]; lia | repeat constructor; simpl; tauto].
  - intros i [<- | [<- | []]]; apply fresh_not_in_shapes; trivial; lia.
Qed.

Lemma sound_highlightViolation (page : Page) (s : State) (v : Violation) :
  Consistent s /\ uniqueIds s ->
  Consistent (highlightViolation page s v) /\ uniqueIds (highlightViolation page s v).
Proof.
  unfold highlightViolation. destruct (nodes v) as [ns |]; [| trivial].
  revert s. induction ns as [| nd ns IH]; intros s [C U]; simpl; [now split |].
  apply IH. split; [now apply consistent_highlightNode | now apply uniqueIds_highlightNode].
Qed.

Lemma sound_highlight_all (page : Page) (vs : list Violation) (s : State) :
  Consistent s /\ uniqueIds s ->
  Consistent (fold_left (highlightViolation page) vs s)
  /\ uniqueIds (fold_left (highlightViolation page) vs s).
Proof.
  revert s. induction vs as [| v vs IH]; intros s H; simpl; [exact H |].
  apply IH. now apply sound_highlightViolation.
Qed.

Lemma uniqueIds_highlightViolations (page : Page) (vs : list Violation) (s : State) :
  Consistent s -> uniqueIds s -> uniqueIds (highlightViolations page vs s).
Proof.
  intros C U. unfold highlightViolations. destruct vs as [| v vs]; [exact U |].
  unfold uniqueIds. unfold shapes. rewrite body_addWindowListeners.
  set (s1 := setCurrentViolations s (v :: vs)).
  assert (C1 : Consistent s1) by (apply (consistent_same_shapes s); try reflexivity; exact C).
  assert (U1 : uniqueIds s1) by exact U.
  pose proof (consistent_createSidePanel s1 C1) as C2.
  pose proof (uniqueIds_createSidePanel s1 C1 U1) as U2.
  pose proof (consistent_populate (v :: vs) _ C2) as C3.
  assert (U3 : uniqueIds (populateViolationsList (v :: vs) (createSidePanel s1))).
  { unfold uniqueIds, populateViolationsList. rewrite shapes_setBody.
    rewrite updatePanels_shapes by apply tag_setList. exact U2. }
  exact (proj2 (sound_highlight_all page (v :: vs) _ (conj C3 U3))).
Qed.

Lemma uniqueIds_removeAllOverlays (s : State) :
  Consistent s -> uniqueIds (removeAllOverlays s).
Proof. intros C. rewrite (removeAllOverlays_clean s C). constructor. Qed.

Lemma uniqueIds_updateNode (s : State) (i : nat) (f : NodeKind -> NodeKind) :
  (forall k, tagOf (f k) = tagOf k) ->
  uniqueIds s -> uniqueIds (setBody s (updateNode i f (body s))).
Proof.
  intros H U. unfold uniqueIds. rewrite shapes_setBody, updateNode_shapes by exact H. exact U.
Qed.

Lemma uniqueIds_updatePanels (s : State) (f : NodeKind -> NodeKind) :
  (forall k, tagOf (f k) = tagOf k) ->
  uniqueIds s -> uniqueIds (setBody s (updatePanels f (body s))).
Proof.
  intros H U. unfold uniqueIds. rewrite shapes_setBody, updatePanels_shapes by exact H. exact U.
Qed.

Lemma uniqueIds_openSidebar (s : State) : uniqueIds s -> uniqueIds (accessGuruOpenSidebar s).
Proof.
  intros U. unfold accessGuruOpenSidebar. destruct (sidePanel s); [| exact U].
  now apply uniqueIds_updateNode; [apply tag_setCollapsed |].
Qed.

Lemma uniqueIds_step (s : State) (ev : Event) :
  Consistent s -> uniqueIds s -> uniqueIds (step s ev).
Proof.
  intros C U. destruct ev; simpl.
  - now apply uniqueIds_highlightViolations.
  - now apply uniqueIds_removeAllOverlays.
  - now apply uniqueIds_openSidebar.
  - unfold accessGuruHighlightSingle. apply uniqueIds_openSidebar.
    apply uniqueIds_highlightViolations;
      [now apply consistent_removeAllOverlays | now apply uniqueIds_removeAllOverlays].
  - now apply uniqueIds_updatePanels; [apply tag_toggleCollapsed |].
  - now apply uniqueIds_updatePanels; [apply tag_setCollapsed |].
  - now apply uniqueIds_updatePanels; [apply tag_clickHeaderInPanel |].
  - destruct (hasIcon icon (body s)); [| exact U].
    unfold showTooltip. pose proof (uniqueIds_createTooltip s C U) as U'.
    destruct (tooltipElement (createTooltip s)); [| exact U'].
    now apply uniqueIds_updateNode; [apply tag_setDisplayed |].
  - destruct (hasIcon icon (body s)); [| exact U].
    unfold hideTooltip. destruct (tooltipElement s); [| exact U].
    now apply uniqueIds_updateNode; [apply tag_setDisplayed |].
Qed.

Lemma reachable_uniqueIds (s : State) : reachable s -> uniqueIds s.
Proof.
  revert s. apply (reachable_ind' uniqueIds); [constructor |].
  intros s ev R U. apply uniqueIds_step; [now apply reachable_consistent | exact U].
Qed.

Lemma filter_at_most_one (t : Tag) (i0 : nat) (l : list (nat * Tag)) :
  NoDup (map fst l) ->
  (forall i, In (i, t) l -> i = i0) ->
  (List.length (filter (fun it => tagEqb (snd it) t) l) <= 1)%nat.
Proof.
  intros N H. induction l as [| [i t'] l IH]; simpl; [lia |].
  inversion N as [| x xs Hx Hl]; subst.
  assert (IHl : (List.length (filter (fun it => tagEqb (snd it) t) l) <= 1)%nat).
  { apply IH; [exact Hl |]. intros j Hj. apply H. now right. }
  destruct (tagEqb t' t) eqn:E; simpl; [| exact IHl].
  assert (Et : t' = t) by (destruct t', t; simpl in E; congruence). subst t'.
  assert (Ei : i = i0) by (apply H; now left). subst i.
  assert (Z : filter (fun it => tagEqb (snd it) t) l = []).
  { apply nil_if_no_member. intros [j tj] Hj. apply filter_In in Hj as [Hj Ej]. simpl in Ej.
    assert (tj = t) by (destruct tj, t; simpl in Ej; congruence). subst tj.
    assert (j = i0) by (apply H; now right). subst j.
    apply Hx. simpl. apply in_map_iff. exists (i0, t). now split. }
  rewrite Z. simpl. lia.
Qed.

Lemma filter_none (t : Tag) (l : list (nat * Tag)) :
  (forall i, ~ In (i, t) l) ->
  List.length (filter (fun it => tagEqb (snd it) t) l) = 0%nat.
Proof.
  intros H. rewrite (nil_if_no_member (filter (fun it => tagEqb (snd it) t) l)); [reflexivity |].
  intros [j tj] Hj. apply filter_In in Hj as [Hj Ej]. simpl in Ej.
  assert (tj = t) by (destruct tj, t; simpl in Ej; congruence). subst tj.
  now apply (H j).
Qed.

(** X1.  In every reachable state the nodes of the overlay have distinct
    identities and the document holds at most one tooltip and at most one
    side panel; without a tooltip variable there is no tooltip node, and
    without a panel variable no panel node. *)
Theorem tooltip_and_panel_are_singletons (s : State) :
  reachable s ->
  uniqueIds s
  /\ (countTag TagTooltip s <= 1)%nat
  /\ (countTag TagPanel s <= 1)%nat
  /\ (tooltipElement s = None -> countTag TagTooltip s = 0%nat)
  /\ (sidePanel s = None -> countTag TagPanel s = 0%nat).
Proof.
  intros R.
  pose proof (reachable_consistent s R) as C.
  pose proof (reachable_uniqueIds s R) as U.
  split; [exact U |]. unfold countTag.
  assert (T0 : tooltipElement s = None -> forall i, ~ In (i, TagTooltip) (shapes s)).
  { intros N i H. apply (tooltip_known s C) in H. destruct H as [H _].
    specialize (H eq_refl). congruence. }
  assert (P0 : sidePanel s = None -> forall i, ~ In (i, TagPanel) (shapes s)).
  { intros N i H. apply (panel_known s C) in H. destruct H as [H _].
    specialize (H eq_refl). congruence. }
  split; [| split; [| split]].
  - destruct (tooltipElement s) as [t |] eqn:T.
    + apply (filter_at_most_one TagTooltip t); [exact U |].
      intros i H. apply (tooltip_known s C) in H. destruct H as [H _].
      specialize (H eq_refl). congruence.
    + rewrite filter_none; [lia | now apply T0].
  - destruct (sidePanel s) as [p |] eqn:P.
    + apply (filter_at_most_one TagPanel p); [exact U |].
      intros i H. apply (panel_known s C) in H. destruct H as [H _].
      specialize (H eq_refl). congruence.
    + rewrite filter_none; [lia | now apply P0].
  - intros N. apply filter_none. now apply T0.
  - intros N. apply filter_none. now apply P0.
Qed.

Lemma tooltip_and_panel_witness :
  (countTag TagTooltip
     (run [CallHighlight samplePage [liveFinding]; MouseEnterIcon 2; MouseEnterIcon 2;
           CallHighlight samplePage [liveFinding]] injected) <= 1)%nat
  /\ (countTag TagPanel
        (run [CallHighlight samplePage [liveFinding]; MouseEnterIcon 2; MouseEnterIcon 2;
              CallHighlight samplePage [liveFinding]] injected) <= 1)%nat.
Proof.
  assert (R : reachable (run [CallHighlight samplePage [liveFinding]; MouseEnterIcon 2;
                              MouseEnterIcon 2; CallHighlight samplePage [liveFinding]]
                             injected))
    by (eexists; reflexivity).
  destruct (tooltip_and_panel_are_singletons _ R) as [_ [T [P _]]].
  split; [exact T | exact P].
Defined.

(** *** Highlights and icons come in pairs *)

Lemma iconsOf_app (b1 b2 : list DomNode) : iconsOf (b1 ++ b2) = iconsOf b1 ++ iconsOf b2.
Proof. apply flat_map_app. Qed.

Lemma paired_app (b1 b2 : list DomNode) : paired b1 -> paired b2 -> paired (b1 ++ b2).
Proof.
  unfold paired. intros H1 H2. now rewrite iconsOf_app, entriesOf_app, map_app, H1, H2.
Qed.

Lemma keepsOverlay_node (f : NodeKind -> NodeKind) (n : DomNode) :
  keepsOverlay f ->
  entriesOf [{| nid := nid n; kind := f (kind n) |}] = entriesOf [n]
  /\ iconsOf [{| nid := nid n; kind := f (kind n) |}] = iconsOf [n].
Proof.
  intros [Ht [Hh Hi]]. unfold entriesOf, iconsOf. simpl.
  specialize (Ht (kind n)).
  destruct (kind n) as [e v nd | v nd | d | c es err] eqn:K.
  - now rewrite Hh.
  - now rewrite Hi.
  - destruct (f (Tooltip d)); simpl in Ht; try discriminate. now split.
  - destruct (f (SidePanel c es err)); simpl in Ht; try discriminate. now split.
Qed.

Lemma overlay_kept_by_map (g : DomNode -> DomNode) (f : NodeKind -> NodeKind)
      (b : list DomNode) :
  keepsOverlay f ->
  (forall n, g n = n \/ g n = {| nid := nid n; kind := f (kind n) |}) ->
  entriesOf (map g b) = entriesOf b /\ iconsOf (map g b) = iconsOf b.
Proof.
  intros Hf Hg. induction b as [| n b [IH1 IH2]]; [now split |].
  change (map g (n :: b)) with ([g n] ++ map g b).
  change (n :: b) with ([n] ++ b).
  rewrite !entriesOf_app, !iconsOf_app, IH1, IH2.
  destruct (Hg n) as [-> | ->]; [now split |].
  destruct (keepsOverlay_node f n Hf) as [-> ->]. now split.
Qed.

Lemma keepsOverlay_setDisplayed (d : bool) : keepsOverlay (setDisplayed d).
Proof. split; [apply tag_setDisplayed | now split]. Qed.

Lemma keepsOverlay_setCollapsed (c : bool) : keepsOverlay (setCollapsed c).
Proof. split; [apply tag_setCollapsed | now split]. Qed.

Lemma keepsOverlay_toggleCollapsed : keepsOverlay toggleCollapsed.
Proof. split; [apply tag_toggleCollapsed | now split]. Qed.

Lemma keepsOverlay_clickHeaderInPanel (k h : nat) : keepsOverlay (clickHeaderInPanel k h).
Proof. split; [apply tag_clickHeaderInPanel | now split]. Qed.

Lemma keepsOverlay_setList (vs : list Violation) : keepsOverlay (setList vs).
Proof. split; [apply tag_setList | now split]. Qed.

Lemma overlay_kept_updatePanels (f : NodeKind -> NodeKind) (b : list DomNode) :
  keepsOverlay f ->
  entriesOf (updatePanels f b) = entriesOf b /\ iconsOf (updatePanels f b) = iconsOf b.
Proof.
  intros Hf. unfold updatePanels. apply (overlay_kept_by_map _ f); [exact Hf |].
  intros n. destruct (isSidePanel (kind n)); [now right | now left].
Qed.

Lemma overlay_kept_updateNode (i : nat) (f : NodeKind -> NodeKind) (b : list DomNode) :
  keepsOverlay f ->
  entriesOf (updateNode i f b) = entriesOf b /\ iconsOf (updateNode i f b) = iconsOf b.
Proof.
  intros Hf. unfold updateNode. apply (overlay_kept_by_map _ f); [exact Hf |].
  intros n. destruct (nid n =? i)%nat; [now right | now left].
Qed.

Lemma paired_updatePanels (f : NodeKind -> NodeKind) (b : list DomNode) :
  keepsOverlay f -> paired b -> paired (updatePanels f b).
Proof.
  intros Hf P. unfold paired. destruct (overlay_kept_updatePanels f b Hf) as [-> ->]. exact P.
Qed.

Lemma paired_updateNode (i : nat) (f : NodeKind -> NodeKind) (b : list DomNode) :
  keepsOverlay f -> paired b -> paired (updateNode i f b).
Proof.
  intros Hf P. unfold paired. destruct (overlay_kept_updateNode i f b Hf) as [-> ->]. exact P.
Qed.

Lemma paired_createTooltip (s : State) : paired (body s) -> paired (body (createTooltip s)).
Proof.
  intros P. unfold createTooltip. destruct (tooltipElement s); [exact P |]. simpl.
  apply paired_app; [exact P | reflexivity].
Qed.

Lemma paired_createSidePanel (s : State) : paired (body s) -> paired (body (createSidePanel s)).
Proof.
  intros P. unfold createSidePanel. destruct (findPanel (body s)); [exact P |].
  destruct (sidePanel s); [exact P |]. simpl.
  apply paired_app; [exact P | reflexivity].
Qed.

Lemma paired_highlightNode (page : Page) (v : Violation) (s : State) (nd : AxeNode) :
  paired (body s) -> paired (body (highlightNode page v s nd)).
Proof.
  intros P. unfold highlightNode.
  destruct (target nd) as [[| sel rest] |]; try exact P.
  destruct (page sel) as [| | e]; try exact P.
  unfold createHighlight. destruct (hasSeverityColor (impact v)); [| exact P]. simpl.
  apply paired_app; [exact P | reflexivity].
Qed.

Lemma paired_highlightViolation (page : Page) (s : State) (v : Violation) :
  paired (body s) -> paired (body (highlightViolation page s v)).
Proof.
  unfold highlightViolation. destruct (nodes v) as [ns |]; [| trivial].
  revert s. induction ns as [| nd ns IH]; intros s P; simpl; [exact P |].
  apply IH. now apply paired_highlightNode.
Qed.

Lemma paired_highlight_all (page : Page) (vs : list Violation) (s : State) :
  paired (body s) -> paired (body (fold_left (highlightViolation page) vs s)).
Proof.
  revert s. induction vs as [| v vs IH]; intros s P; simpl; [exact P |].
  apply IH. now apply paired_highlightViolation.
Qed.

Lemma paired_highlightViolations (page : Page) (vs : list Violation) (s : State) :
  paired (body s) -> paired (body (highlightViolations page vs s)).
Proof.
  intros P. unfold highlightViolations. destruct vs as [| v vs]; [exact P |].
  rewrite body_addWindowListeners. apply paired_highlight_all.
  unfold populateViolationsList. simpl.
  apply paired_updatePanels; [apply keepsOverlay_setList |].
  now apply (paired_createSidePanel (setCurrentViolations s (v :: vs))).
Qed.

Lemma paired_openSidebar (s : State) :
  paired (body s) -> paired (body (accessGuruOpenSidebar s)).
Proof.
  intros P. unfold accessGuruOpenSidebar. destruct (sidePanel s); [| exact P]. simpl.
  now apply paired_updateNode; [apply keepsOverlay_setCollapsed |].
Qed.

Lemma paired_step (s : State) (ev : Event) :
  Consistent s -> paired (body s) -> paired (body (step s ev)).
Proof.
  intros C P. destruct ev; simpl.
  - now apply paired_highlightViolations.
  - rewrite (removeAllOverlays_clean s C). reflexivity.
  - now apply paired_openSidebar.
  - unfold accessGuruHighlightSingle.
    apply paired_openSidebar, paired_highlightViolations.
    rewrite (removeAllOverlays_clean s C). reflexivity.
  - now apply paired_updatePanels; [apply keepsOverlay_toggleCollapsed |].
  - now apply paired_updatePanels; [apply keepsOverlay_setCollapsed |].
  - now apply paired_updatePanels; [apply keepsOverlay_clickHeaderInPanel |].
  - destruct (hasIcon icon (body s)); [| exact P].
    unfold showTooltip. pose proof (paired_createTooltip s P) as P'.
    destruct (tooltipElement (createTooltip s)); [| exact P']. simpl.
    now apply paired_updateNode; [apply keepsOverlay_setDisplayed |].
  - destruct (hasIcon icon (body s)); [| exact P].
    unfold hideTooltip. destruct (tooltipElement s); [| exact P]. simpl.
    now apply paired_updateNode; [apply keepsOverlay_setDisplayed |].
Qed.

Lemma reachable_paired (s : State) : reachable s -> paired (body s).
Proof.
  revert s. apply (reachable_ind' (fun s => paired (body s))); [reflexivity |].
  intros s ev R P. apply paired_step; [now apply reachable_consistent | exact P].
Qed.

(** X2.  In every reachable state the info icons of the document, in
    document order, are those of its highlights: the k-th icon belongs to
    the finding and instance of the k-th highlight, which is what
    [updateHighlightPositions] relies on when it moves [icons[index]] with
    the highlight of the same index. *)
Theorem icons_follow_highlights (s : State) :
  reachable s ->
  iconsOf (body s) = map entryInstance (highlightEntries s)
  /\ List.length (iconsOf (body s)) = List.length (highlightEntries s)
  /\ forall k e v nd,
       nth_error (highlightEntries s) k = Some (e, v, nd) ->
       nth_error (iconsOf (body s)) k = Some (v, nd).
Proof.
  intros R. pose proof (reachable_paired s R) as P. unfold paired in P.
  split; [exact P |]. split.
  - rewrite P. apply length_map.
  - intros k e v nd H. rewrite P, nth_error_map.
    unfold highlightEntries in H. now rewrite H.
Qed.

Lemma icons_follow_highlights_witness :
  List.length
    (iconsOf (body (run [CallHighlight samplePage [liveFinding; staleFirst];
                         MouseEnterIcon 2; CallHighlight samplePage [liveFinding]] injected)))
  = List.length
      (highlightEntries (run [CallHighlight samplePage [liveFinding; staleFirst];
                              MouseEnterIcon 2; CallHighlight samplePage [liveFinding]]
                             injected)).
Proof.
  assert (R : reachable (run [CallHighlight samplePage [liveFinding; staleFirst];
                              MouseEnterIcon 2; CallHighlight samplePage [liveFinding]]
                             injected))
    by (eexists; reflexivity).
  destruct (icons_follow_highlights _ R) as [_ [L _]]. exact L.
Defined.

(** *** Teardown and activation *)

(** X3.  [removeAllOverlays] is idempotent in every reachable state; on a
    document without overlay nodes it yields the clean state, in which the
    variables are unset and both flags reset, and keeps
    [currentViolations], the listeners of [window] and the next identity. *)
Theorem teardown_is_idempotent (s : State) :
  reachable s ->
  removeAllOverlays (removeAllOverlays s) = removeAllOverlays s
  /\ (body s = [] ->
      removeAllOverlays s
      = {| body := [];
           overlayElements := [];
           tooltipElement := None;
           sidePanel := None;
           currentViolations := currentViolations s;
           windowListeners := windowListeners s;
           accessGuruListenersAdded := false;
           accessGuruOverlayInjected := false;
           nextNode := nextNode s |}).
Proof.
  intros R. pose proof (reachable_consistent s R) as C.
  pose proof (consistent_removeAllOverlays s C) as C'.
  split.
  - rewrite (removeAllOverlays_clean _ C'). rewrite (removeAllOverlays_clean s C). reflexivity.
  - intros _. apply (removeAllOverlays_clean s C).
Qed.

Lemma teardown_is_idempotent_witness :
  removeAllOverlays
    (removeAllOverlays (run [CallHighlight samplePage [liveFinding]; MouseEnterIcon 2] injected))
  = removeAllOverlays (run [CallHighlight samplePage [liveFinding]; MouseEnterIcon 2] injected).
Proof.
  assert (R : reachable (run [CallHighlight samplePage [liveFinding]; MouseEnterIcon 2] injected))
    by (eexists; reflexivity).
  exact (proj1 (teardown_is_idempotent _ R)).
Defined.

Lemma panel_absent_without_variable (s : State) :
  Consistent s -> findPanel (body s) = None -> sidePanel s = None.
Proof.
  intros C F. destruct (sidePanel s) as [p |] eqn:P; [| reflexivity]. exfalso.
  pose proof (panel_present s C p P) as H.
  apply inDocument_shapes, inDocument_In in H as [n [Hin E]]. subst p.
  pose proof (In_shape n _ Hin) as Sn.
  pose proof (proj2 (panel_known s C _ _ Sn) P) as T.
  exact (findPanel_None _ n F Hin T).
Qed.

Lemma findPanel_app_none (b new : list DomNode) :
  findPanel b = None -> findPanel (b ++ new) = findPanel new.
Proof.
  unfold findPanel. induction b as [| n b IH]; simpl; [reflexivity |].
  destruct (isSidePanel (kind n)); [discriminate | exact IH].
Qed.

(** The list of the panel after an activation, in any consistent state. *)
Lemma panelEntries_rebuilt (page : Page) (vs : list Violation) (s : State) :
  Consistent s -> vs <> [] ->
  forallb (fun v => hasSeverityColor (impact v)) vs = true ->
  panelEntries (highlightViolations page vs s) = mapi newEntry vs.
Proof.
  intros C N K. unfold panelEntries, highlightViolations.
  destruct vs as [| v vs]; [contradiction |].
  rewrite body_addWindowListeners, findPanel_highlight_all.
  unfold populateViolationsList. simpl body.
  rewrite findPanel_updatePanels by apply tag_setList.
  unfold createSidePanel. simpl body. simpl sidePanel.
  simpl in K.
  destruct (findPanel (body s)) as [n |] eqn:F.
  - simpl. rewrite F. simpl.
    apply findPanel_Some in F as [_ T].
    destruct (kind n); try discriminate. simpl. now rewrite K.
  - rewrite (panel_absent_without_variable s C F). simpl.
    rewrite (findPanel_app_none _ _ F). simpl. now rewrite K.
Qed.



(** *** The panel: collapsed or expanded *)

Lemma findPanel_updateNode (i : nat) (f : NodeKind -> NodeKind) (b : list DomNode) :
  (forall k, tagOf (f k) = tagOf k) ->
  findPanel (updateNode i f b)
  = option_map (fun n => if (nid n =? i)%nat then {| nid := nid n; kind := f (kind n) |} else n)
               (findPanel b).
Proof.
  intros Ht. unfold findPanel, updateNode.
  induction b as [| n b IH]; [reflexivity |]. simpl.
  destruct (nid n =? i)%nat eqn:E; simpl.
  - destruct (isSidePanel (kind n)) eqn:P.
    + assert (P' : isSidePanel (f (kind n)) = true)
        by (apply isSidePanel_tag; rewrite Ht; now apply isSidePanel_tag).
      rewrite P'. simpl. now rewrite E.
    + assert (P' : isSidePanel (f (kind n)) = false).
      { destruct (isSidePanel (f (kind n))) eqn:Q; [| reflexivity].
        apply isSidePanel_tag in Q. rewrite Ht in Q. apply isSidePanel_tag in Q. congruence. }
      rewrite P'. exact IH.
  - destruct (isSidePanel (kind n)); [simpl; now rewrite E | exact IH].
Qed.

Lemma found_panel_is_the_variable (s : State) (n : DomNode) :
  Consistent s -> findPanel (body s) = Some n -> sidePanel s = Some (nid n).
Proof.
  intros C F. apply findPanel_Some in F as [Hin T].
  pose proof (In_shape n _ Hin) as Sn. now apply (panel_known s C _ _ Sn).
Qed.

Lemma panel_after_openSidebar (s : State) :
  Consistent s ->
  panelCollapsed (accessGuruOpenSidebar s) = option_map (fun _ => false) (panelCollapsed s)
  /\ panelEntries (accessGuruOpenSidebar s) = panelEntries s.
Proof.
  intros C. unfold accessGuruOpenSidebar, panelCollapsed, panelEntries.
  destruct (sidePanel s) as [p |] eqn:P.
  - simpl body. rewrite findPanel_updateNode by apply tag_setCollapsed.
    destruct (findPanel (body s)) as [n |] eqn:F; [| now split]. simpl.
    pose proof (found_panel_is_the_variable s n C F) as V.
    assert (p = nid n) by congruence. subst p. rewrite Nat.eqb_refl. simpl.
    apply findPanel_Some in F as [_ T]. destruct (kind n); try discriminate. now split.
  - destruct (findPanel (body s)) as [n |] eqn:F; [| now split].
    pose proof (found_panel_is_the_variable s n C F). congruence.
Qed.

Lemma panel_after_updatePanels (f : bool -> bool) (g : NodeKind -> NodeKind) (s : State) :
  (forall k, tagOf (g k) = tagOf k) ->
  (forall c es err, g (SidePanel c es err) = SidePanel (f c) es err) ->
  panelCollapsed (setBody s (updatePanels g (body s))) = option_map f (panelCollapsed s)
  /\ panelEntries (setBody s (updatePanels g (body s))) = panelEntries s.
Proof.
  intros Ht Hg. unfold panelCollapsed, panelEntries. simpl body.
  rewrite findPanel_updatePanels by exact Ht.
  destruct (findPanel (body s)) as [n |] eqn:F; [| now split]. simpl.
  apply findPanel_Some in F as [_ T]. destruct (kind n); try discriminate.
  rewrite Hg. now split.
Qed.

Lemma panelCollapsed_highlight_all (page : Page) (vs : list Violation) (s : State) :
  panelCollapsed (fold_left (highlightViolation page) vs s) = panelCollapsed s.
Proof. unfold panelCollapsed. now rewrite findPanel_highlight_all. Qed.

Lemma panelCollapsed_activation (page : Page) (vs : list Violation) (s : State) :
  Consistent s -> vs <> [] ->
  panelCollapsed (highlightViolations page vs s)
  = Some (match panelCollapsed s with Some c => c | None => true end).
Proof.
  intros C N. unfold highlightViolations. destruct vs as [| v vs]; [contradiction |].
  unfold panelCollapsed at 1. rewrite body_addWindowListeners, findPanel_highlight_all.
  unfold populateViolationsList. simpl body.
  rewrite findPanel_updatePanels by apply tag_setList.
  unfold createSidePanel, panelCollapsed. simpl body. simpl sidePanel.
  destruct (findPanel (body s)) as [n |] eqn:F.
  - simpl. rewrite F. simpl.
    apply findPanel_Some in F as [_ T].
    destruct (kind n); try discriminate. simpl.
    now destruct (hasSeverityColor (impact v) && forallb _ vs).
  - rewrite (panel_absent_without_variable s C F). simpl.
    rewrite (findPanel_app_none _ _ F). simpl.
    now destruct (hasSeverityColor (impact v) && forallb _ vs).
Qed.

(** X5.  The side panel is created collapsed and an activation leaves an
    existing panel as it is; the handle flips it, the close button
    collapses it and [accessGuruOpenSidebar] expands it.  None of the
    three touches the highlights or the entries of the accordion. *)
Theorem panel_opens_and_closes (s : State) :
  reachable s ->
  (forall page vs, vs <> [] ->
     panelCollapsed (step s (CallHighlight page vs))
     = Some (match panelCollapsed s with Some c => c | None => true end))
  /\ panelCollapsed (step s ClickToggle) = option_map negb (panelCollapsed s)
  /\ panelCollapsed (step s ClickClose) = option_map (fun _ => true) (panelCollapsed s)
  /\ panelCollapsed (step s CallOpenSidebar) = option_map (fun _ => false) (panelCollapsed s)
  /\ (forall ev, ev = ClickToggle \/ ev = ClickClose \/ ev = CallOpenSidebar ->
        highlightEntries (step s ev) = highlightEntries s
        /\ panelEntries (step s ev) = panelEntries s).
Proof.
  intros R. pose proof (reachable_consistent s R) as C.
  split; [intros page vs N; now apply panelCollapsed_activation |].
  split; [apply (panel_after_updatePanels negb); [apply tag_toggleCollapsed | reflexivity] |].
  split; [apply (panel_after_updatePanels (fun _ => true));
          [apply tag_setCollapsed | reflexivity] |].
  split; [now apply panel_after_openSidebar |].
  intros ev [-> | [-> | ->]]; simpl.
  - split.
    + rewrite !highlightEntries_body. simpl.
      apply entriesOf_updatePanels, tag_toggleCollapsed.
    + apply (panel_after_updatePanels negb); [apply tag_toggleCollapsed | reflexivity].
  - split.
    + rewrite !highlightEntries_body. simpl.
      apply entriesOf_updatePanels, tag_setCollapsed.
    + apply (panel_after_updatePanels (fun _ => true)); [apply tag_setCollapsed | reflexivity].
  - split; [| now apply panel_after_openSidebar].
    unfold accessGuruOpenSidebar. destruct (sidePanel s); [| reflexivity].
    rewrite !highlightEntries_body. simpl.
    apply entriesOf_updateNode; [reflexivity | apply tag_setCollapsed].
Qed.

Lemma panel_opens_and_closes_witness :
  panelCollapsed (run [CallHighlight samplePage [liveFinding]; ClickToggle] injected)
  = Some false
  /\ panelCollapsed (run [CallHighlight samplePage [liveFinding]; ClickToggle; ClickClose]
                         injected)
     = Some true.
Proof.
  assert (R1 : reachable (run [CallHighlight samplePage [liveFinding]] injected))
    by (eexists; reflexivity).
  assert (R2 : reachable (run [CallHighlight samplePage [liveFinding]; ClickToggle] injected))
    by (eexists; reflexivity).
  destruct (panel_opens_and_closes _ R1) as [_ [T _]].
  destruct (panel_opens_and_closes _ R2) as [_ [_ [K _]]].
  split.
  - change (run [CallHighlight samplePage [liveFinding]; ClickToggle] injected)
      with (step (run [CallHighlight samplePage [liveFinding]] injected) ClickToggle).
    rewrite T. reflexivity.
  - change (run [CallHighlight samplePage [liveFinding]; ClickToggle; ClickClose] injected)
      with (step (run [CallHighlight samplePage [liveFinding]; ClickToggle] injected)
                 ClickClose).
    rewrite K. reflexivity.
Defined.

(** X6.  [accessGuruHighlightSingle] replaces whatever overlay there is by
    that of the one finding.  When the impact of the finding has an entry
    in the table of colours (one of the four levels, or the name of an
    inherited property), the highlights are exactly those of its instances
    whose first selector finds an element, and the list of the panel has
    the one entry of the finding, collapsed; when it has none, there is no
    highlight.  In both cases the panel is expanded and no tooltip is
    left. *)
Theorem highlight_single_replaces_overlay (page : Page) (v : Violation) (s : State) :
  reachable s ->
  let s' := step s (CallHighlightSingle page v) in
  highlightEntries s' = resolveViolation page v
  /\ panelCollapsed s' = Some false
  /\ (hasSeverityColor (impact v) = true -> panelEntries s' = [newEntry 0 v])
  /\ (countTag TagTooltip s' = 0)%nat.
Proof.
  intros R s'. pose proof (reachable_consistent s R) as C.
  pose proof (consistent_removeAllOverlays s C) as C1.
  pose proof (consistent_highlightViolations page [v] _ C1) as C2.
  unfold s'. simpl. unfold accessGuruHighlightSingle.
  set (s2 := highlightViolations page [v] (removeAllOverlays s)) in *.
  destruct (panel_after_openSidebar s2 C2) as [Pc Pe].
  assert (Clean : panelCollapsed (removeAllOverlays s) = None)
    by (rewrite (removeAllOverlays_clean s C); reflexivity).
  assert (Pc2 : panelCollapsed s2 = Some true).
  { unfold s2. rewrite panelCollapsed_activation; [| exact C1 | discriminate].
    now rewrite Clean. }
  split; [| split; [| split]].
  - unfold accessGuruOpenSidebar. 
    assert (E2 : highlightEntries s2 = resolveViolation page v).
    { unfold s2. rewrite entries_highlightViolations, (removeAllOverlays_clean s C).
      unfold correlate. simpl. now rewrite app_nil_r. }
    destruct (sidePanel s2); [| exact E2].
    rewrite highlightEntries_body. simpl.
    rewrite entriesOf_updateNode; [exact E2 | reflexivity | apply tag_setCollapsed].
  - rewrite Pc, Pc2. reflexivity.
  - intros K. rewrite Pe. unfold s2.
    rewrite panelEntries_rebuilt; [reflexivity | exact C1 | discriminate |].
    simpl. now rewrite K.
  - assert (T2 : tooltipElement s2 = None).
    { unfold s2, highlightViolations, addWindowListeners.
      set (s4 := fold_left _ _ _).
      assert (T4 : tooltipElement s4 = None).
      { unfold s4. simpl. unfold highlightViolation.
        rewrite (removeAllOverlays_clean s C).
        destruct (nodes v) as [ns |]; [| reflexivity].
        set (s3 := populateViolationsList _ _).
        assert (T3 : tooltipElement s3 = None) by reflexivity.
        clearbody s3. revert s3 T3.
        induction ns as [| nd ns IH]; intros s3 T3; simpl; [exact T3 |].
        apply IH. unfold highlightNode.
        destruct (target nd) as [[| sel rest] |]; try exact T3.
        destruct (page sel) as [| | e]; try exact T3.
        unfold createHighlight. destruct (hasSeverityColor (impact v)); exact T3. }
      destruct (accessGuruListenersAdded s4); exact T4. }
    pose proof (consistent_openSidebar s2 C2) as C3.
    assert (T3 : tooltipElement (accessGuruOpenSidebar s2) = None)
      by (unfold accessGuruOpenSidebar; now destruct (sidePanel s2)).
    unfold countTag. apply filter_none.
    intros i H. apply (tooltip_known _ C3) in H. destruct H as [H _].
    specialize (H eq_refl). congruence.
Qed.

Lemma highlight_single_witness :
  highlightEntries
    (step (run [CallHighlight samplePage [staleFirst; liveFinding]; MouseEnterIcon 2] injected)
          (CallHighlightSingle samplePage liveFinding))
  = [(1%nat, liveFinding, oneNode)]
  /\ highlightEntries
       (step (run [CallHighlight samplePage [staleFirst; liveFinding]; MouseEnterIcon 2] injected)
             (CallHighlightSingle samplePage inheritedImpact))
     = [(1%nat, inheritedImpact, oneNode)]
  /\ highlightEntries
       (step (run [CallHighlight samplePage [staleFirst; liveFinding]; MouseEnterIcon 2] injected)
             (CallHighlightSingle samplePage unratedFinding))
     = [].
Proof.
  assert (R : reachable (run [CallHighlight samplePage [staleFirst; liveFinding];
                              MouseEnterIcon 2] injected))
    by (eexists; reflexivity).
  pose proof (proj1 (highlight_single_replaces_overlay samplePage liveFinding _ R)) as L.
  pose proof (proj1 (highlight_single_replaces_overlay samplePage inheritedImpact _ R)) as I.
  pose proof (proj1 (highlight_single_replaces_overlay samplePage unratedFinding _ R)) as U.
  split; [exact L |]. split; [exact I | exact U].
Defined.

(** *** The accordion again *)

Lemma set_slot_same_fields {B : Type} (f : AccordionEntry -> B)
    (l : list AccordionEntry) (k : nat) (e0 e' : AccordionEntry) :
  nth_error l k = Some e0 -> f e' = f e0 -> map f (set_slot l k e') = map f l.
Proof.
  revert k. induction l as [| x l IH]; intros [| k] H Hf; simpl in *; try discriminate.
  - injection H as ->. now rewrite Hf.
  - now rewrite (IH k H Hf).
Qed.

Lemma clickHeader_findings (k h : nat) (entries : list AccordionEntry) :
  map entryViolation (clickHeader k h entries) = map entryViolation entries
  /\ map violationIndex (clickHeader k h entries) = map violationIndex entries.
Proof.
  unfold clickHeader. destruct (nth_error entries k) as [e |] eqn:E; [| now split].
  destruct (isExpanded e).
  - split; now apply (set_slot_same_fields _ _ _ e).
  - assert (Ec : nth_error (map closeEntry entries) k = Some (closeEntry e))
      by (rewrite nth_error_map, E; reflexivity).
    split.
    + rewrite (set_slot_same_fields _ _ _ (closeEntry e)), map_map; auto.
    + rewrite (set_slot_same_fields _ _ _ (closeEntry e)), map_map; auto.
Qed.

Lemma clickHeader_collapses (k h : nat) (entries : list AccordionEntry) :
  atMostOneExpanded entries -> expandedAt entries k ->
  forall j, ~ expandedAt (clickHeader k h entries) j.
Proof.
  intros A [e [E X]] j [e' [E' X']].
  unfold clickHeader in E'. rewrite E, X in E'.
  destruct (Nat.eq_dec k j) as [<- | N].
  - rewrite set_slot_same in E' by (apply nth_error_Some; congruence).
    injection E' as <-. discriminate.
  - rewrite set_slot_other in E' by exact N.
    apply N, A; [now exists e | now exists e'].
Qed.

(** X7.  A click on a header of the accordion changes neither the
    findings of the list nor their order, and a click on the header of
    the entry that is expanded collapses it: no entry is expanded
    afterwards. *)
Theorem accordion_click_collapses_open_entry (s : State) (k h : nat) :
  reachable s ->
  let after := panelEntries (step s (ClickAccordionHeader k h)) in
  map entryViolation after = map entryViolation (panelEntries s)
  /\ map violationIndex after = map violationIndex (panelEntries s)
  /\ (expandedAt (panelEntries s) k -> forall j, ~ expandedAt after j).
Proof.
  intros R after. unfold after. rewrite panelEntries_click.
  destruct (clickHeader_findings k h (panelEntries s)) as [Hv Hi].
  split; [exact Hv |]. split; [exact Hi |].
  apply clickHeader_collapses, panelEntries_exclusive, reachable_exclusive, R.
Qed.

Lemma accordion_click_collapses_witness :
  expandedAt (panelEntries (run [CallHighlight samplePage [staleFirst; liveFinding];
                                 ClickAccordionHeader 1 80] injected)) 1
  /\ forall j,
       ~ expandedAt (panelEntries (run [CallHighlight samplePage [staleFirst; liveFinding];
                                        ClickAccordionHeader 1 80;
                                        ClickAccordionHeader 1 80] injected)) j.
Proof.
  assert (R : reachable (run [CallHighlight samplePage [staleFirst; liveFinding];
                              ClickAccordionHeader 1 80] injected))
    by (eexists; reflexivity).
  assert (X : expandedAt (panelEntries (run [CallHighlight samplePage [staleFirst; liveFinding];
                                             ClickAccordionHeader 1 80] injected)) 1)
    by (eexists; split; reflexivity).
  split; [exact X |].
  exact (proj2 (proj2 (accordion_click_collapses_open_entry _ 1 80 R)) X).
Defined.

(** *** Where highlights come from *)

Lemma entries_createTooltip (s : State) :
  highlightEntries (createTooltip s) = highlightEntries s.
Proof.
  unfold createTooltip. destruct (tooltipElement s); [reflexivity |].
  rewrite !highlightEntries_body. simpl. rewrite entriesOf_app. apply app_nil_r.
Qed.

Lemma entries_openSidebar (s : State) :
  highlightEntries (accessGuruOpenSidebar s) = highlightEntries s.
Proof.
  unfold accessGuruOpenSidebar. destruct (sidePanel s); [| reflexivity].
  rewrite !highlightEntries_body. simpl.
  apply overlay_kept_updateNode, keepsOverlay_setCollapsed.
Qed.

(** What each event does to the highlights of the document. *)
Lemma entries_step (s : State) (ev : Event) :
  Consistent s ->
  highlightEntries (step s ev)
  = match ev with
    | CallHighlight page vs => highlightEntries s ++ correlate page vs
    | CallRemoveOverlays => []
    | CallHighlightSingle page v => resolveViolation page v
    | _ => highlightEntries s
    end.
Proof.
  intros C. destruct ev; simpl.
  - apply entries_highlightViolations.
  - now rewrite (removeAllOverlays_clean s C).
  - apply entries_openSidebar.
  - unfold accessGuruHighlightSingle.
    rewrite entries_openSidebar, entries_highlightViolations,
            (removeAllOverlays_clean s C).
    unfold correlate. simpl. now rewrite app_nil_r.
  - rewrite !highlightEntries_body. simpl.
    apply overlay_kept_updatePanels, keepsOverlay_toggleCollapsed.
  - rewrite !highlightEntries_body. simpl.
    apply overlay_kept_updatePanels, keepsOverlay_setCollapsed.
  - rewrite !highlightEntries_body. simpl.
    apply overlay_kept_updatePanels, keepsOverlay_clickHeaderInPanel.
  - destruct (hasIcon icon (body s)); [| reflexivity].
    unfold showTooltip. rewrite <- (entries_createTooltip s).
    destruct (tooltipElement (createTooltip s)); [| reflexivity].
    rewrite !highlightEntries_body. simpl.
    apply overlay_kept_updateNode, keepsOverlay_setDisplayed.
  - destruct (hasIcon icon (body s)); [| reflexivity].
    unfold hideTooltip. destruct (tooltipElement s); [| reflexivity].
    rewrite !highlightEntries_body. simpl.
    apply overlay_kept_updateNode, keepsOverlay_setDisplayed.
Qed.

Lemma fromInstance_resolveViolation (page : Page) (v : Violation) :
  Forall fromInstance (resolveViolation page v).
Proof.
  unfold resolveViolation. destruct (nodes v) as [ns |] eqn:N; [| constructor].
  apply Forall_forall. intros h H. apply in_flat_map in H as [nd [Hin H]].
  unfold resolveInstance in H.
  destruct (target nd) as [[| sel rest] |] eqn:T; try contradiction.
  destruct (page sel); try contradiction.
  destruct (hasSeverityColor (impact v)) eqn:K; [| contradiction].
  destruct H as [<- | []]. exists ns, sel, rest. simpl. auto.
Qed.

Lemma fromInstance_correlate (page : Page) (vs : list Violation) :
  Forall fromInstance (correlate page vs).
Proof.
  apply Forall_forall. intros h H. apply in_flat_map in H as [v [_ H]].
  pose proof (fromInstance_resolveViolation page v) as F.
  rewrite Forall_forall in F. now apply F.
Qed.

Lemma reachable_fromInstance (s : State) :
  reachable s -> Forall fromInstance (highlightEntries s).
Proof.
  revert s. apply (reachable_ind' (fun s => Forall fromInstance (highlightEntries s)));
    [constructor |].
  intros s ev R H. rewrite (entries_step s ev (reachable_consistent s R)).
  destruct ev; try exact H.
  - apply Forall_app. split; [exact H | apply fromInstance_correlate].
  - constructor.
  - apply fromInstance_resolveViolation.
Qed.

Lemma In_entriesOf (n : DomNode) (element : nat) (v : Violation) (nd : AxeNode)
      (b : list DomNode) :
  In n b -> kind n = Highlight element v nd -> In (element, v, nd) (entriesOf b).
Proof.
  intros Hin K. apply in_flat_map. exists n. split; [exact Hin |]. rewrite K. now left.
Qed.

(** *** Scrolling to a finding *)

Lemma flashed_when_queried (page : Page) (v : Violation) (s : State)
      (first : string) (rest : list string) :
  firstSelectors v = first :: rest -> page first <> QueryThrows ->
  flashed (scrollToViolation page v s)
  = map nid (filter (isFlashTarget (firstSelectors v)) (body s)).
Proof.
  intros F Q. unfold scrollToViolation.
  destruct (nodes v) as [[| nd ns] |] eqn:N;
    try (unfold firstSelectors in F; rewrite N in F; discriminate).
  rewrite F. now destruct (page first).
Qed.

Lemma flashed_is_target (page : Page) (v : Violation) (s : State) (i : nat) :
  In i (flashed (scrollToViolation page v s)) ->
  In i (map nid (filter (isFlashTarget (firstSelectors v)) (body s))).
Proof.
  unfold scrollToViolation.
  destruct (nodes v) as [[| nd ns] |]; try contradiction.
  destruct (firstSelectors v) as [| first rest] eqn:F; [contradiction |].
  now destruct (page first).
Qed.

(** X8.  [scrollToViolation] flashes highlights only, and only those whose
    selector is a first selector of an instance of the finding; when the
    lookup of the finding's first selector does not throw, every highlight
    that was drawn for an instance of the finding flashes; when it throws,
    nothing scrolls and nothing flashes. *)
Theorem scroll_flashes_the_instances (page : Page) (v : Violation) (s : State) :
  reachable s ->
  let effect := scrollToViolation page v s in
  (forall i, In i (flashed effect) ->
     exists n element v' nd,
       In n (body s) /\ nid n = i /\ kind n = Highlight element v' nd
       /\ In (datasetSelector nd) (firstSelectors v))
  /\ (forall n element nd,
        In n (body s) -> kind n = Highlight element v nd ->
        datasetSelector nd <> ""%string ->
        (forall first, hd_error (firstSelectors v) = Some first -> page first <> QueryThrows) ->
        In (nid n) (flashed effect))
  /\ (forall first,
        hd_error (firstSelectors v) = Some first -> page first = QueryThrows ->
        effect = noScrollEffect)
  /\ (forall element, scrolledTo effect = Some element ->
        exists first, hd_error (firstSelectors v) = Some first
                      /\ page first = QueryElement element).
Proof.
  intros R effect. unfold effect. split; [| split; [| split]].
  - intros i H. apply flashed_is_target in H.
    apply in_map_iff in H as [n [<- H]]. apply filter_In in H as [Hin T].
    unfold isFlashTarget in T. destruct (kind n) as [e v' nd | | |] eqn:K; try discriminate.
    apply existsb_exists in T as [sel [Hs E]]. apply String.eqb_eq in E.
    exists n, e, v', nd. rewrite E. auto.
  - intros n e nd Hin K Ne Q.
    pose proof (reachable_fromInstance s R) as F. rewrite Forall_forall in F.
    destruct (F _ (In_entriesOf n e v nd _ Hin K)) as [ns [sel [rest [N [Hnd [T _]]]]]].
    simpl in N, Hnd, T.
    assert (D : datasetSelector nd = sel) by (unfold datasetSelector; now rewrite T).
    assert (Hs : In sel (firstSelectors v)).
    { unfold firstSelectors. rewrite N. apply in_flat_map. exists nd.
      split; [exact Hnd |]. rewrite T.
      destruct (sel =? "")%string eqn:E; [| now left].
      apply String.eqb_eq in E. congruence. }
    destruct (firstSelectors v) as [| first others] eqn:Fs; [contradiction |].
    rewrite (flashed_when_queried page v s first others Fs (Q first eq_refl)).
    apply in_map, filter_In. split; [exact Hin |].
    unfold isFlashTarget. rewrite K, D. apply existsb_exists.
    exists sel. split; [now rewrite Fs | apply String.eqb_refl].
  - intros first H Q. unfold scrollToViolation.
    destruct (nodes v) as [[| nd ns] |]; try reflexivity.
    destruct (firstSelectors v) as [| f rest]; [reflexivity |].
    injection H as ->. now rewrite Q.
  - intros e H. unfold scrollToViolation in H.
    destruct (nodes v) as [[| nd ns] |]; try discriminate.
    destruct (firstSelectors v) as [| f rest]; [discriminate |].
    exists f. split; [reflexivity |].
    destruct (page f); try discriminate. simpl in H. congruence.
Qed.

Lemma scroll_flashes_witness :
  flashed (scrollToViolation samplePage liveFinding
             (run [CallHighlight samplePage [staleFirst; liveFinding]] injected))
  <> [].
Proof.
  assert (R : reachable (run [CallHighlight samplePage [staleFirst; liveFinding]] injected))
    by (eexists; reflexivity).
  destruct (scroll_flashes_the_instances samplePage liveFinding _ R) as [_ [Complete _]].
  intros E.
  assert (I : In 1%nat (flashed (scrollToViolation samplePage liveFinding
               (run [CallHighlight samplePage [staleFirst; liveFinding]] injected)))).
  { apply (Complete {| nid := 1; kind := Highlight 1 liveFinding oneNode |} 1%nat oneNode).
    - vm_compute. auto.
    - reflexivity.
    - discriminate.
    - intros first H. vm_compute in H. injection H as <-. discriminate. }
  rewrite E in I. exact I.
Defined.

(** *** The numbers of the panel *)

Lemma fold_left_add_sum (l : list nat) (a : nat) :
  fold_left (fun a b => (a + b)%nat) l a = (a + list_sum l)%nat.
Proof.
  revert a. induction l as [| x l IH]; intros a; simpl; [lia |]. rewrite IH. lia.
Qed.

Lemma sum_addCount (key : string) (n : nat) (counts : list (string * nat)) :
  list_sum (map snd (addCount key n counts)) = (list_sum (map snd counts) + n)%nat.
Proof.
  induction counts as [| [k c] counts IH]; simpl; [lia |].
  destruct (k =? key)%string; simpl; [lia |]. rewrite IH. lia.
Qed.

Lemma countOf_addCount (key k : string) (n : nat) (counts : list (string * nat)) :
  countOf key (addCount k n counts)
  = (countOf key counts + if (k =? key)%string then n else 0)%nat.
Proof.
  unfold countOf. induction counts as [| [k0 c] counts IH]; simpl.
  - destruct (k =? key)%string; reflexivity.
  - destruct (k0 =? k)%string eqn:E; simpl.
    + apply String.eqb_eq in E. subst k0.
      destruct (k =? key)%string; simpl; lia.
    + destruct (k0 =? key)%string eqn:E'; simpl; [| exact IH].
      apply String.eqb_eq in E'. subst k0. rewrite String.eqb_sym, E. lia.
Qed.

Lemma keys_addCount (key : string) (n : nat) (counts : list (string * nat)) :
  In key (map fst counts) -> map fst (addCount key n counts) = map fst counts.
Proof.
  induction counts as [| [k c] counts IH]; simpl; [contradiction |].
  intros H. destruct (k =? key)%string eqn:E; [reflexivity |]. simpl. f_equal.
  apply IH. destruct H as [H | H]; [| exact H].
  subst k. now rewrite String.eqb_refl in E.
Qed.

Lemma counts_fold (vs : list Violation) (init : list (string * nat)) :
  let counts := fold_left (fun counts v => addCount (impact v) (nodeCountOr0 v) counts)
                          vs init in
  list_sum (map snd counts) = (list_sum (map snd init) + list_sum (map nodeCountOr0 vs))%nat
  /\ (forall key,
        countOf key counts
        = (countOf key init
           + list_sum (map nodeCountOr0
                           (filter (fun v => (impact v =? key)%string) vs)))%nat)
  /\ ((forall v, In v vs -> In (impact v) (map fst init)) -> map fst counts = map fst init).
Proof.
  revert init. induction vs as [| v vs IH]; intros init; simpl.
  - split; [lia |]. split; [intros; lia | reflexivity].
  - destruct (IH (addCount (impact v) (nodeCountOr0 v) init)) as [S [K D]].
    split; [| split].
    + rewrite S, sum_addCount. lia.
    + intros key. rewrite K, countOf_addCount.
      destruct (impact v =? key)%string; simpl; lia.
    + intros H.
      assert (E : map fst (addCount (impact v) (nodeCountOr0 v) init) = map fst init)
        by (apply keys_addCount, H; now left).
      rewrite D; [exact E |]. intros v' Hv'. rewrite E. apply H. now right.
Qed.

Lemma colour_is_initial_key (i : string) :
  isSeverityLevel i = true -> In i (map fst initialCounts).
Proof.
  unfold isSeverityLevel. intros H.
  repeat (apply orb_true_iff in H as [H | H]); apply String.eqb_eq in H; subst;
    simpl; auto.
Qed.

Lemma resolveViolation_length (page : Page) (v : Violation) :
  (List.length (resolveViolation page v) <= nodeCountOr0 v)%nat.
Proof.
  unfold resolveViolation, nodeCountOr0. destruct (nodes v) as [ns |]; [| simpl; lia].
  induction ns as [| nd ns IH]; simpl; [lia |]. rewrite length_app.
  assert ((List.length (resolveInstance page v nd) <= 1)%nat); [| lia].
  unfold resolveInstance. destruct (target nd) as [[| sel rest] |]; simpl; try lia.
  destruct (page sel); simpl; try lia.
  destruct (hasSeverityColor (impact v)); simpl; lia.
Qed.

Lemma correlate_length (page : Page) (vs : list Violation) :
  (List.length (correlate page vs) <= list_sum (map nodeCountOr0 vs))%nat.
Proof.
  unfold correlate. induction vs as [| v vs IH]; simpl; [lia |].
  rewrite length_app. pose proof (resolveViolation_length page v). lia.
Qed.

(** X9.  For findings whose impacts are among the four severity levels, the
    total that [updateSidePanelStats] announces is the number of instances
    of all findings, each level's count is the number of instances of the
    findings of that level, and no other key appears.  The total is an
    upper bound, not the number, of the highlights an activation draws:
    instances whose element is not found are counted as well. *)
Theorem stats_count_instances (vs : list Violation) :
  forallb (fun v => isSeverityLevel (impact v)) vs = true ->
  statsTotal vs = list_sum (map nodeCountOr0 vs)
  /\ (forall key,
        countOf key (countByImpact vs)
        = list_sum (map nodeCountOr0 (filter (fun v => (impact v =? key)%string) vs)))
  /\ map fst (countByImpact vs) = ["critical"; "serious"; "moderate"; "minor"]%string
  /\ (forall page s,
        (List.length (highlightEntries (highlightViolations page vs s))
         <= List.length (highlightEntries s) + statsTotal vs)%nat).
Proof.
  intros H. rewrite forallb_forall in H.
  destruct (counts_fold vs initialCounts) as [S [K D]].
  assert (T : statsTotal vs = list_sum (map nodeCountOr0 vs)).
  { unfold statsTotal, countByImpact. rewrite fold_left_add_sum, S. reflexivity. }
  split; [exact T |]. split; [| split].
  - intros key. unfold countByImpact. rewrite K.
    assert (Z : countOf key initialCounts = 0%nat).
    { unfold countOf, initialCounts. cbn -[String.eqb].
      repeat (destruct (_ =? key)%string; [reflexivity |]). reflexivity. }
    rewrite Z. reflexivity.
  - unfold countByImpact. rewrite D; [reflexivity |].
    intros v Hv. apply colour_is_initial_key, H, Hv.
  - intros page s. rewrite entries_highlightViolations, length_app, T.
    pose proof (correlate_length page vs). lia.
Qed.

Lemma stats_count_instances_witness :
  statsTotal [staleFirst; liveFinding] = 2%nat
  /\ List.length (highlightEntries
                    (highlightViolations samplePage [staleFirst; liveFinding] injected))
     = 1%nat.
Proof.
  assert (H : forallb (fun v => isSeverityLevel (impact v)) [staleFirst; liveFinding] = true)
    by reflexivity.
  destruct (stats_count_instances [staleFirst; liveFinding] H) as [T _].
  split; [rewrite T; reflexivity | reflexivity].
Defined.

(** *** The place of the tooltip *)

(** X10.  With the cursor inside the viewport, the tooltip that
    [showTooltip] and the [mousemove] handler place never crosses the right
    or the bottom edge and sits 15 pixels beside the cursor, never over it.
    The left and the top edge are not guarded: the tooltip starts left of
    the viewport exactly when it fits on neither side of the cursor. *)
Theorem tooltip_avoids_right_and_bottom_edge (x y width height innerWidth innerHeight : R) :
  x <= innerWidth -> y <= innerHeight ->
  let left := fst (placeTooltip x y width height innerWidth innerHeight) in
  let top := snd (placeTooltip x y width height innerWidth innerHeight) in
  left + width <= innerWidth
  /\ top + height <= innerHeight
  /\ (left = x + 15 \/ left + width = x - 15)
  /\ (top = y + 15 \/ top + height = y - 15)
  /\ (0 <= x -> (0 <= left <-> x + 15 + width <= innerWidth \/ width + 15 <= x))
  /\ (0 <= y -> (0 <= top <-> y + 15 + height <= innerHeight \/ height + 15 <= y)).
Proof.
  intros Hx Hy left top. unfold left, top, placeTooltip. simpl.
  destruct (Rgt_dec (x + 15 + width) innerWidth) as [A | A];
    destruct (Rgt_dec (y + 15 + height) innerHeight) as [B | B];
    repeat split; try lra; try (intros; lra);
    try (left; lra); try (right; lra);
    try (intros [? | ?]; lra).
Qed.

Lemma tooltip_left_of_viewport_witness :
  fst (placeTooltip 100 100 300 50 320 600) < 0
  /\ fst (placeTooltip 100 100 300 50 320 600) + 300 <= 320.
Proof.
  assert (Hx : 100 <= 320) by lra.
  assert (Hy : 100 <= 600) by lra.
  assert (P : 0 <= 100) by lra.
  destruct (tooltip_avoids_right_and_bottom_edge 100 100 300 50 320 600 Hx Hy)
    as [R [_ [_ [_ [L _]]]]].
  split; [| exact R].
  apply Rnot_le_lt. intros N. apply (L P) in N. lra.
Defined.

(** *** Debounced repositioning *)

Lemma last_cons_default (l : list nat) (x d : nat) : last (x :: l) d = last l x.
Proof.
  revert x d. induction l as [| y l IH]; intros x d; [reflexivity |].
  change (last (x :: y :: l) d) with (last (y :: l) d). rewrite !IH. reflexivity.
Qed.

Lemma debounce_burst (delay : nat) (rest : list nat) (a : nat) (d : Debounced) :
  gapsBelow delay (a :: rest) -> pendingUntil d = Some (a + delay)%nat ->
  let d' := fold_left (fun d at_ => handleEvent delay at_ d) rest d in
  recomputes d' = recomputes d /\ pendingUntil d' = Some (last rest a + delay)%nat.
Proof.
  revert a d. induction rest as [| b rest IH]; intros a d G P; [now split |].
  rewrite last_cons_default. simpl fold_left.
  destruct G as [[Hab Hba] G].
  assert (E : elapse b d = d).
  { unfold elapse. rewrite P.
    destruct (a + delay <=? b)%nat eqn:L; [apply Nat.leb_le in L; lia | reflexivity]. }
  destruct (IH b (handleEvent delay b d) G eq_refl) as [Hr Hp].
  split.
  - rewrite Hr. unfold handleEvent. now rewrite E.
  - exact Hp.
Qed.

Lemma elapse_bound (t : nat) (d : Debounced) :
  (recomputes (elapse t d) + match pendingUntil (elapse t d) with Some _ => 1 | None => 0 end
   = recomputes d + match pendingUntil d with Some _ => 1 | None => 0 end)%nat.
Proof.
  unfold elapse. destruct (pendingUntil d) as [deadline |] eqn:P; [| now rewrite P].
  destruct (deadline <=? t)%nat; simpl; [lia | now rewrite P].
Qed.

Lemma debounce_bound (delay : nat) (times : list nat) (d : Debounced) :
  let d' := fold_left (fun d at_ => handleEvent delay at_ d) times d in
  (recomputes d' + match pendingUntil d' with Some _ => 1 | None => 0 end
   <= recomputes d + match pendingUntil d with Some _ => 1 | None => 0 end
      + List.length times)%nat.
Proof.
  revert d. induction times as [| a times IH]; intros d; simpl; [lia |].
  specialize (IH (handleEvent delay a d)). simpl in IH.
  pose proof (elapse_bound a d) as E.
  destruct (pendingUntil (elapse a d)); lia.
Qed.

(** X11.  The debounced handlers of resize (delay 100) and scroll (delay
    50): events that follow each other by less than the delay are answered
    by one call of [updateHighlightPositions], made once the delay has
    passed after the last of them, and by none before.  Whatever the
    timing, there are never more calls than events. *)
Theorem debounce_coalesces_a_burst (h : Handler) (first : nat) (rest : list nat) (t : nat) :
  gapsBelow (handlerDelay h) (first :: rest) ->
  let quiet := (last rest first + handlerDelay h)%nat in
  recomputes (afterEvents (callHandler h) (first :: rest) t)
  = (if (quiet <=? t)%nat then 1 else 0)%nat
  /\ pendingUntil (afterEvents (callHandler h) (first :: rest) t)
     = (if (quiet <=? t)%nat then None else Some quiet)
  /\ (forall times t',
        (recomputes (afterEvents (callHandler h) times t') <= List.length times)%nat).
Proof.
  intros G quiet. unfold afterEvents, callHandler. simpl fold_left at 1 2.
  set (delay := handlerDelay h) in *.
  assert (P : pendingUntil (handleEvent delay first idle) = Some (first + delay)%nat)
    by reflexivity.
  destruct (debounce_burst delay rest first _ G P) as [Hr Hp].
  simpl in Hr, Hp. fold quiet in Hp.
  split; [| split].
  - unfold elapse. rewrite Hp. destruct (quiet <=? t)%nat; simpl; [| exact Hr].
    now rewrite Hr.
  - unfold elapse. rewrite Hp. destruct (quiet <=? t)%nat; [reflexivity | exact Hp].
  - intros times t'. pose proof (debounce_bound delay times idle) as B.
    pose proof (elapse_bound t' (fold_left (fun d at_ => handleEvent delay at_ d) times idle))
      as E.
    simpl in B. lia.
Qed.

Lemma debounce_coalesces_witness :
  recomputes (afterEvents (callHandler handleScroll) [0; 20; 45; 90]%nat 139) = 0%nat
  /\ recomputes (afterEvents (callHandler handleScroll) [0; 20; 45; 90]%nat 140) = 1%nat
  /\ recomputes (afterEvents (callHandler handleResize) [0; 20; 45; 90]%nat 189) = 0%nat
  /\ recomputes (afterEvents (callHandler handleResize) [0; 20; 45; 90]%nat 190) = 1%nat.
Proof.
  assert (G : gapsBelow (handlerDelay handleScroll) [0; 20; 45; 90]%nat) by (simpl; lia).
  assert (G' : gapsBelow (handlerDelay handleResize) [0; 20; 45; 90]%nat) by (simpl; lia).
  split; [| split; [| split]].
  - exact (proj1 (debounce_coalesces_a_burst handleScroll 0 [20; 45; 90]%nat 139 G)).
  - exact (proj1 (debounce_coalesces_a_burst handleScroll 0 [20; 45; 90]%nat 140 G)).
  - exact (proj1 (debounce_coalesces_a_burst handleResize 0 [20; 45; 90]%nat 189 G')).
  - exact (proj1 (debounce_coalesces_a_burst handleResize 0 [20; 45; 90]%nat 190 G')).
Defined.

(** *** The tooltip on hover *)

Lemma createTooltip_variable (s : State) :
  exists t, tooltipElement (createTooltip s) = Some t.
Proof.
  unfold createTooltip. destruct (tooltipElement s) as [t |] eqn:T.
  - now exists t.
  - now exists (nextNode s).
Qed.

Lemma tooltips_are_the_variable (s : State) (t : nat) (m : DomNode) :
  Consistent s -> tooltipElement s = Some t ->
  In m (body s) -> tagOf (kind m) = TagTooltip -> nid m = t.
Proof.
  intros C T Hin K.
  pose proof (In_shape m _ Hin) as Sm.
  apply (tooltip_known s C) in Sm. apply Sm in K. congruence.
Qed.

Lemma displayed_after_update (s : State) (t : nat) (d : bool) :
  Consistent s -> tooltipElement s = Some t ->
  let b := updateNode t (setDisplayed d) (body s) in
  In {| nid := t; kind := Tooltip d |} b
  /\ (forall n d', In n b -> kind n = Tooltip d' -> d' = d).
Proof.
  intros C T b. split.
  - pose proof (tooltip_present s C t T) as P.
    apply in_map_iff in P as [[i tag] [E P]]. simpl in E. subst i.
    unfold shapes in P. apply in_map_iff in P as [m [E Hin]].
    unfold shape in E. injection E as Ei Et.
    assert (K : tagOf (kind m) = TagTooltip).
    { apply (tooltip_known s C (nid m) (tagOf (kind m)) (In_shape m _ Hin)). congruence. }
    unfold b, updateNode. apply in_map_iff. exists m. split; [| exact Hin].
    rewrite Ei, Nat.eqb_refl. destruct (kind m); try discriminate. reflexivity.
  - intros n d' Hin K. unfold b, updateNode in Hin.
    apply in_map_iff in Hin as [m [E Hin]].
    destruct (nid m =? t)%nat eqn:Q.
    + subst n. simpl in K. destruct (kind m); simpl in K; try discriminate. congruence.
    + subst n. apply Nat.eqb_neq in Q. exfalso. apply Q.
      apply (tooltips_are_the_variable s t m C T Hin). now rewrite K.
Qed.

Lemma hasIcon_kept (g : DomNode -> DomNode) (f : NodeKind -> NodeKind)
      (i : nat) (b : list DomNode) :
  keepsOverlay f ->
  (forall n, g n = n \/ g n = {| nid := nid n; kind := f (kind n) |}) ->
  hasIcon i (map g b) = hasIcon i b.
Proof.
  intros [Ht [_ Hi]] Hg. unfold hasIcon. induction b as [| n b IH]; [reflexivity |].
  simpl. rewrite IH. f_equal.
  destruct (Hg n) as [-> | ->]; [reflexivity |]. simpl. f_equal.
  specialize (Ht (kind n)).
  destruct (kind n) as [e v nd | v nd | d | c es err].
  - destruct (f (Highlight e v nd)); simpl in Ht; try discriminate; reflexivity.
  - now rewrite Hi.
  - destruct (f (Tooltip d)); simpl in Ht; try discriminate; reflexivity.
  - destruct (f (SidePanel c es err)); simpl in Ht; try discriminate; reflexivity.
Qed.

Lemma hasIcon_updateNode (t i : nat) (d : bool) (b : list DomNode) :
  hasIcon i (updateNode t (setDisplayed d) b) = hasIcon i b.
Proof.
  unfold updateNode. apply (hasIcon_kept _ (setDisplayed d));
    [apply keepsOverlay_setDisplayed |].
  intros n. destruct (nid n =? t)%nat; [now right | now left].
Qed.

Lemma hasIcon_createTooltip (i : nat) (s : State) :
  hasIcon i (body (createTooltip s)) = hasIcon i (body s).
Proof.
  unfold createTooltip. destruct (tooltipElement s); [reflexivity |]. simpl.
  unfold hasIcon. rewrite existsb_app. simpl. now rewrite andb_false_r, !orb_false_r.
Qed.

Lemma panelEntries_displayed (s : State) (t : nat) (d : bool) :
  panelEntries (setBody s (updateNode t (setDisplayed d) (body s))) = panelEntries s.
Proof.
  unfold panelEntries. simpl body.
  rewrite findPanel_updateNode by apply tag_setDisplayed.
  destruct (findPanel (body s)) as [n |] eqn:F; [| reflexivity]. simpl.
  apply findPanel_Some in F as [_ K].
  destruct (nid n =? t)%nat; [| reflexivity]. simpl.
  destruct (kind n); try discriminate. reflexivity.
Qed.

Lemma panelEntries_createTooltip (s : State) :
  panelEntries (createTooltip s) = panelEntries s.
Proof.
  unfold createTooltip. destruct (tooltipElement s); [reflexivity |].
  unfold panelEntries. simpl body. rewrite findPanel_app; [reflexivity |].
  intros n [<- | []]. reflexivity.
Qed.

(** X12.  Hovering an info icon shows the one tooltip of the document
    (creating it the first time), and leaving the icon hides it; neither
    changes the highlights or the list of the panel. *)
Theorem tooltip_follows_the_pointer (s : State) (icon : nat) :
  reachable s -> hasIcon icon (body s) = true ->
  let shown := step s (MouseEnterIcon icon) in
  let hidden := step shown (MouseLeaveIcon icon) in
  (exists t, tooltipElement shown = Some t
             /\ In {| nid := t; kind := Tooltip true |} (body shown)
             /\ In {| nid := t; kind := Tooltip false |} (body hidden))
  /\ (forall n d, In n (body shown) -> kind n = Tooltip d -> d = true)
  /\ (forall n d, In n (body hidden) -> kind n = Tooltip d -> d = false)
  /\ highlightEntries hidden = highlightEntries s
  /\ panelEntries hidden = panelEntries s.
Proof.
  intros R I shown hidden.
  pose proof (reachable_consistent s R) as C.
  pose proof (consistent_createTooltip s C) as C1.
  destruct (createTooltip_variable s) as [t T].
  assert (Es : shown = setBody (createTooltip s)
                         (updateNode t (setDisplayed true) (body (createTooltip s)))).
  { unfold shown. simpl. rewrite I. unfold showTooltip. now rewrite T. }
  assert (Cs : Consistent shown) by (apply consistent_step, C).
  assert (Ts : tooltipElement shown = Some t) by (rewrite Es; exact T).
  assert (Is : hasIcon icon (body shown) = true).
  { rewrite Es. simpl body. now rewrite hasIcon_updateNode, hasIcon_createTooltip. }
  assert (Eh : hidden = setBody shown (updateNode t (setDisplayed false) (body shown))).
  { unfold hidden. simpl. rewrite Is. unfold hideTooltip. now rewrite Ts. }
  destruct (displayed_after_update (createTooltip s) t true C1 T) as [S1 S2].
  destruct (displayed_after_update shown t false Cs Ts) as [H1 H2].
  split; [| split; [| split; [| split]]].
  - exists t. split; [exact Ts |]. split; [rewrite Es; exact S1 | rewrite Eh; exact H1].
  - rewrite Es. exact S2.
  - rewrite Eh. exact H2.
  - unfold hidden. rewrite (entries_step shown _ Cs). unfold shown.
    now rewrite (entries_step s _ C).
  - rewrite Eh, panelEntries_displayed, Es, panelEntries_displayed.
    apply panelEntries_createTooltip.
Qed.

Lemma tooltip_follows_the_pointer_witness :
  In {| nid := 3; kind := Tooltip true |}
     (body (run [CallHighlight samplePage [liveFinding]; MouseEnterIcon 2] injected))
  /\ forall n d,
       In n (body (run [CallHighlight samplePage [liveFinding]; MouseEnterIcon 2;
                        MouseLeaveIcon 2] injected)) ->
       kind n = Tooltip d -> d = false.
Proof.
  assert (R : reachable (run [CallHighlight samplePage [liveFinding]] injected))
    by (eexists; reflexivity).
  assert (I : hasIcon 2 (body (run [CallHighlight samplePage [liveFinding]] injected)) = true)
    by reflexivity.
  destruct (tooltip_follows_the_pointer _ 2%nat R I) as [_ [_ [H _]]].
  split; [vm_compute; auto | exact H].
Defined.

(* ================================================================== *)
(** * Further properties of the score, the report and the popup *)

(** *** What the score reads of an analysis *)

Lemma map_mapi_from_nth {A B C : Type} (g : B -> C) (h : A -> C) (f : nat -> A -> B)
      (k : nat) (xs : list A) :
  (forall i x, nth_error xs i = Some x -> g (f (k + i)%nat x) = h x) ->
  map g (mapi_from f k xs) = map h xs.
Proof.
  revert k. induction xs as [| x xs IH]; intros k H; simpl; [reflexivity |]. f_equal.
  - rewrite <- (Nat.add_0_r k) at 1. now apply H.
  - apply IH. intros i y Hy. rewrite Nat.add_succ_comm. now apply (H (S i)).
Qed.

Lemma map_mapi_nth {A B C : Type} (g : B -> C) (h : A -> C) (f : nat -> A -> B)
      (xs : list A) :
  (forall i x, nth_error xs i = Some x -> g (f i x) = h x) ->
  map g (mapi f xs) = map h xs.
Proof. intros H. unfold mapi. apply map_mapi_from_nth. exact H. Qed.

Lemma map_mapi_ext {A B C : Type} (g : B -> C) (f f' : nat -> A -> B) (xs : list A) :
  (forall i x, g (f i x) = g (f' i x)) -> map g (mapi f xs) = map g (mapi f' xs).
Proof.
  intros H. unfold mapi. generalize 0%nat.
  induction xs as [| x xs IH]; intros k; simpl; [reflexivity |]. now rewrite H, IH.
Qed.

Lemma fold_sum_map {A : Type} (g : A -> R) (l : list A) (a : R) :
  fold_left (fun acc v => acc + g v) l a = a + Spec.sum (map g l).
Proof.
  revert a. induction l as [| x l IH]; intros a; simpl; [lra |]. rewrite IH. lra.
Qed.

Lemma sum_scale {A : Type} (g : A -> R) (c : R) (l : list A) :
  Spec.sum (map (fun v => g v * c) l) = c * Spec.sum (map g l).
Proof. induction l as [| x l IH]; simpl; [lra | rewrite IH; lra]. Qed.

Lemma sum_between {A : Type} (g : A -> R) (lo hi : R) (l : list A) :
  (forall x, lo <= g x <= hi) ->
  INR (List.length l) * lo <= Spec.sum (map g l) <= INR (List.length l) * hi.
Proof.
  intros H. induction l as [| x l IH]; [simpl; lra |].
  change (List.length (x :: l)) with (S (List.length l)). rewrite S_INR. simpl.
  specialize (H x). lra.
Qed.

Lemma score_of_penalties (l l' : list Violation) :
  map penalty l = map penalty l' ->
  computeAccessibilityScore0to100 l = computeAccessibilityScore0to100 l'.
Proof.
  intros H. unfold computeAccessibilityScore0to100, rawScore.
  now rewrite !totalPenalty_sum, H.
Qed.

(** The score and the estimated impact read only the prediction of an
    analysis, and of the finding only its instances. *)
Lemma numbers_of_prediction (v : Violation) (a a' : MLAnalysis) :
  prediction a = prediction a' ->
  penalty (withMlAnalysis v a) = penalty (withMlAnalysis v a')
  /\ estimateUserImpactFromSeverity (withMlAnalysis v a)
     = estimateUserImpactFromSeverity (withMlAnalysis v a').
Proof.
  intros H.
  unfold penalty, estimateUserImpactFromSeverity, getPredictedSeverityScore,
    getPredictionConfidence, predictionField, nodeCountOr1. simpl. rewrite H. now split.
Qed.

Lemma clamp_075 : Rmax 0 (Rmin 1 0.75) = 0.75.
Proof. unfold Rmax, Rmin. repeat destruct Rle_dec; lra. Qed.

Lemma clamp_05 : Rmax 0 (Rmin 1 0.5) = 0.5.
Proof. unfold Rmax, Rmin. repeat destruct Rle_dec; lra. Qed.

Lemma penalty_without_analysis (v : Violation) :
  mlAnalysis v = None ->
  penalty v
  = severityWeight (mapImpactToScore (impact v)) * instanceMultiplier (nodeCountOr1 v) * 0.9.
Proof.
  intros H.
  unfold penalty, getPredictedSeverityScore, getPredictionConfidence, predictionField,
    confidenceMultiplier.
  rewrite H. simpl. lra.
Qed.

(** A fallback stores what [mapImpactToScore] returns for the impact, and
    the score reads that back: the number, or for an inherited function
    again what [mapImpactToScore] returns. *)
Lemma severity_of_mapped (i : string) :
  match mapImpactToScore i with
  | JNum x => JNum x
  | _ => mapImpactToScore i
  end = mapImpactToScore i.
Proof. now destruct (mapImpactToScore i). Qed.

Lemma severity_static (v : Violation) :
  getPredictedSeverityScore (withMlAnalysis v (getStaticMLAnalysis v))
  = mapImpactToScore (impact v).
Proof.
  unfold getPredictedSeverityScore, predictionField. simpl.
  change (_mapImpactToScore (impact v)) with (mapImpactToScore (impact v)).
  apply severity_of_mapped.
Qed.

Lemma severity_apiFallback (v : Violation) :
  getPredictedSeverityScore (withMlAnalysis v (mlAnalysisOf (Api._createFallbackEnhancement v)))
  = mapImpactToScore (impact v).
Proof.
  unfold getPredictedSeverityScore, predictionField. simpl.
  change (Api._mapImpactToScore (impact v)) with (mapImpactToScore (impact v)).
  apply severity_of_mapped.
Qed.

Lemma penalty_static (v : Violation) :
  penalty (withMlAnalysis v (getStaticMLAnalysis v))
  = severityWeight (mapImpactToScore (impact v)) * instanceMultiplier (nodeCountOr1 v) * 0.9.
Proof.
  unfold penalty. rewrite severity_static.
  unfold getPredictionConfidence, predictionField, confidenceMultiplier, nodeCountOr1.
  simpl. rewrite clamp_075. lra.
Qed.

Lemma penalty_apiFallback (v : Violation) :
  penalty (withMlAnalysis v (mlAnalysisOf (Api._createFallbackEnhancement v)))
  = severityWeight (mapImpactToScore (impact v)) * instanceMultiplier (nodeCountOr1 v) * 0.8.
Proof.
  unfold penalty. rewrite severity_apiFallback.
  unfold getPredictionConfidence, predictionField, confidenceMultiplier, nodeCountOr1.
  simpl. rewrite clamp_05. lra.
Qed.

(** X13.  When the health probe of the prediction service fails, the
    static analysis gives every finding the severity of its axe impact and
    the confidence 0.75, which are the values the score assumes for a
    finding without analysis: the score of the report is the score of the
    findings as axe reported them. *)
Theorem static_fallback_keeps_the_axe_score
        (w : World) (scan : AxeResults) (vs : list Violation) (r : Report) :
  ar_violations scan = Some vs ->
  Api.mlApi (Api.checkHealth (mlHealth w) (llmHealth w)) = false ->
  enhanceWithML w scan = Some r ->
  Forall (fun v => mlAnalysis v = None) vs ->
  r_score r = computeAccessibilityScore0to100 vs
  /\ map penalty (r_violations r) = map penalty vs
  /\ (forall e, In e (r_violations r) ->
        getPredictedSeverityScore e = mapImpactToScore (impact e)
        /\ getPredictionConfidence e = 0.75).
Proof.
  intros Hvs Hprobe Hr Hraw.
  apply enhanceWithML_inv in Hr. cbv zeta in Hr. rewrite Hvs, Hprobe in Hr. subst r.
  simpl r_score. simpl r_violations.
  assert (P : map penalty (mapi (enhanceOne false (calls w)) vs) = map penalty vs).
  { rewrite <- (map_id vs) at 2. rewrite map_map.
    apply map_mapi_nth. intros i v Hv. unfold enhanceOne.
    rewrite penalty_static. symmetry. apply penalty_without_analysis.
    rewrite Forall_forall in Hraw. apply Hraw. eapply nth_error_In, Hv. }
  split; [now apply score_of_penalties |]. split; [exact P |].
  intros e He. apply In_nth_error in He as [i He].
  rewrite mapi_nth_error in He.
  destruct (nth_error vs i) as [v |]; [| discriminate]. injection He as <-.
  unfold enhanceOne. split; [exact (severity_static v) |].
  unfold getPredictionConfidence, predictionField. simpl. apply clamp_075.
Qed.

Lemma static_fallback_witness :
  option_map r_score (enhanceWithML (sampleWorld false "2024-05-01T10:00:00.000Z") sampleScan)
  = Some (computeAccessibilityScore0to100 [bareCritical; staleFirst]).
Proof.
  assert (E : enhanceWithML (sampleWorld false "2024-05-01T10:00:00.000Z") sampleScan
              = Some (buildReport [bareCritical; staleFirst]
                        (mapi (enhanceOne false
                                 (calls (sampleWorld false "2024-05-01T10:00:00.000Z")))
                              [bareCritical; staleFirst])
                        (ar_url sampleScan) "2024-05-01T10:00:00.000Z" false))
    by (apply enhanceWithML_returns, sampleWorld_completes).
  assert (N : Forall (fun v => mlAnalysis v = None) [bareCritical; staleFirst])
    by (repeat constructor).
  destruct (static_fallback_keeps_the_axe_score
              (sampleWorld false "2024-05-01T10:00:00.000Z") sampleScan
              [bareCritical; staleFirst] _ eq_refl eq_refl E N)
    as [S _].
  rewrite E. simpl option_map. now rewrite <- S.
Defined.

(** X14.  The fallback of the API service assumes the confidence 0.5, the
    static fallback 0.75.  The same scan therefore gets eight ninths of
    the penalty, and a score at least as high, when the prediction service
    answers its probe and then fails every request, as when it does not
    answer the probe at all. *)
Theorem failing_service_scores_higher_than_absent_service
        (up down : World) (scan : AxeResults) (r r' : Report) :
  Api.mlApi (Api.checkHealth (mlHealth up) (llmHealth up)) = true ->
  (forall i, requestFails (calls up i) = true) ->
  Api.mlApi (Api.checkHealth (mlHealth down) (llmHealth down)) = false ->
  enhanceWithML up scan = Some r ->
  enhanceWithML down scan = Some r' ->
  totalPenalty (r_violations r) = 8 / 9 * totalPenalty (r_violations r')
  /\ (r_score r' <= r_score r)%Z.
Proof.
  intros Hup Hfail Hdown Hr Hr'.
  apply enhanceWithML_inv in Hr. cbv zeta in Hr. rewrite Hup in Hr.
  apply enhanceWithML_inv in Hr'. cbv zeta in Hr'. rewrite Hdown in Hr'.
  subst r r'. simpl r_score. simpl r_violations.
  set (vs := match ar_violations scan with Some vs => vs | None => [] end).
  set (g := fun v => severityWeight (mapImpactToScore (impact v))
                     * instanceMultiplier (nodeCountOr1 v)).
  assert (Pu : map penalty (mapi (enhanceOne true (calls up)) vs)
               = map (fun v => g v * 0.8) vs).
  { apply map_mapi_nth. intros i v _. unfold enhanceOne.
    rewrite (enhanceViolation_fails _ v (Hfail i)). apply penalty_apiFallback. }
  assert (Pd : map penalty (mapi (enhanceOne false (calls down)) vs)
               = map (fun v => g v * 0.9) vs).
  { apply map_mapi_nth. intros i v _. unfold enhanceOne. apply penalty_static. }
  assert (T : totalPenalty (mapi (enhanceOne true (calls up)) vs)
              = 8 / 9 * totalPenalty (mapi (enhanceOne false (calls down)) vs)).
  { rewrite !totalPenalty_sum, Pu, Pd, !sum_scale. lra. }
  split; [exact T |].
  rewrite !score_round_raw. apply Math_round_le, rawScore_antitone.
  pose proof (totalPenalty_nonneg (mapi (enhanceOne false (calls down)) vs)). lra.
Qed.

Lemma failing_service_witness :
  option_map (fun r => totalPenalty (r_violations r)) (enhanceWithML unansweredWorld sampleScan)
  = option_map (fun r => 8 / 9 * totalPenalty (r_violations r))
               (enhanceWithML (sampleWorld false "2024-05-01T10:00:00.000Z") sampleScan).
Proof.
  assert (Eu : enhanceWithML unansweredWorld sampleScan
               = Some (buildReport [bareCritical; staleFirst]
                         (mapi (enhanceOne true (calls unansweredWorld))
                               [bareCritical; staleFirst])
                         (ar_url sampleScan) (now unansweredWorld) true)).
  { apply enhanceWithML_returns. intros i H. simpl in *. lia. }
  assert (Ed : enhanceWithML (sampleWorld false "2024-05-01T10:00:00.000Z") sampleScan
               = Some (buildReport [bareCritical; staleFirst]
                         (mapi (enhanceOne false
                                  (calls (sampleWorld false "2024-05-01T10:00:00.000Z")))
                               [bareCritical; staleFirst])
                         (ar_url sampleScan) "2024-05-01T10:00:00.000Z" false))
    by (apply enhanceWithML_returns, sampleWorld_completes).
  assert (F : forall i, requestFails (calls unansweredWorld i) = true) by reflexivity.
  destruct (failing_service_scores_higher_than_absent_service
              unansweredWorld (sampleWorld false "2024-05-01T10:00:00.000Z") sampleScan
              _ _ eq_refl F eq_refl Eu Ed) as [T _].
  rewrite Eu, Ed. simpl option_map. f_equal. exact T.
Defined.

Lemma enhanceViolation_prediction (c c' : Api.CallOutcomes) (v : Violation) :
  Api.predictResponse c = Api.predictResponse c' ->
  Api.e_prediction (Api.enhanceViolation c v) = Api.e_prediction (Api.enhanceViolation c' v)
  /\ Api.e_shap (Api.enhanceViolation c v) = Api.e_shap (Api.enhanceViolation c' v).
Proof.
  intros H. unfold Api.enhanceViolation. rewrite H.
  destruct (Api.getPredictionWithShap (Api.predictResponse c')) as [p |]; [| now split].
  destruct (Api.ml_topFeatures p); now split.
Qed.

Lemma avgImpact_of_estimates (vs l l' : list Violation) (u u' t t' : string) (b b' : bool) :
  map estimateUserImpactFromSeverity l = map estimateUserImpactFromSeverity l' ->
  avgImpact (buildReport vs l u t b) = avgImpact (buildReport vs l' u' t' b').
Proof.
  intros H. unfold buildReport. simpl. now rewrite !fold_sum_map, H.
Qed.

(** X15.  The numbers of the report depend on the prediction service
    alone: two runs over the same scan that agree on the health probe of
    the prediction service and on its answers give the same score, the
    same average impact and the same counts, whatever the two language
    model services answer and in whatever order the requests finish. *)
Theorem score_depends_on_the_prediction_service_only
        (w w' : World) (scan : AxeResults) (r r' : Report) :
  mlHealth w = mlHealth w' ->
  (forall i, Api.predictResponse (calls w i) = Api.predictResponse (calls w' i)) ->
  enhanceWithML w scan = Some r ->
  enhanceWithML w' scan = Some r' ->
  r_score r = r_score r'
  /\ avgImpact r = avgImpact r'
  /\ usingMLAPI r = usingMLAPI r'
  /\ (totalViolations r, criticalCount r, seriousCount r, moderateCount r)
     = (totalViolations r', criticalCount r', seriousCount r', moderateCount r')
  /\ map penalty (r_violations r) = map penalty (r_violations r').
Proof.
  intros Hh Hp Hr Hr'.
  apply enhanceWithML_inv in Hr. cbv zeta in Hr.
  apply enhanceWithML_inv in Hr'. cbv zeta in Hr'.
  assert (U : Api.mlApi (Api.checkHealth (mlHealth w) (llmHealth w))
              = Api.mlApi (Api.checkHealth (mlHealth w') (llmHealth w')))
    by (unfold Api.checkHealth; simpl; now rewrite Hh).
  rewrite <- U in Hr'.
  set (useML := Api.mlApi (Api.checkHealth (mlHealth w) (llmHealth w))) in *.
  set (vs := match ar_violations scan with Some vs => vs | None => [] end) in *.
  assert (A : forall i v,
             penalty (enhanceOne useML (calls w) i v)
             = penalty (enhanceOne useML (calls w') i v)
             /\ estimateUserImpactFromSeverity (enhanceOne useML (calls w) i v)
                = estimateUserImpactFromSeverity (enhanceOne useML (calls w') i v)).
  { intros i v. unfold enhanceOne. destruct useML; [| now split].
    apply numbers_of_prediction. unfold mlAnalysisOf. simpl.
    now destruct (enhanceViolation_prediction _ _ v (Hp i)) as [-> _]. }
  assert (P : map penalty (mapi (enhanceOne useML (calls w)) vs)
              = map penalty (mapi (enhanceOne useML (calls w')) vs)).
  { apply map_mapi_ext. intros i v. apply A. }
  assert (E : map estimateUserImpactFromSeverity (mapi (enhanceOne useML (calls w)) vs)
              = map estimateUserImpactFromSeverity (mapi (enhanceOne useML (calls w')) vs)).
  { apply map_mapi_ext. intros i v. apply A. }
  subst r r'. split; [| split; [| split; [| split]]].
  - simpl r_score. now apply score_of_penalties.
  - now apply avgImpact_of_estimates.
  - reflexivity.
  - reflexivity.
  - exact P.
Qed.

Lemma prediction_service_only_witness :
  option_map r_score (enhanceWithML (sampleWorld true "2024-05-01T10:00:00.000Z") sampleScan)
  = option_map r_score (enhanceWithML (talkativeWorld "2024-05-01T10:00:00.000Z") sampleScan).
Proof.
  assert (E : enhanceWithML (sampleWorld true "2024-05-01T10:00:00.000Z") sampleScan
              = Some (buildReport [bareCritical; staleFirst]
                        (mapi (enhanceOne true
                                 (calls (sampleWorld true "2024-05-01T10:00:00.000Z")))
                              [bareCritical; staleFirst])
                        (ar_url sampleScan) "2024-05-01T10:00:00.000Z" true))
    by (apply enhanceWithML_returns, sampleWorld_completes).
  assert (E' : enhanceWithML (talkativeWorld "2024-05-01T10:00:00.000Z") sampleScan
               = Some (buildReport [bareCritical; staleFirst]
                         (mapi (enhanceOne true
                                  (calls (talkativeWorld "2024-05-01T10:00:00.000Z")))
                               [bareCritical; staleFirst])
                         (ar_url sampleScan) "2024-05-01T10:00:00.000Z" true)).
  { apply enhanceWithML_returns. intros i H. simpl in *. lia. }
  assert (P : forall i,
             Api.predictResponse (calls (sampleWorld true "2024-05-01T10:00:00.000Z") i)
             = Api.predictResponse (calls (talkativeWorld "2024-05-01T10:00:00.000Z") i))
    by reflexivity.
  destruct (score_depends_on_the_prediction_service_only
              (sampleWorld true "2024-05-01T10:00:00.000Z")
              (talkativeWorld "2024-05-01T10:00:00.000Z") sampleScan _ _ eq_refl P E E')
    as [S _].
  rewrite E, E'. exact (f_equal Some S).
Defined.

(** *** The ranges of the numbers of a report *)

Lemma estimate_bounds (v : Violation) : 15 <= estimateUserImpactFromSeverity v <= 85.
Proof.
  unfold estimateUserImpactFromSeverity.
  destruct (getPredictedSeverityScore v); try lra. table.
Qed.

Lemma three_counts (l : list Violation) :
  (countImpact "critical" l + countImpact "serious" l + countImpact "moderate" l
   <= List.length l)%nat.
Proof.
  unfold countImpact. induction l as [| v l IH]; simpl; [lia |].
  destruct (impact v =? "critical")%string eqn:E1;
    destruct (impact v =? "serious")%string eqn:E2;
    destruct (impact v =? "moderate")%string eqn:E3; simpl; try lia;
    repeat match goal with
           | H : (_ =? _)%string = true |- _ => apply String.eqb_eq in H
           end; congruence.
Qed.

(** X16.  In every report, the counts of critical, serious and moderate
    findings together do not exceed the total; without findings the
    average impact is 0 and the score 100; with findings the average
    impact is the rounded mean of values between 15 and 85, and so lies
    between 15 and 85. *)
Theorem report_numbers_are_in_range (w : World) (scan : AxeResults) (r : Report) :
  enhanceWithML w scan = Some r ->
  (criticalCount r + seriousCount r + moderateCount r <= totalViolations r)%nat
  /\ totalViolations r = List.length (r_violations r)
  /\ (totalViolations r = 0%nat -> avgImpact r = 0%Z /\ r_score r = 100%Z)
  /\ ((0 < totalViolations r)%nat -> (15 <= avgImpact r <= 85)%Z).
Proof.
  intros Hr. apply enhanceWithML_inv in Hr. cbv zeta in Hr.
  set (useML := Api.mlApi (Api.checkHealth (mlHealth w) (llmHealth w))) in *.
  set (vs := match ar_violations scan with Some vs => vs | None => [] end) in *.
  subst r. unfold buildReport. simpl.
  split; [apply three_counts |]. split; [now rewrite mapi_length |]. split.
  - intros Z. destruct vs; [| discriminate]. simpl. split; [reflexivity | apply score_nil].
  - intros Pos. destruct (0 <? List.length vs)%nat eqn:L;
      [| apply Nat.ltb_ge in L; lia].
    rewrite fold_sum_map, Rplus_0_l.
    pose proof (sum_between estimateUserImpactFromSeverity 15 85
                  (mapi (enhanceOne useML (calls w)) vs) estimate_bounds) as [Lo Hi].
    rewrite mapi_length in Lo, Hi.
    set (total := Spec.sum _) in *.
    assert (N : 0 < INR (List.length vs)) by (apply lt_0_INR; lia).
    set (n := INR (List.length vs)) in *.
    assert (Q : total = total / n * n) by (field; lra).
    assert (B : 15 <= total / n <= 85) by (split; nra).
    split; [apply Math_round_lower | apply Math_round_upper]; lra.
Qed.

Lemma report_numbers_in_range_witness :
  exists r, enhanceWithML (sampleWorld true "2024-05-01T10:00:00.000Z") sampleScan = Some r
            /\ (15 <= avgImpact r <= 85)%Z.
Proof.
  eexists. split.
  - apply enhanceWithML_returns, sampleWorld_completes.
  - apply (report_numbers_are_in_range (sampleWorld true "2024-05-01T10:00:00.000Z")
                                       sampleScan).
    + apply enhanceWithML_returns, sampleWorld_completes.
    + simpl. lia.
Defined.

(** *** The reasons of an enhancement *)



(** *** [MLModels.predictImpact] *)

(** X18.  For an impact that is not the name of an inherited property,
    the percentage [predictImpact] returns is the base value of the impact
    (that of moderate for an unknown impact) plus 10 when the description
    mentions a button and plus 15 when it mentions a form; it lies between
    10 and 70, so the cap at 100 is never reached; and two groups of users
    are named.  For the name of an inherited property the percentage is
    [NaN] and the groups are [undefined]. *)
Theorem predicted_impact_is_never_capped (v : Violation) :
  (inherited (impact v) = false ->
   exists basePercentage groups,
     baseImpact (impact v) = ImpactEntry basePercentage groups
     /\ percentage (predictImpact v) = Some (basePercentage + adjustment v)%nat
     /\ (10 <= basePercentage + adjustment v <= 70)%nat
     /\ affectedGroups (predictImpact v) = Some groups
     /\ List.length groups = 2%nat)
  /\ (inherited (impact v) = true ->
      percentage (predictImpact v) = None /\ affectedGroups (predictImpact v) = None).
Proof.
  unfold predictImpact, baseImpact, adjustment.
  destruct (impact v =? "critical")%string eqn:E1;
    [| destruct (impact v =? "serious")%string eqn:E2;
       [| destruct (impact v =? "moderate")%string eqn:E3;
          [| destruct (impact v =? "minor")%string eqn:E4]]];
    try (match goal with
         | H : (impact v =? _)%string = true |- _ => apply String.eqb_eq in H; rewrite H
         end;
         split; [| intros K; vm_compute in K; discriminate K];
         intros _; eexists; eexists; split; [reflexivity |];
         destruct (descriptionMentions v "button"); destruct (descriptionMentions v "form");
         simpl; repeat split; lia).
  destruct (inherited (impact v)); split; intros K; try discriminate K.
  - now split.
  - eexists; eexists; split; [reflexivity |].
    destruct (descriptionMentions v "button"); destruct (descriptionMentions v "form");
      simpl; repeat split; lia.
Qed.

Lemma predicted_impact_witness :
  percentage (predictImpact buttonFinding) = Some 45%nat
  /\ percentage (predictImpact inheritedImpact) = None.
Proof.
  destruct (predicted_impact_is_never_capped buttonFinding) as [A _].
  destruct (predicted_impact_is_never_capped inheritedImpact) as [_ B].
  destruct (A eq_refl) as [b [g [E [P _]]]].
  split.
  - rewrite P. vm_compute in E. injection E as <- _. reflexivity.
  - exact (proj1 (B eq_refl)).
Defined.

(** *** The popup *)

Import PopupUI.

(** X19.  A run of [runAccessibilityTest] leaves the controls hidden and
    ends in one of three ways.  When it shows an error, the status line is
    hidden and the results, what is displayed of them and the storage are
    as before the run: no partial result is kept.  Otherwise the scan of
    the page had violations and the run shows, keeps and stores the report
    that [enhanceWithML] returns for that scan, under the id of the active
    tab, or it is still waiting for that report.  A page without [axe] is
    reported as such. *)
Theorem failed_run_keeps_previous_results (b : Browser) (st : PopupState) :
  let st' := runAccessibilityTest b st in
  controlsHidden st' = true
  /\ (errorHidden st' = false ->
      statusHidden st' = true
      /\ currentResults st' = currentResults st
      /\ displayed st' = displayed st
      /\ storage st' = storage st
      /\ resultsHidden st' = resultsHidden st
      /\ exists message, errorMessage st' = ("Error: " ++ message)%string)
  /\ (errorHidden st' = true ->
      exists tabId url scan,
        tabQuery b = ActiveTab tabId url
        /\ injection b = Injected
        /\ scriptResult b = FrameResult (Some (AxeScan scan))
        /\ ar_violations scan <> None
        /\ currentTabId st' = Some tabId
        /\ match enhanceWithML (world b) scan with
           | Some r =>
               currentResults st' = Some r
               /\ displayed st' = Some (displayResults r)
               /\ accessGuruResults (storage st') = Some r
               /\ accessGuruTabId (storage st') = Some tabId
               /\ resultsHidden st' = false
               /\ statusHidden st' = true
           | None =>
               statusHidden st' = false
               /\ statusText st' = "Applying ML analysis..."%string
               /\ currentResults st' = currentResults st
               /\ displayed st' = displayed st
               /\ storage st' = storage st
           end)
  /\ (forall tabId url,
        tabQuery b = ActiveTab tabId url -> injection b = Injected ->
        scriptResult b = FrameResult (Some (runAxeTest None)) ->
        errorHidden st' = false
        /\ errorMessage st' = "Error: axe-core not loaded"%string).
Proof.
  unfold runAccessibilityTest.
  destruct (tabQuery b) as [m | tabId url].
  { simpl. repeat split; try discriminate; eauto. }
  destruct (injection b).
  2: { simpl. repeat split; try discriminate; eauto. }
  destruct (scriptResult b) as [m | | [[e | scan] |]].
  - simpl. repeat split; try discriminate; eauto.
  - simpl. repeat split; try discriminate; eauto.
  - destruct (e =? EmptyString)%string eqn:E; simpl; repeat split; try discriminate; eauto;
      match goal with
      | H : FrameResult _ = FrameResult _ |- _ => simpl in H; injection H as ->
      end; [discriminate E | reflexivity].
  - destruct (ar_violations scan) as [vs |] eqn:V.
    + split; [destruct (enhanceWithML (world b) scan); reflexivity |].
      split; [destruct (enhanceWithML (world b) scan); discriminate |].
      split; [| intros t u _ _ H; discriminate H].
      intros _. exists tabId, url, scan.
      split; [reflexivity |]. split; [reflexivity |]. split; [reflexivity |].
      split; [rewrite V; discriminate |].
      split; [destruct (enhanceWithML (world b) scan); reflexivity |].
      destruct (enhanceWithML (world b) scan) as [r |]; simpl; repeat split.
    + simpl. repeat split; try discriminate; eauto.
  - simpl. repeat split; try discriminate; eauto.
Qed.

Lemma failed_run_witness :
  errorMessage (runAccessibilityTest browserWithoutAxe idlePopup)
  = "Error: axe-core not loaded"%string
  /\ storage (runAccessibilityTest browserWithoutAxe idlePopup) = storage idlePopup
  /\ option_map r_score (currentResults (runAccessibilityTest sampleBrowser idlePopup))
     = option_map r_score (enhanceWithML (world sampleBrowser) sampleScan)
  /\ option_map totalViolations
       (accessGuruResults (storage (runAccessibilityTest sampleBrowser idlePopup)))
     = Some 2%nat.
Proof.
  destruct (failed_run_keeps_previous_results browserWithoutAxe idlePopup)
    as [_ [Err [_ Axe]]].
  destruct (Axe 7%nat (Some "https://example.org/"%string) eq_refl eq_refl eq_refl)
    as [Shown Msg].
  destruct (Err Shown) as [_ [_ [_ [St _]]]].
  destruct (failed_run_keeps_previous_results sampleBrowser idlePopup)
    as [_ [_ [Ok _]]].
  destruct (Ok eq_refl) as [t [u [scan [_ [_ [Hs [_ [_ Run]]]]]]]].
  assert (Es : scan = sampleScan) by (simpl in Hs; congruence). subst scan.
  assert (E : enhanceWithML (world sampleBrowser) sampleScan
              = Some (buildReport [bareCritical; staleFirst]
                        (mapi (enhanceOne true (calls (world sampleBrowser)))
                              [bareCritical; staleFirst])
                        (ar_url sampleScan) "2024-05-01T10:00:00.000Z" true))
    by (apply enhanceWithML_returns, sampleWorld_completes).
  rewrite E in Run. destruct Run as [Cur [_ [Sto _]]].
  split; [exact Msg |]. split; [exact St |].
  split; [now rewrite Cur, E |]. now rewrite Sto.
Defined.

(** X20.  After a successful run on a tab with a URL, opening the popup
    again on the same URL restores and displays the stored report without
    running a test; opening it on another URL displays nothing and clears
    the storage; and the Run again button clears the storage, so that
    nothing is restored afterwards. *)
Theorem results_are_restored_for_the_same_url
        (b : Browser) (st : PopupState) (tabId : nat) (u : string)
        (scan : AxeResults) (r : Report) :
  tabQuery b = ActiveTab tabId (Some u) ->
  injection b = Injected ->
  scriptResult b = FrameResult (Some (AxeScan scan)) ->
  ar_violations scan <> None ->
  enhanceWithML (world b) scan = Some r ->
  tabId <> 0%nat ->
  let st' := runAccessibilityTest b st in
  forall opened, storage opened = storage st' ->
    (let restored := onDOMContentLoaded (Some u) opened in
     currentResults restored = Some r
     /\ currentTabId restored = Some tabId
     /\ displayed restored = Some (displayResults r)
     /\ controlsHidden restored = true
     /\ resultsHidden restored = false
     /\ storage restored = storage opened)
    /\ (forall u', u' <> u -> u <> EmptyString ->
          onDOMContentLoaded (Some u') opened = clearStorage opened)
    /\ storage (onRunAgain st') = emptyStorage
    /\ onDOMContentLoaded (Some u) (onRunAgain st') = onRunAgain st'.
Proof.
  intros Ht Hi Hs Hv Hr Hn st' opened Ho.
  assert (S : storage st' = {| accessGuruResults := Some r;
                               accessGuruTabId := Some tabId;
                               accessGuruUrl := Some u |}).
  { unfold st', runAccessibilityTest. rewrite Ht, Hi, Hs.
    destruct (ar_violations scan); [| contradiction]. now rewrite Hr. }
  rewrite S in Ho. split; [| split; [| split]].
  - unfold onDOMContentLoaded. rewrite Ho. simpl.
    apply Nat.eqb_neq in Hn. rewrite Hn, String.eqb_refl. simpl.
    repeat split.
  - intros u' Hu Hne. unfold onDOMContentLoaded. rewrite Ho. simpl.
    apply Nat.eqb_neq in Hn. rewrite Hn. simpl.
    assert (E : (u =? u')%string = false) by (apply String.eqb_neq; congruence).
    assert (E' : (u =? "")%string = false) by (now apply String.eqb_neq).
    rewrite E, E'. reflexivity.
  - reflexivity.
  - reflexivity.
Qed.

Lemma results_are_restored_witness :
  option_map totalViolations
    (currentResults
       (onDOMContentLoaded (Some "https://example.org/"%string)
          (runAccessibilityTest sampleBrowser idlePopup)))
  = Some 2%nat.
Proof.
  assert (E : enhanceWithML (world sampleBrowser) sampleScan
              = Some (buildReport [bareCritical; staleFirst]
                        (mapi (enhanceOne true (calls (world sampleBrowser)))
                              [bareCritical; staleFirst])
                        (ar_url sampleScan) "2024-05-01T10:00:00.000Z" true))
    by (apply enhanceWithML_returns, sampleWorld_completes).
  assert (V : ar_violations sampleScan <> None) by discriminate.
  assert (N : 7%nat <> 0%nat) by discriminate.
  destruct (results_are_restored_for_the_same_url
              sampleBrowser idlePopup 7 "https://example.org/" sampleScan _
              eq_refl eq_refl eq_refl V E N
              (runAccessibilityTest sampleBrowser idlePopup) eq_refl) as [[C _] _].
  rewrite C. reflexivity.
Defined.

(* ================================================================== *)
(** * The score in double precision *)

Section ExpSeries.

(** For [x >= 0] the partial sums of the exponential series are below
    [exp x]. *)
Lemma exp_partial_sum (x : R) (n : nat) :
  0 <= x -> sum_f_R0 (fun i => / INR (fact i) * x ^ i) n <= exp x.
Proof.
  intros Hx. unfold exp. destruct (exist_exp x) as [l Hl]. simpl.
  apply sum_incr; [exact Hl |].
  intros i. apply Rmult_le_pos; [| apply pow_le; exact Hx].
  left. apply Rinv_0_lt_compat, INR_fact_lt_0.
Qed.

Lemma INR_fact (n : nat) (z : Z) : Z.of_nat (fact n) = z -> INR (fact n) = IZR z.
Proof. intros <-. apply INR_IZR_INZ. Qed.

Lemma exp_series_8 (x : R) :
  0 <= x ->
  1 + x + x ^ 2 / 2 + x ^ 3 / 6 + x ^ 4 / 24 + x ^ 5 / 120 + x ^ 6 / 720
  + x ^ 7 / 5040 + x ^ 8 / 40320 <= exp x.
Proof.
  intros Hx. pose proof (exp_partial_sum x 8 Hx) as H.
  unfold sum_f_R0 in H.
  rewrite (INR_fact 0 1), (INR_fact 1 1), (INR_fact 2 2), (INR_fact 3 6),
    (INR_fact 4 24), (INR_fact 5 120), (INR_fact 6 720), (INR_fact 7 5040),
    (INR_fact 8 40320) in H by reflexivity.
  lra.
Qed.

End ExpSeries.

Module DoubleFacts.
Import PrimFloat.

Lemma capped_clampCount (l : nat) :
  let n := if (l =? 0)%nat then 1%nat else l in
  Nat.min (Nat.max (if (n =? 0)%nat then 1 else n) 1) 20
  = DoubleSpec.clampCount l 1 20.
Proof.
  unfold DoubleSpec.clampCount. cbv zeta.
  destruct (l =? 0)%nat eqn:E.
  - apply Nat.eqb_eq in E. subst l. reflexivity.
  - rewrite E. apply Nat.eqb_neq in E. lia.
Qed.

Lemma severity_findingOf (v : Double.Violation) :
  Double.severityWeight (Double.getPredictedSeverityScore v)
  = DoubleSpec.severityWeight (DoubleSpec.severityOf (DoubleSpec.findingOf v)).
Proof.
  assert (D : Double.severityWeight (Double.mapImpactToScore (Double.impact v))
              = DoubleSpec.severityWeight (DoubleSpec.impactSeverity (Double.impact v))).
  { unfold Double.mapImpactToScore, DoubleSpec.impactSeverity.
    repeat (destruct String.eqb; [reflexivity |]).
    now destruct inherited. }
  unfold Double.getPredictedSeverityScore, DoubleSpec.severityOf, DoubleSpec.findingOf,
    Double.predictionField, DoubleSpec.field.
  cbn [DoubleSpec.severity DoubleSpec.impact].
  destruct (Double.mlAnalysis v) as [[[[ps s pp c] |]] |]; cbn; try exact D.
  destruct ps; cbn; try reflexivity; destruct s; cbn; try reflexivity; exact D.
Qed.

Lemma instances_findingOf (v : Double.Violation) :
  Double.instanceMultiplier (Double.nodeCountOr1 v)
  = DoubleSpec.instanceMultiplier (DoubleSpec.instanceCount (DoubleSpec.findingOf v)).
Proof.
  unfold Double.instanceMultiplier, DoubleSpec.instanceMultiplier, Double.nodeCountOr1,
    DoubleSpec.findingOf.
  cbn [DoubleSpec.instanceCount]. cbv zeta.
  destruct (Double.nodes v) as [l |].
  - now rewrite (capped_clampCount (List.length l)).
  - reflexivity.
Qed.

Lemma confidence_findingOf (v : Double.Violation) :
  Double.confidenceMultiplier (Double.getPredictionConfidence v)
  = DoubleSpec.confidenceMultiplier (DoubleSpec.confidenceOf (DoubleSpec.findingOf v)).
Proof.
  unfold Double.getPredictionConfidence, DoubleSpec.confidenceOf, DoubleSpec.findingOf,
    Double.predictionField, DoubleSpec.field, Double.confidenceMultiplier,
    DoubleSpec.confidenceMultiplier, DoubleSpec.clamp.
  cbn [DoubleSpec.confidence].
  destruct (Double.mlAnalysis v) as [[[[ps s pp c] |]] |]; cbn; try reflexivity.
  destruct pp; cbn; try reflexivity; destruct c; reflexivity.
Qed.

Lemma penalty_findingOf (v : Double.Violation) :
  Double.penalty v = DoubleSpec.penalty (DoubleSpec.findingOf v).
Proof.
  unfold Double.penalty, DoubleSpec.penalty. cbv zeta.
  now rewrite severity_findingOf, instances_findingOf, confidence_findingOf.
Qed.

Lemma totalPenalty_findingOf (vs : list Double.Violation) :
  Double.totalPenalty vs = DoubleSpec.totalPenalty (map DoubleSpec.findingOf vs).
Proof.
  unfold Double.totalPenalty, DoubleSpec.totalPenalty.
  generalize 0%float as acc.
  induction vs as [| v vs IH]; intros acc; [reflexivity |].
  cbn [fold_left map]. rewrite penalty_findingOf. apply IH.
Qed.

Lemma score_findingOf (vs : list Double.Violation) :
  Double.computeAccessibilityScore0to100 vs
  = DoubleSpec.score (map DoubleSpec.findingOf vs).
Proof.
  unfold Double.computeAccessibilityScore0to100, DoubleSpec.score, DoubleSpec.clamp.
  cbv zeta. now rewrite totalPenalty_findingOf.
Qed.

(** The confidence of the tie, as a fraction. *)
Lemma tieConfidence_exact :
  Double.toR DoubleSamples.tieConfidence = 5017657591019988 / 9007199254740992.
Proof.
  unfold Double.toR.
  change (FloatOps.Prim2SF DoubleSamples.tieConfidence)
    with (SpecFloat.S754_finite false 5017657591019988 (-53)).
  cbv iota beta.
  change (0 <=? -53)%Z with false. cbv iota.
  change (2 ^ (- (-53)))%Z with 9007199254740992%Z. reflexivity.
Qed.

Lemma tieExact_penalty :
  Spec.totalPenalty [DoubleSamples.tieExact]
  = 2 * (0.6 + 0.4 * (5017657591019988 / 9007199254740992)).
Proof.
  unfold Spec.totalPenalty, Spec.penalty, DoubleSamples.tieExact. simpl.
  rewrite tieConfidence_exact.
  unfold Spec.instanceMultiplier, Spec.clamp, Spec.severityWeight, Spec.confidenceMultiplier.
  replace (Rmin (Rmax 1 1) 20) with 1
    by (unfold Rmin, Rmax; repeat destruct Rle_dec; lra).
  rewrite log2_1. table.
Qed.

Lemma tieExact_below_half :
  96.5 <= 100 * exp (- Spec.totalPenalty [DoubleSamples.tieExact] / 65) < 97.5.
Proof.
  rewrite tieExact_penalty.
  set (x := 2 * (0.6 + 0.4 * (5017657591019988 / 9007199254740992)) / 65).
  replace (- (2 * (0.6 + 0.4 * (5017657591019988 / 9007199254740992))) / 65)
    with (- x) by (unfold x; lra).
  assert (X : x = 4632114118282869 / 182958734861926400) by (unfold x; lra).
  assert (P : 0 <= x) by (rewrite X; lra).
  split.
  - pose proof (exp_ineq1_le (- x)). rewrite X in *. lra.
  - pose proof (exp_series_8 x P) as S.
    assert (L : 40 / 39 < exp x).
    { eapply Rlt_le_trans; [| exact S]. rewrite X. lra. }
    rewrite exp_Ropp.
    assert (I : / exp x < 39 / 40).
    { replace (39 / 40) with (/ (40 / 39)) by field.
      apply Rinv_lt_contravar; [| exact L].
      apply Rmult_lt_0_compat; [lra | apply exp_pos]. }
    lra.
Qed.

End DoubleFacts.

(* ================================================================== *)
(** * The claim about the formula of the score *)

Import PrimFloat.
Import DoubleSamples.

(** C1.  In double precision, for every list of enriched findings the score
    the popup computes is round(clamp(100 * exp(-totalPenalty / 65), 0, 100)),
    where totalPenalty adds, from 0 and in the order of the list, the
    products severityWeight * instanceMultiplier * confidenceMultiplier of
    the findings, with the tables, the clamps and the defaults of section
    4.1, every operation rounded to binary64.  The three findings of the
    end-to-end example score 66 with their predictions, and 67 as axe
    reports them, without predictions; the empty list scores 100; a finding
    that axe calls minor and the prediction critical scores 77, where the
    minor finding without prediction scores 97; and the finding [tie],
    whose value before rounding is the double 97.5, scores 98. *)
Theorem score_is_rounded_exponential_decay :
  (forall vs,
     Double.computeAccessibilityScore0to100 vs
     = DoubleSpec.score (map DoubleSpec.findingOf vs))
  /\ Double.computeAccessibilityScore0to100 specExample = 66%float
  /\ Double.computeAccessibilityScore0to100
       [bare "critical" 1; bare "moderate" 5; bare "minor" 1] = 67%float
  /\ Double.computeAccessibilityScore0to100 [] = 100%float
  /\ Double.computeAccessibilityScore0to100 [upgraded] = 77%float
  /\ Double.computeAccessibilityScore0to100 [bare "minor" 1] = 97%float
  /\ Double.computeAccessibilityScore0to100 [tie] = 98%float.
Proof.
  split; [exact DoubleFacts.score_findingOf |].
  repeat split; vm_compute; reflexivity.
Qed.

(** C1, read in exact arithmetic, fails.  The finding [tie] is minor, has
    one instance, the predicted severity 2 and the confidence
    0.5570718987235588, which is the fraction 5017657591019988 / 2^53.  The
    popup scores it 98.  The formula of section 4.1 on the same numbers, in
    exact arithmetic, gives a value between 96.5 and 97.5 and rounds it to
    97. *)
Lemma exact_formula_rounds_a_tie_down :
  Double.computeAccessibilityScore0to100 [tie] = 98%float
  /\ Double.toR tieConfidence = 5017657591019988 / 2 ^ 53
  /\ Spec.f_confidence tieExact = Double.toR tieConfidence
  /\ 96.5 <= 100 * exp (- Spec.totalPenalty [tieExact] / 65) < 97.5
  /\ Spec.score [tieExact] = 97%Z.
Proof.
  split; [vm_compute; reflexivity |].
  split; [rewrite DoubleFacts.tieConfidence_exact; lra |].
  split; [reflexivity |].
  pose proof DoubleFacts.tieExact_below_half as B.
  split; [exact B |].
  unfold Spec.score, Spec.clamp. apply Math_round_eq.
  unfold Rmin, Rmax. repeat destruct Rle_dec; simpl IZR; lra.
Qed.

(** In double precision the value before rounding does reach 0: for three
    thousand critical findings the total penalty is finite and [Math.exp]
    underflows. *)
Lemma exponential_underflows_to_zero :
  Double.totalPenalty (repeat (bare "critical" 1) 3000) = 48599.999999998196%float
  /\ (100 * Double.Math_exp (- Double.totalPenalty (repeat (bare "critical" 1) 3000) / 65)
      = 0)%float.
Proof. split; vm_compute; reflexivity. Qed.
